(** * Rider Sathi: the proximity emergency-alert engine

    A shallow embedding of the alert life cycle of the backend:
    - the EmergencyAlert model (schema, [scheduleAutoResolve]),
    - the User model ([findNearby]),
    - the routes of /api/emergency (POST /alert, POST /respond/:alertId,
      PUT /resolve/:alertId, [notifyContacts]),
    - [routes/auth.js] (GET /nearby-users),
    - [services/socketService.js] (connection, 'location-update',
      'emergency-alert', 'emergency-response', disconnect),
    - GET /api/emergency/nearby, the Reward model and POST /api/rewards/redeem,
    - the helpers of /api/ai ([processVoiceCommand],
      [extractActionFromResponse], [assessEmergencySituation]) with POST /voice
      and POST /emergency-assess.

    Conventions of the embedding.
    - A collection is a list of stored records, the [_id] of a record being
      its position; a fresh [_id] is the length of the collection.
    - A Mongoose document is an in-memory copy of a stored record together
      with the paths modified since it was loaded; [save] writes those paths
      and nothing else.  [findById] returns a new copy every time.
    - A JavaScript number is a rational; every finite double is one.
    - A string is the UTF-8 encoding of the JavaScript string, one character
      of the [string] to the byte; [js_length] is the [length] of JavaScript,
      the number of UTF-16 code units.
    - The database is connected, so that [req.user.id] is what the [auth]
      middleware sets, [user._id], an ObjectId and not a string: [oid uid] is
      the ObjectId that prints as [uid].  [socket.userId] is a string.
    - [Date.now()] is an argument of the handler, in milliseconds.
    - [step] runs a handler from its first line to its last without another
      handler in between.  [istep] lets handlers overlap: the two handlers of
      a response are cut where they await [alert.save()], and between the
      load and the save of one request any other handler can run. *)

From Stdlib Require Import ZArith QArith Qabs Qround.
From stdpp Require Import gmap strings list sorting.

Local Open Scope string_scope.

(** ** Data model *)

Abbreviation UserId := string (only parsing).
Abbreviation AlertId := nat (only parsing).
Abbreviation SocketId := nat (only parsing).
Definition Time := Z.
Definition number := Q.
Bind Scope Z_scope with Time.
Bind Scope Q_scope with number.

(** [status: enum ['active', 'responded', 'resolved', 'cancelled']] *)
Inductive Status := active | responded | resolved | cancelled.

#[global] Instance Status_eq_dec : EqDecision Status.
Proof. solve_decision. Defined.

(** GeoJSON point: [coordinates: [longitude, latitude]]. *)
Record Point := mkPoint {
  longitude : number;
  latitude : number;
  address : option string
}.

(** An element of [responders]. *)
Record Responder := mkResponder {
  r_user : UserId;
  respondedAt : Time;
  r_message : option string;
  estimatedArrival : option Z
}.

Record Hospital := mkHospital {
  h_name : string;
  h_distance : Z
}.

Record EmergencyAlert := mkAlert {
  user : UserId;
  type : string;
  severity : string;
  location : Point;
  description : option string;
  status : Status;
  responders : list Responder;
  nearbyHospitals : list Hospital;
  autoResolved : bool;
  resolvedAt : option Time;
  resolvedBy : option UserId;
  createdAt : Time
}.

Record Reward := mkReward {
  rw_user : UserId;
  activityType : string;
  points : Z;
  rw_description : string;
  relatedActivity : AlertId;
  relatedModel : string
}.

Record Contact := mkContact {
  c_name : string;
  c_phone : option string
}.

Record User := mkUser {
  name : string;
  emergencyContacts : list Contact;
  currentLocation : Point;
  helpCount : Z;
  rewardPoints : Z;
  isOnline : bool;
  lastSeen : Time
}.

(** A value of the [connectedUsers] map. *)
Record Connection := mkConnection {
  socketId : SocketId;
  connectedAt : Time
}.

(** ** Mongoose documents of the EmergencyAlert model *)

Inductive Path := PStatus | PAutoResolved | PResolvedAt | PResolvedBy.

(** [fields] is the in-memory copy, [pushed] the responders appended with
    [responders.push] since the load, [modified] the scalar paths assigned a
    different value since the load. *)
Record Document := mkDocument {
  _id : AlertId;
  fields : EmergencyAlert;
  pushed : list Responder;
  modified : list Path
}.

Definition with_status (s : Status) (a : EmergencyAlert) : EmergencyAlert :=
  mkAlert (user a) (type a) (severity a) (location a) (description a) s
          (responders a) (nearbyHospitals a) (autoResolved a) (resolvedAt a)
          (resolvedBy a) (createdAt a).

Definition with_responders (rs : list Responder) (a : EmergencyAlert) : EmergencyAlert :=
  mkAlert (user a) (type a) (severity a) (location a) (description a) (status a)
          rs (nearbyHospitals a) (autoResolved a) (resolvedAt a)
          (resolvedBy a) (createdAt a).

Definition with_autoResolved (b : bool) (a : EmergencyAlert) : EmergencyAlert :=
  mkAlert (user a) (type a) (severity a) (location a) (description a) (status a)
          (responders a) (nearbyHospitals a) b (resolvedAt a)
          (resolvedBy a) (createdAt a).

Definition with_resolvedAt (t : option Time) (a : EmergencyAlert) : EmergencyAlert :=
  mkAlert (user a) (type a) (severity a) (location a) (description a) (status a)
          (responders a) (nearbyHospitals a) (autoResolved a) t
          (resolvedBy a) (createdAt a).

Definition with_resolvedBy (u : option UserId) (a : EmergencyAlert) : EmergencyAlert :=
  mkAlert (user a) (type a) (severity a) (location a) (description a) (status a)
          (responders a) (nearbyHospitals a) (autoResolved a) (resolvedAt a)
          u (createdAt a).

(** [Model.findById(id)]: a new document, nothing modified. *)
Definition findById (coll : list EmergencyAlert) (id : AlertId) : option Document :=
  a ← coll !! id; Some (mkDocument id a [] []).

(** [doc.status = s]: the path is marked only when the value changes. *)
Definition set_status (s : Status) (d : Document) : Document :=
  if decide (status (fields d) = s) then d
  else mkDocument (_id d) (with_status s (fields d)) (pushed d) (PStatus :: modified d).

Definition set_autoResolved (b : bool) (d : Document) : Document :=
  if decide (autoResolved (fields d) = b) then d
  else mkDocument (_id d) (with_autoResolved b (fields d)) (pushed d)
                  (PAutoResolved :: modified d).

Definition set_resolvedAt (t : Time) (d : Document) : Document :=
  if decide (resolvedAt (fields d) = Some t) then d
  else mkDocument (_id d) (with_resolvedAt (Some t) (fields d)) (pushed d)
                  (PResolvedAt :: modified d).

Definition set_resolvedBy (u : UserId) (d : Document) : Document :=
  if decide (resolvedBy (fields d) = Some u) then d
  else mkDocument (_id d) (with_resolvedBy (Some u) (fields d)) (pushed d)
                  (PResolvedBy :: modified d).

(** [doc.responders.push(r)] *)
Definition push_responder (r : Responder) (d : Document) : Document :=
  mkDocument (_id d) (with_responders (responders (fields d) ++ [r]) (fields d))
             (pushed d ++ [r]) (modified d).

(** The update that [save] sends for one modified path: [$set] of the
    in-memory value. *)
Definition write_path (mem : EmergencyAlert) (p : Path) (stored : EmergencyAlert)
  : EmergencyAlert :=
  match p with
  | PStatus => with_status (status mem) stored
  | PAutoResolved => with_autoResolved (autoResolved mem) stored
  | PResolvedAt => with_resolvedAt (resolvedAt mem) stored
  | PResolvedBy => with_resolvedBy (resolvedBy mem) stored
  end.

(** The whole update of a [save]: [$set] of the modified paths and [$push]
    of the appended responders, applied to the stored record. *)
Definition apply_update (d : Document) (stored : EmergencyAlert) : EmergencyAlert :=
  let a := foldr (write_path (fields d)) stored (modified d) in
  with_responders (responders a ++ pushed d) a.

(** [doc.save()] on a document that is not new: [updateOne({_id}, update)].
    The document is clean afterwards. *)
Definition save (coll : list EmergencyAlert) (d : Document)
  : list EmergencyAlert * Document :=
  (alter (apply_update d) (_id d) coll, mkDocument (_id d) (fields d) [] []).

(** ** Requests, outputs and the environment *)

(** The [location] object of a request body. *)
Record LocationInput := mkLocationInput {
  in_latitude : option number;
  in_longitude : option number;
  in_address : option string
}.

(** The body of POST /alert and the payload of 'emergency-alert'. *)
Record AlertInput := mkAlertInput {
  in_type : option string;
  in_severity : option string;
  in_location : option LocationInput;
  in_description : option string
}.

(** The body of POST /respond/:alertId and the rest of the payload of
    'emergency-response'. *)
Record ResponseInput := mkResponseInput {
  in_message : option string;
  in_estimatedArrival : option Z
}.

(** What a route answers: [res.status(code).json({success, message, ...})]. *)
Record HttpResponse := mkHttpResponse {
  code : Z;
  success : bool;
  message : string;
  alert_id : option AlertId;
  pointsEarned : option Z;
  alertStatus : option Status;
  respondersCount : option nat
}.

Definition json (c : Z) (ok : bool) (msg : string) : HttpResponse :=
  mkHttpResponse c ok msg None None None None.

(** A socket of the server: [socket.id] and the authenticated
    [socket.userId]. *)
Record Socket := mkSocket {
  sock_id : SocketId;
  userId : UserId
}.

(** What the server emits, with the socket it goes to. *)
Inductive Emit :=
| emergency_alert (to : SocketId) (alertId : AlertId) (ty sev : option string)
    (loc : LocationInput) (descr : option string) (from : UserId)
    (distance : number)
| emergency_alert_sent (to : SocketId) (alertId : AlertId) (notifiedUsers : nat)
| emergency_response (to : SocketId) (alertId : AlertId) (responderId : UserId)
    (msg : option string) (eta : option Z)
| emergency_response_sent (to : SocketId) (alertId : AlertId) (earned : Z)
| error_event (to : SocketId) (msg : string).

Inductive LogEntry :=
| console_log (msg : string)
| console_warn (msg : string)
| console_error (msg : string)
| sms_sent (sender receiver : string)
| call_placed (receiver : string).

(** A pending [setTimeout] of [scheduleAutoResolve]: the time it is due and
    the document the callback closes over ([this]).  It is the object the
    creating handler built with [new EmergencyAlert(...)]; the other handlers
    work on the copies that [findById] gives them. *)
Record Timer := mkTimer {
  due : Time;
  this : Document
}.

(** Everything outside the process, as the handlers see it: [process.env],
    and for each external call whether it resolves or rejects. *)
Record Env := mkEnv {
  overpass : option (list Hospital);
  userLookup : bool;
  TWILIO_ACCOUNT_SID : option string;
  TWILIO_AUTH_TOKEN : option string;
  TWILIO_FROM : option string;
  TWILIO_WHATSAPP_FROM : option string;
  ACCIDENT_SERVICE_NUMBER : option string;
  BREAKDOWN_SERVICE_NUMBER : option string;
  TOWING_NUMBER : option string;
  MEDICAL_SERVICE_NUMBER : option string;
  FIRE_SERVICE_NUMBER : option string;
  twilioImport : bool;
  messagesCreate : string -> string -> bool;
  callsCreate : string -> bool
}.

(** ** The state of the server and its database *)

Record World := mkWorld {
  alerts : list EmergencyAlert;
  rewards : list Reward;
  users : gmap UserId User;
  connectedUsers : gmap UserId Connection;
  timers : list Timer;
  nextSocketId : SocketId;
  outbox : list Emit;
  console : list LogEntry
}.

Definition with_alerts (x : list EmergencyAlert) (w : World) : World :=
  mkWorld x (rewards w) (users w) (connectedUsers w) (timers w)
          (nextSocketId w) (outbox w) (console w).
Definition with_rewards (x : list Reward) (w : World) : World :=
  mkWorld (alerts w) x (users w) (connectedUsers w) (timers w)
          (nextSocketId w) (outbox w) (console w).
Definition with_users (x : gmap UserId User) (w : World) : World :=
  mkWorld (alerts w) (rewards w) x (connectedUsers w) (timers w)
          (nextSocketId w) (outbox w) (console w).
Definition with_connectedUsers (x : gmap UserId Connection) (w : World) : World :=
  mkWorld (alerts w) (rewards w) (users w) x (timers w)
          (nextSocketId w) (outbox w) (console w).
Definition with_timers (x : list Timer) (w : World) : World :=
  mkWorld (alerts w) (rewards w) (users w) (connectedUsers w) x
          (nextSocketId w) (outbox w) (console w).
Definition with_nextSocketId (x : SocketId) (w : World) : World :=
  mkWorld (alerts w) (rewards w) (users w) (connectedUsers w) (timers w)
          x (outbox w) (console w).
Definition with_outbox (x : list Emit) (w : World) : World :=
  mkWorld (alerts w) (rewards w) (users w) (connectedUsers w) (timers w)
          (nextSocketId w) x (console w).
Definition with_console (x : list LogEntry) (w : World) : World :=
  mkWorld (alerts w) (rewards w) (users w) (connectedUsers w) (timers w)
          (nextSocketId w) (outbox w) x.

(** The server before any request, over a given [users] collection. *)
Definition init (us : gmap UserId User) : World :=
  mkWorld [] [] us ∅ [] 0 [] [].

(** ** Handlers as state transformers that may throw

    A write that happened before a [throw] stays written. *)

Inductive Outcome (A : Type) :=
| Returned (a : A)
| Thrown (e : string).
Arguments Returned {A} a.
Arguments Thrown {A} e.

Definition M (A : Type) : Type := World -> Outcome A * World.

#[global] Instance M_ret : MRet M := λ A a w, (Returned a, w).
#[global] Instance M_bind : MBind M := λ A B f m w,
  match m w with
  | (Returned a, w') => f a w'
  | (Thrown e, w') => (Thrown e, w')
  end.

Definition throw {A} (e : string) : M A := λ w, (Thrown e, w).
Definition try_catch {A} (body : M A) (handler : string -> M A) : M A := λ w,
  match body w with
  | (Thrown e, w') => handler e w'
  | r => r
  end.
Definition gets {A} (f : World -> A) : M A := λ w, (Returned (f w), w).
Definition modify (f : World -> World) : M unit := λ w, (Returned tt, f w).

Definition log (l : LogEntry) : M unit :=
  modify (λ w, with_console (console w ++ [l]) w).
Definition emit (e : Emit) : M unit :=
  modify (λ w, with_outbox (outbox w ++ [e]) w).

(** [for (const x of xs) { body(x) }] and [xs.forEach(body)] *)
Fixpoint for_each {A} (xs : list A) (body : A -> M unit) : M unit :=
  match xs with
  | [] => mret tt
  | x :: xs' => body x ≫= λ _, for_each xs' body
  end.

(** JavaScript truthiness of the values that occur. *)
Definition truthy_string (s : option string) : bool :=
  match s with Some s' => negb (String.eqb s' "") | None => false end.
Definition truthy_number (n : option number) : bool :=
  match n with Some q => negb (Qeq_bool q 0) | None => false end.
(** [a || b] on strings that may be undefined *)
Definition or_string (a b : option string) : option string :=
  if truthy_string a then a else b.

(** [x === y] on the values that the handlers compare.  Two strings are
    equal when they are the same string; an object is equal to itself only,
    so a string and an ObjectId are never equal, and neither are two ObjectIds
    that were built apart. *)
Inductive Value :=
| str (s : string)
| oid (hex : string).

Definition strict_equal (x y : Value) : bool :=
  match x, y with
  | str s, str t => bool_decide (s = t)
  | _, _ => false
  end.

(** [s.length]: the number of UTF-16 code units.  A code point starts at
    every byte that is not a continuation byte (10xxxxxx), and takes two code
    units when its encoding starts with 11110xxx (a code point above
    U+FFFF). *)
Definition code_units (c : Ascii.ascii) : nat :=
  let b := Ascii.nat_of_ascii c in
  if (b <? 128)%nat then 1%nat
  else if (b <? 192)%nat then 0%nat
  else if (b <? 240)%nat then 1%nat
  else 2%nat.

Fixpoint js_length (s : string) : nat :=
  match s with
  | EmptyString => 0%nat
  | String c s' => (code_units c + js_length s')%nat
  end.

(** ** Geometry

    The two distances the code relies on and does not compute in exact
    arithmetic: the spherical distance of MongoDB's [$near] operator, and
    [calculateDistance], the haversine formula on doubles ([Math.sin],
    [Math.cos], [Math.atan2], Earth radius 6371e3). *)
Class Geometry := {
  geoDistance : Point -> Point -> number;
  calculateDistance : number -> number -> number -> number -> number
}.

#[global] Instance Qle_decision (x y : Q) : Decision (x <= y)%Q.
Proof.
  destruct (Qlt_le_dec y x) as [Hlt | Hle].
  - right. apply Qlt_not_le. exact Hlt.
  - left. exact Hle.
Defined.

(** ** Schema validation and first save *)

Definition type_enum : list string :=
  ["accident"; "breakdown"; "medical"; "battery"; "theft"; "other"].
Definition severity_enum : list string :=
  ["low"; "medium"; "high"; "critical"].

(** The argument of [new EmergencyAlert({...})]; a field may be undefined. *)
Record NewAlert := mkNewAlert {
  n_user : UserId;
  n_type : option string;
  n_severity : option string;
  n_longitude : option number;
  n_latitude : option number;
  n_address : option string;
  n_description : option string;
  n_nearbyHospitals : list Hospital
}.

(** Validation before the first save: [type] required and in its enum,
    [severity] in its enum with default 'medium', both coordinates present,
    [description] at most 500 characters.  The other defaults are those of the
    schema; [createdAt] comes from [timestamps: true]. *)
Definition validate (now : Time) (n : NewAlert) : option EmergencyAlert :=
  ty ← n_type n;
  lon ← n_longitude n;
  lat ← n_latitude n;
  let sev := default "medium" (n_severity n) in
  if bool_decide (ty ∈ type_enum)
     && bool_decide (sev ∈ severity_enum)
     && bool_decide (js_length (default "" (n_description n)) ≤ 500)%nat
  then Some (mkAlert (n_user n) ty sev (mkPoint lon lat (n_address n))
                     (n_description n) active [] (n_nearbyHospitals n)
                     false None None now)
  else None.

(** [await doc.save()] on a new document. *)
Definition save_new (now : Time) (n : NewAlert) : M Document := λ w,
  match validate now n with
  | Some a => (Returned (mkDocument (length (alerts w)) a [] []),
               with_alerts (alerts w ++ [a]) w)
  | None => (Thrown "ValidationError", w)
  end.

(** [await doc.save()] on a loaded document. *)
Definition save_doc (d : Document) : M Document := λ w,
  let '(coll, d') := save (alerts w) d in (Returned d', with_alerts coll w).

(** ** The EmergencyAlert model: scheduleAutoResolve *)

(** The callback of [scheduleAutoResolve], run on the document it closed
    over. *)
Definition autoResolve (now : Time) (this : Document) : M unit :=
  if decide (status (fields this) = active) then
    let this := set_status resolved this in
    let this := set_autoResolved true this in
    let this := set_resolvedAt now this in
    save_doc this ;; mret tt
  else mret tt.

(** [setTimeout(callback, 30 * 60 * 1000)] *)
Definition scheduleAutoResolve (now : Time) (this : Document) : M unit :=
  modify (λ w, with_timers (timers w ++ [mkTimer (now + 30 * 60 * 1000)%Z this]) w).

(** The [k]-th pending timer fires, if it is due. *)
Definition timer_fired (now : Time) (k : nat) : M unit := λ w,
  match timers w !! k with
  | Some t =>
      if decide (due t ≤ now)%Z
      then autoResolve now (this t) (with_timers (delete k (timers w)) w)
      else (Returned tt, w)
  | None => (Returned tt, w)
  end.

(** ** /api/emergency: notifyContacts

    [userDoc.emergencyContact] is not a path of the User schema and is never
    there; the contacts are the phones of [emergencyContacts]. *)

Definition serviceMap (env : Env) (ty : string) : option string :=
  if String.eqb ty "accident" then or_string (ACCIDENT_SERVICE_NUMBER env) (Some "1033")
  else if String.eqb ty "breakdown" then
    or_string (or_string (BREAKDOWN_SERVICE_NUMBER env) (TOWING_NUMBER env)) (Some "")
  else if String.eqb ty "medical" then or_string (MEDICAL_SERVICE_NUMBER env) (Some "108")
  else if String.eqb ty "fire" then or_string (FIRE_SERVICE_NUMBER env) (Some "101")
  else None.

(** A call to the gateway: resolves or rejects as the environment says. *)
Definition gateway (ok : bool) (done : LogEntry) : M unit :=
  if ok then log done else throw "TwilioError".

Definition notifyContacts (env : Env) (alert : Document) : M unit :=
  try_catch
    (userDoc ← (if userLookup env
                then gets (λ w, users w !! user (fields alert))
                else throw "MongoError");
     let contacts :=
       match userDoc with
       | Some u => omap c_phone
                     (filter (λ c, truthy_string (c_phone c) = true) (emergencyContacts u))
       | None => []
       end in
     let serviceNumber := or_string (serviceMap env (type (fields alert))) (Some "") in
     returned ←
       (if truthy_string (TWILIO_ACCOUNT_SID env)
           && truthy_string (TWILIO_AUTH_TOKEN env)
           && truthy_string (TWILIO_FROM env)
        then
          let twilioFrom := default "" (TWILIO_FROM env) in
          try_catch
            ((if twilioImport env then mret tt else throw "ERR_MODULE_NOT_FOUND") ;;
             for_each contacts (λ receiver,
               try_catch
                 (gateway (messagesCreate env twilioFrom receiver)
                          (sms_sent twilioFrom receiver))
                 (λ _, log (console_error "Twilio SMS error for")) ;;
               if truthy_string (TWILIO_WHATSAPP_FROM env)
               then
                 let whatsappFrom := default "" (TWILIO_WHATSAPP_FROM env) in
                 try_catch
                   (gateway (messagesCreate env whatsappFrom ("whatsapp:" ++ receiver))
                            (sms_sent whatsappFrom ("whatsapp:" ++ receiver)))
                   (λ _, mret tt)
               else mret tt) ;;
             (if truthy_string serviceNumber
              then
                let receiver := default "" serviceNumber in
                try_catch
                  (gateway (callsCreate env receiver) (call_placed receiver))
                  (λ _, log (console_error "Twilio call error to service number"))
              else mret tt) ;;
             mret true)
            (λ _, log (console_warn
                         "Twilio module not available or failed to init, falling back to simulation") ;;
                  mret false)
        else mret false);
     if (returned : bool) then mret tt
     else
       log (console_log "Simulated notification to contacts:") ;;
       if truthy_string serviceNumber
       then log (console_log "Simulated call to service number:")
       else mret tt)
    (λ _, log (console_error "notifyContacts error:")).

(** An [async] call that is not awaited: the caller goes on whatever the
    outcome. *)
Definition detached {A} (m : M A) : M unit := λ w,
  let '(_, w') := m w in (Returned tt, w').

(** [findNearbyHospitals]: the Overpass request answers or fails; a failure
    is caught inside and gives the empty list. *)
Definition findNearbyHospitals (env : Env) : M (list Hospital) :=
  match overpass env with
  | Some hs => mret hs
  | None => log (console_error "Error finding hospitals:") ;; mret []
  end.

(** ** /api/emergency: the three routes of the life cycle *)

Definition or_number (a : option Z) (b : Z) : option Z :=
  match a with
  | Some n => if decide (n = 0)%Z then Some b else Some n
  | None => Some b
  end.

(** [EmergencyAlert.findOne({user, status: 'active', createdAt: {$gte: since}})] *)
Definition findRecentActive (uid : UserId) (since : Time) (coll : list EmergencyAlert)
  : option (nat * EmergencyAlert) :=
  list_find (λ a, user a = uid ∧ status a = active ∧ (since ≤ createdAt a)%Z) coll.

(** [new EmergencyAlert({user: req.user.id, type, severity: severity || 'medium',
    location: {type: 'Point', coordinates: [longitude, latitude], address},
    description})], then [alert.nearbyHospitals = nearbyHospitals]. *)
Definition alert_request (req_user : UserId) (body : AlertInput) (l : LocationInput)
    (nearby : list Hospital) : NewAlert :=
  mkNewAlert req_user (in_type body) (or_string (in_severity body) (Some "medium"))
             (in_longitude l) (in_latitude l) (in_address l)
             (in_description body) nearby.

(** POST /api/emergency/alert *)
Definition post_alert (env : Env) (now : Time) (req_user : UserId) (body : AlertInput)
  : M HttpResponse :=
  try_catch
    (let located :=
       match in_location body with
       | Some l => truthy_number (in_latitude l) && truthy_number (in_longitude l)
       | None => false
       end in
     if negb (truthy_string (in_type body)) || negb located
     then mret (json 400 false "Alert type and location are required")
     else
       recentAlert ← gets (λ w, findRecentActive req_user (now - 5 * 60 * 1000)%Z (alerts w));
       if recentAlert is Some _
       then mret (json 400 false "You already have an active emergency alert")
       else
         let l := default (mkLocationInput None None None) (in_location body) in
         nearby ←
           (if bool_decide (in_type body = Some "medical")
               || bool_decide (in_type body = Some "accident")
            then findNearbyHospitals env else mret []);
         alert ← save_new now (alert_request req_user body l nearby);
         scheduleAutoResolve now alert ;;
         detached (try_catch (notifyContacts env alert)
                             (λ _, log (console_error "Failed to notify contacts:"))) ;;
         mret (mkHttpResponse 201 true "Emergency alert created successfully"
                              (Some (_id alert)) None None None))
    (λ _, log (console_error "Emergency alert error:") ;;
          mret (json 500 false "Failed to create emergency alert")).

(** [User.findByIdAndUpdate(id, {$inc: {'stats.helpCount': 1, 'stats.rewardPoints': 50}})] *)
Definition inc_stats (u : User) : User :=
  mkUser (name u) (emergencyContacts u) (currentLocation u)
         (helpCount u + 1) (rewardPoints u + 50) (isOnline u) (lastSeen u).

(** The user is one of the responders of the alert. *)
Definition responded_by (uid : UserId) (a : EmergencyAlert) : bool :=
  bool_decide (uid ∈ r_user <$> responders a).

(** [alert.responders.find(r => r.user.toString() === req.user.id)]: a
    string against the ObjectId of the requester. *)
Definition existingResponse (req_user : UserId) (a : EmergencyAlert)
  : option (nat * Responder) :=
  list_find (λ r, strict_equal (str (r_user r)) (oid req_user) = true) (responders a).

(** POST /api/emergency/respond/:alertId, down to [await alert.save()]: the
    answer, or the document that is about to be saved. *)
Definition post_respond_load (now : Time) (req_user : UserId) (alertId : AlertId)
    (body : ResponseInput) : M (HttpResponse + Document) :=
  try_catch
    (found ← gets (λ w, findById (alerts w) alertId);
     match found with
     | None => mret (inl (json 404 false "Emergency alert not found"))
     | Some alert =>
       (* .populate('user', 'name phone') *)
       reporter ← gets (λ w, users w !! user (fields alert));
       if decide (status (fields alert) ≠ active)
       then mret (inl (json 400 false "Emergency alert is no longer active"))
       else if reporter is None then throw "TypeError"
       else if strict_equal (str (user (fields alert))) (oid req_user)
       then mret (inl (json 400 false "Cannot respond to your own emergency alert"))
       else if existingResponse req_user (fields alert) is Some _
       then mret (inl (json 400 false "You have already responded to this alert"))
       else
         let alert :=
           push_responder
             (mkResponder req_user now
                          (or_string (in_message body) (Some "On my way to help"))
                          (or_number (in_estimatedArrival body) 10)) alert in
         let alert :=
           if decide (status (fields alert) = active)
           then set_status responded alert else alert in
         mret (inr alert)
     end)
    (λ _, log (console_error "Emergency response error:") ;;
          mret (inl (json 500 false "Failed to send response"))).

(** The same handler from [await alert.save()] on. *)
Definition post_respond_save (req_user : UserId) (alert : Document) : M HttpResponse :=
  try_catch
    (alert ← save_doc alert;
     modify (λ w, with_rewards
       (rewards w ++
        [mkReward req_user "emergency_response" 50
                  ("Responded to " ++ type (fields alert) ++ " emergency")
                  (_id alert) "EmergencyAlert"]) w) ;;
     modify (λ w, with_users (alter inc_stats req_user (users w)) w) ;;
     mret (mkHttpResponse 200 true "Response sent successfully"
             (Some (_id alert)) (Some 50%Z) (Some (status (fields alert)))
             (Some (length (responders (fields alert))))))
    (λ _, log (console_error "Emergency response error:") ;;
          mret (json 500 false "Failed to send response")).

(** POST /api/emergency/respond/:alertId, not interrupted. *)
Definition post_respond (now : Time) (req_user : UserId) (alertId : AlertId)
    (body : ResponseInput) : M HttpResponse :=
  loaded ← post_respond_load now req_user alertId body;
  match loaded with
  | inl answer => mret answer
  | inr alert => post_respond_save req_user alert
  end.

(** PUT /api/emergency/resolve/:alertId: [canResolve] compares strings with
    the ObjectId of the requester. *)
Definition put_resolve (now : Time) (req_user : UserId) (alertId : AlertId)
  : M HttpResponse :=
  try_catch
    (found ← gets (λ w, findById (alerts w) alertId);
     match found with
     | None => mret (json 404 false "Emergency alert not found")
     | Some alert =>
       let canResolve :=
         strict_equal (str (user (fields alert))) (oid req_user)
         || existsb (λ r, strict_equal (str (r_user r)) (oid req_user))
                    (responders (fields alert)) in
       if negb canResolve
       then mret (json 403 false "Not authorized to resolve this alert")
       else if decide (status (fields alert) = resolved)
       then mret (json 400 false "Alert is already resolved")
       else
         let alert := set_status resolved alert in
         let alert := set_resolvedAt now alert in
         let alert := set_resolvedBy req_user alert in
         alert ← save_doc alert;
         mret (mkHttpResponse 200 true "Emergency alert resolved successfully"
                 (Some (_id alert)) None (Some (status (fields alert))) None)
     end)
    (λ _, log (console_error "Emergency resolve error:") ;;
          mret (json 500 false "Failed to resolve emergency alert")).

Section Engine.
Context {G : Geometry}.

(** ** The User model: findNearby

    [$near] with [$maxDistance] keeps the documents whose location is at most
    [maxDistance] metres from the point and returns them from nearest to
    farthest; [isOnline: true] is added unless [includeOffline]. *)

Definition distance_from (center : Point) (u : UserId * User) : number :=
  geoDistance center (currentLocation u.2).

Definition nearer (center : Point) : relation (UserId * User) :=
  λ u v, (distance_from center u <= distance_from center v)%Q.

Definition findNearby (lon lat : number) (maxDistance : number) (includeOffline : bool)
    (coll : gmap UserId User) : list (UserId * User) :=
  let center := mkPoint lon lat None in
  merge_sort (nearer center)
    (filter (λ u, (distance_from center u <= maxDistance)%Q
                  ∧ (includeOffline = true ∨ isOnline u.2 = true))
            (map_to_list coll)).

(** ** routes/auth.js: GET /api/auth/nearby-users

    The query string after [parseFloat] and [parseInt]; [None] is an absent
    parameter. *)
Record NearbyQuery := mkNearbyQuery {
  q_longitude : option number;
  q_latitude : option number;
  q_radius : option Z;
  q_includeOffline : bool
}.

Record NearbyResponse := mkNearbyResponse {
  nr_code : Z;
  nr_users : list (UserId * User);
  nr_count : nat
}.

Definition nearby_users (req_user : UserId) (q : NearbyQuery) : M NearbyResponse :=
  match q_longitude q, q_latitude q with
  | Some lon, Some lat =>
      let radius := default 10000%Z (q_radius q) in
      nearbyUsers ← gets (λ w,
        findNearby lon lat (inject_Z radius) (q_includeOffline q) (users w));
      let filteredUsers :=
        filter (λ u : UserId * User, strict_equal (str u.1) (oid req_user) = false)
               nearbyUsers in
      mret (mkNearbyResponse 200 filteredUsers (length filteredUsers))
  | _, _ => mret (mkNearbyResponse 400 [] 0)
  end.

(** ** services/socketService.js *)

Definition set_online (b : bool) (now : Time) (u : User) : User :=
  mkUser (name u) (emergencyContacts u) (currentLocation u)
         (helpCount u) (rewardPoints u) b now.

Definition set_location (p : Point) (u : User) : User :=
  mkUser (name u) (emergencyContacts u) p
         (helpCount u) (rewardPoints u) (isOnline u) (lastSeen u).

(** [io.on('connection', socket => ...)]: the framework gives the socket a
    new id. *)
Definition on_connection (now : Time) (uid : UserId) : M Socket :=
  sid ← gets nextSocketId;
  modify (with_nextSocketId (S sid)) ;;
  modify (λ w, with_users (alter (set_online true now) uid (users w)) w) ;;
  modify (λ w, with_connectedUsers
                 (<[uid := mkConnection sid now]> (connectedUsers w)) w) ;;
  mret (mkSocket sid uid).

(** [socket.on('disconnect', ...)] *)
Definition on_disconnect (now : Time) (socket : Socket) : M unit :=
  modify (λ w, with_users (alter (set_online false now) (userId socket) (users w)) w) ;;
  modify (λ w, with_connectedUsers (delete (userId socket) (connectedUsers w)) w).

(** [socket.on('location-update', ...)].  [timestamp] is what
    [new Date(timestamp)] makes of the field of the payload: [None] is an
    invalid date (no timestamp, or one that does not parse), which the update
    cannot cast, so that [findByIdAndUpdate] rejects and nothing is stored. *)
Definition on_location_update (socket : Socket) (l : option LocationInput)
    (timestamp : option Time) : M unit :=
  try_catch
    (match l with
     | Some (mkLocationInput (Some lat) (Some lon) addr) =>
         if truthy_number (Some lat) && truthy_number (Some lon)
         then
           if timestamp is Some _
           then modify (λ w, with_users
                  (alter (set_location (mkPoint lon lat addr)) (userId socket)
                         (users w)) w)
           else throw "CastError"
         else emit (error_event (sock_id socket) "Invalid location data")
     | _ => emit (error_event (sock_id socket) "Invalid location data")
     end)
    (λ _, log (console_error "Location update error:") ;;
          emit (error_event (sock_id socket) "Failed to update location")).

(** The loop of 'emergency-alert' over [nearbyUsers]: one push to each user
    that has an entry in [connectedUsers] and is not the sender. *)
Definition notify_nearby (socket : Socket) (emergency : Document) (alertData : AlertInput)
    (location : LocationInput) (lon lat : number)
    (nearbyUsers : list (UserId * User)) : M unit :=
  for_each nearbyUsers (λ u,
    userConnection ← gets (λ w, connectedUsers w !! u.1);
    match userConnection with
    | Some c =>
        if decide (u.1 ≠ userId socket)
        then emit (emergency_alert (socketId c) (_id emergency)
                     (in_type alertData) (in_severity alertData) location
                     (in_description alertData) (userId socket)
                     (calculateDistance lat lon
                        (latitude (currentLocation u.2))
                        (longitude (currentLocation u.2))))
        else mret tt
    | None => mret tt
    end).

(** [socket.on('emergency-alert', ...)] *)
Definition on_emergency_alert (now : Time) (socket : Socket) (alertData : AlertInput)
  : M unit :=
  try_catch
    (match in_location alertData with
     | None => throw "TypeError"
     | Some location =>
       emergency ← save_new now
         (mkNewAlert (userId socket) (in_type alertData) (in_severity alertData)
                     (in_longitude location) (in_latitude location)
                     (in_address location) (in_description alertData) []);
       match in_longitude location, in_latitude location with
       | Some lon, Some lat =>
           nearbyUsers ← gets (λ w, findNearby lon lat 10000%Q false (users w));
           notify_nearby socket emergency alertData location lon lat nearbyUsers ;;
           scheduleAutoResolve now emergency ;;
           emit (emergency_alert_sent (sock_id socket) (_id emergency)
                                      (length nearbyUsers))
       | _, _ => throw "MongoServerError"
       end
     end)
    (λ _, log (console_error "Emergency alert error:") ;;
          emit (error_event (sock_id socket) "Failed to send emergency alert")).

(** [socket.on('emergency-response', ...)], down to [await alert.save()]:
    the document that is about to be saved, if the handler gets there. *)
Definition on_emergency_response_load (now : Time) (socket : Socket) (alertId : AlertId)
    (data : ResponseInput) : M (option Document) :=
  try_catch
    (found ← gets (λ w, findById (alerts w) alertId);
     match found with
     | None =>
         emit (error_event (sock_id socket) "Emergency alert not found or not active") ;;
         mret None
     | Some alert =>
       if decide (status (fields alert) ≠ active)
       then emit (error_event (sock_id socket)
                              "Emergency alert not found or not active") ;;
            mret None
       else
         let alert :=
           push_responder
             (mkResponder (userId socket) now (in_message data)
                          (in_estimatedArrival data)) alert in
         let alert :=
           if decide (status (fields alert) = active)
           then set_status responded alert else alert in
         mret (Some alert)
     end)
    (λ _, log (console_error "Emergency response error:") ;;
          emit (error_event (sock_id socket) "Failed to send emergency response") ;;
          mret None).

(** The same handler from [await alert.save()] on. *)
Definition on_emergency_response_save (socket : Socket) (alertId : AlertId)
    (data : ResponseInput) (alert : Document) : M unit :=
  try_catch
    (alert ← save_doc alert;
     alertCreatorConnection ← gets (λ w, connectedUsers w !! user (fields alert));
     (if alertCreatorConnection is Some c
      then emit (emergency_response (socketId c) alertId (userId socket)
                   (in_message data) (in_estimatedArrival data))
      else mret tt) ;;
     modify (λ w, with_rewards
       (rewards w ++
        [mkReward (userId socket) "emergency_response" 50
                  "Responded to emergency alert" alertId "EmergencyAlert"]) w) ;;
     modify (λ w, with_users (alter inc_stats (userId socket) (users w)) w) ;;
     emit (emergency_response_sent (sock_id socket) alertId 50))
    (λ _, log (console_error "Emergency response error:") ;;
          emit (error_event (sock_id socket) "Failed to send emergency response")).

(** [socket.on('emergency-response', ...)], not interrupted. *)
Definition on_emergency_response (now : Time) (socket : Socket) (alertId : AlertId)
    (data : ResponseInput) : M unit :=
  loaded ← on_emergency_response_load now socket alertId data;
  match loaded with
  | None => mret tt
  | Some alert => on_emergency_response_save socket alertId data alert
  end.

(** ** The server as a transition system *)

Inductive Event :=
| Connect (now : Time) (uid : UserId)
| Disconnect (now : Time) (socket : Socket)
| LocationUpdate (socket : Socket) (l : option LocationInput) (timestamp : option Time)
| PostAlert (env : Env) (now : Time) (req_user : UserId) (body : AlertInput)
| SocketAlert (now : Time) (socket : Socket) (alertData : AlertInput)
| PostRespond (now : Time) (req_user : UserId) (alertId : AlertId) (body : ResponseInput)
| SocketRespond (now : Time) (socket : Socket) (alertId : AlertId) (data : ResponseInput)
| PutResolve (now : Time) (req_user : UserId) (alertId : AlertId)
| TimerFired (now : Time) (k : nat).

Definition step (w : World) (ev : Event) : World :=
  match ev with
  | Connect now uid => (on_connection now uid w).2
  | Disconnect now socket => (on_disconnect now socket w).2
  | LocationUpdate socket l timestamp => (on_location_update socket l timestamp w).2
  | PostAlert env now uid body => (post_alert env now uid body w).2
  | SocketAlert now socket data => (on_emergency_alert now socket data w).2
  | PostRespond now uid id body => (post_respond now uid id body w).2
  | SocketRespond now socket id data => (on_emergency_response now socket id data w).2
  | PutResolve now uid id => (put_resolve now uid id w).2
  | TimerFired now k => (timer_fired now k w).2
  end.

Definition run (w : World) (evs : list Event) : World := foldl step w evs.

(** The worlds the server can be in when no two handlers overlap. *)
Definition reachable (w : World) : Prop :=
  ∃ us evs, w = run (init us) evs.

(** ** Handlers that overlap

    A handler gives way at its awaits.  The cut that is modelled is the one
    between the load of an alert and its save in the two handlers of a
    response: a request that got to [await alert.save()] waits with the
    document it holds, and goes on when the event loop comes back to it.
    Whatever a handler does after that save is run in one go. *)
Inductive Pending :=
| post_respond_pending (req_user : UserId) (alert : Document)
| socket_respond_pending (socket : Socket) (alertId : AlertId) (data : ResponseInput)
                         (alert : Document).

(** The document a waiting request is about to save. *)
Definition held (p : Pending) : Document :=
  match p with
  | post_respond_pending _ alert => alert
  | socket_respond_pending _ _ _ alert => alert
  end.

(** The rest of the handler of a waiting request. *)
Definition resume (p : Pending) : M unit :=
  match p with
  | post_respond_pending req_user alert =>
      post_respond_save req_user alert ;; mret tt
  | socket_respond_pending socket alertId data alert =>
      on_emergency_response_save socket alertId data alert
  end.

(** What the event loop runs in one go: a handler that nothing interrupts,
    a handler of a response down to its await, the rest of the handler of
    the request that waits at position [k]. *)
Inductive Segment :=
| Whole (ev : Event)
| PostRespondBegin (now : Time) (req_user : UserId) (alertId : AlertId)
                   (body : ResponseInput)
| SocketRespondBegin (now : Time) (socket : Socket) (alertId : AlertId)
                     (data : ResponseInput)
| Resume (k : nat).

(** The server and the requests that wait. *)
Definition Config : Type := World * list Pending.

Definition istep (c : Config) (s : Segment) : Config :=
  match s with
  | Whole ev => (step c.1 ev, c.2)
  | PostRespondBegin now req_user alertId body =>
      match post_respond_load now req_user alertId body c.1 with
      | (Returned (inr alert), w') =>
          (w', (c.2 ++ [post_respond_pending req_user alert])%list)
      | (_, w') => (w', c.2)
      end
  | SocketRespondBegin now socket alertId data =>
      match on_emergency_response_load now socket alertId data c.1 with
      | (Returned (Some alert), w') =>
          (w', (c.2 ++ [socket_respond_pending socket alertId data alert])%list)
      | (_, w') => (w', c.2)
      end
  | Resume k =>
      match c.2 !! k with
      | Some p => ((resume p c.1).2, delete k c.2)
      | None => c
      end
  end.

Definition irun (c : Config) (ss : list Segment) : Config := foldl istep c ss.

(** The states the server can be in. *)
Definition ireachable (c : Config) : Prop :=
  ∃ us ss, c = irun (init us, []) ss.

End Engine.

(** ** A concrete deployment, for the scenarios

    A flat geometry (111 km to the degree, taxicab), four riders around
    (12.97, 77.59): the reporter R, A at about 1.1 km, B at about 3.3 km and F
    at about 25 km. *)

Definition flat : Geometry := {|
  geoDistance := λ p q,
    Qred (111000 * (Qabs (latitude p - latitude q) + Qabs (longitude p - longitude q)));
  calculateDistance := λ lat1 lon1 lat2 lon2,
    Qred (111000 * (Qabs (lat1 - lat2) + Qabs (lon1 - lon2)))
|}.

Definition rider (nm : string) (lon lat : number) (online : bool) : User :=
  mkUser nm [mkContact "kin" (Some "+100")] (mkPoint lon lat None) 0 0 online 0.

Definition riders : gmap UserId User :=
  <["R" := rider "Reporter" 77.59 12.97 true]>
  (<["A" := rider "Asha" 77.60 12.97 true]>
  (<["B" := rider "Bala" 77.59 13.00 true]>
  (<["F" := rider "Far" 77.59 13.20 true]> ∅))).

Definition here : LocationInput :=
  mkLocationInput (Some 12.97%Q) (Some 77.59%Q) None.

Definition medical : AlertInput :=
  mkAlertInput (Some "medical") (Some "high") (Some here) None.

Definition on_my_way : ResponseInput := mkResponseInput None None.

(** No gateway configured, Overpass unreachable. *)
Definition quiet : Env :=
  mkEnv None true None None None None None None None None None false
        (λ _ _, false) (λ _, false).

(** A gateway that is configured and rejects every call. *)
Definition failing : Env :=
  mkEnv None true (Some "AC1") (Some "tok") (Some "+1500") (Some "whatsapp:+1500")
        None None None None None true (λ _ _, false) (λ _, false).

Definition minute : Time := 60000.

(** ** What a handler leaves behind

    The updates that reach the stored record, and the shapes a step of the
    server can take.  They are what the invariants below are proved over. *)

Local Open Scope list_scope.

(** The stored record after a response: [$push] of the responder and [$set]
    of the status. *)
Definition respond_update (r : Responder) (a : EmergencyAlert) : EmergencyAlert :=
  with_responders (responders a ++ [r]) (with_status responded a).

(** The document of a response: the loaded copy with the responder pushed
    and the status assigned. *)
Definition response_of (id : AlertId) (a : EmergencyAlert) (r : Responder) : Document :=
  set_status responded (push_responder r (mkDocument id a [] [])).

(** What the rest of the socket handler emits. *)
Definition response_emits (w : World) (socket : Socket) (id : AlertId)
    (data : ResponseInput) (reporter : UserId) : list Emit :=
  (if connectedUsers w !! reporter is Some c
   then [emergency_response (socketId c) id (userId socket) (in_message data)
                            (in_estimatedArrival data)]
   else [])
  ++ [emergency_response_sent (sock_id socket) id 50].

(** The stored record after the timer callback wrote its three paths. *)
Definition auto_update (now : Time) (a : EmergencyAlert) : EmergencyAlert :=
  with_resolvedAt (Some now) (with_autoResolved true (with_status resolved a)).

(** What the timer callback saves. *)
Definition auto_document (now : Time) (this : Document) : Document :=
  set_resolvedAt now (set_autoResolved true (set_status resolved this)).

(** A document as [save_new] returns it and nobody touched since. *)
Definition pristine (d : Document) : Prop :=
  pushed d = [] ∧ modified d = [] ∧ status (fields d) = active
  ∧ autoResolved (fields d) = false ∧ resolvedAt (fields d) = None.

(** A record as it is first stored. *)
Definition newly_stored (a : EmergencyAlert) : Prop :=
  status a = active ∧ responders a = [] ∧ autoResolved a = false
  ∧ resolvedAt a = None ∧ resolvedBy a = None.

(** The emergency_response rewards that relate to one alert. *)
Definition is_grant (id : AlertId) (r : Reward) : Prop :=
  activityType r = "emergency_response" ∧ relatedActivity r = id.

#[global] Instance is_grant_dec id r : Decision (is_grant id r).
Proof. unfold is_grant. apply _. Defined.

Definition grants (id : AlertId) (rs : list Reward) : list Reward :=
  filter (is_grant id) rs.

(** The 'emergency-alert' pushes of one alert to one socket. *)
Definition is_push (sid : SocketId) (id : AlertId) (e : Emit) : Prop :=
  match e with
  | emergency_alert receiver alertId _ _ _ _ _ _ => receiver = sid ∧ alertId = id
  | _ => False
  end.

#[global] Instance is_push_dec sid id e : Decision (is_push sid id e).
Proof. destruct e; simpl; apply _. Defined.

Definition pushes (sid : SocketId) (id : AlertId) (es : list Emit) : list Emit :=
  filter (is_push sid id) es.

Definition no_push (e : Emit) : Prop :=
  match e with
  | emergency_alert _ _ _ _ _ _ _ _ => False
  | _ => True
  end.

Section Summary.
Context {G : Geometry}.

(** What one turn of the 'emergency-alert' loop emits. *)
Definition push_for (cu : gmap UserId Connection) (socket : Socket) (id : AlertId)
    (alertData : AlertInput) (location : LocationInput) (lon lat : number)
    (u : UserId * User) : option Emit :=
  c ← cu !! u.1;
  if decide (u.1 ≠ userId socket)
  then Some (emergency_alert (socketId c) id (in_type alertData)
               (in_severity alertData) location (in_description alertData)
               (userId socket)
               (calculateDistance lat lon (latitude (currentLocation u.2))
                                  (longitude (currentLocation u.2))))
  else None.

(** Everything a successful 'emergency-alert' emits. *)
Definition fanout (w : World) (socket : Socket) (alertData : AlertInput)
    (location : LocationInput) (lon lat : number) : list Emit :=
  let nearbyUsers := findNearby lon lat 10000%Q false (users w) in
  omap (push_for (connectedUsers w) socket (length (alerts w)) alertData
                 location lon lat) nearbyUsers
  ++ [emergency_alert_sent (sock_id socket) (length (alerts w)) (length nearbyUsers)].

(** The shapes of a step: what it does to the alerts, the rewards, the
    timers, the connections and the outbox. *)
Inductive effect (w w' : World) : Prop :=
| e_idle es :
    alerts w' = alerts w -> rewards w' = rewards w -> timers w' = timers w ->
    connectedUsers w' = connectedUsers w -> nextSocketId w' = nextSocketId w ->
    outbox w' = outbox w ++ es -> Forall no_push es ->
    effect w w'
| e_connect now uid :
    alerts w' = alerts w -> rewards w' = rewards w -> timers w' = timers w ->
    connectedUsers w' = <[uid := mkConnection (nextSocketId w) now]> (connectedUsers w) ->
    nextSocketId w' = S (nextSocketId w) ->
    outbox w' = outbox w ->
    effect w w'
| e_disconnect uid :
    alerts w' = alerts w -> rewards w' = rewards w -> timers w' = timers w ->
    connectedUsers w' = delete uid (connectedUsers w) ->
    nextSocketId w' = nextSocketId w ->
    outbox w' = outbox w ->
    effect w w'
| e_create a now es :
    newly_stored a ->
    alerts w' = alerts w ++ [a] -> rewards w' = rewards w ->
    timers w' = timers w ++ [mkTimer (now + 30 * 60 * 1000) (mkDocument (length (alerts w)) a [] [])] ->
    connectedUsers w' = connectedUsers w -> nextSocketId w' = nextSocketId w ->
    outbox w' = outbox w ++ es ->
    (es = [] ∨ ∃ socket alertData location lon lat,
                 es = fanout w socket alertData location lon lat) ->
    effect w w'
| e_respond id a r descr es :
    alerts w !! id = Some a -> status a = active ->
    alerts w' = <[id := respond_update r a]> (alerts w) ->
    rewards w' = rewards w ++ [mkReward (r_user r) "emergency_response" 50 descr id
                                        "EmergencyAlert"] ->
    timers w' = timers w ->
    connectedUsers w' = connectedUsers w -> nextSocketId w' = nextSocketId w ->
    outbox w' = outbox w ++ es -> Forall no_push es ->
    effect w w'
| e_timer k t now :
    timers w !! k = Some t ->
    alerts w' = (if decide (status (fields (this t)) = active)
                 then (save (alerts w) (auto_document now (this t))).1
                 else alerts w) ->
    rewards w' = rewards w -> timers w' = delete k (timers w) ->
    connectedUsers w' = connectedUsers w -> nextSocketId w' = nextSocketId w ->
    outbox w' = outbox w ->
    effect w w'.

(** ** Invariants of the reachable worlds *)

(** Every stored alert has no responder while it is active and at most one
    afterwards, and has exactly as many emergency_response rewards as
    responders. *)
Definition lifecycle_inv (w : World) : Prop :=
  (∀ id a, alerts w !! id = Some a ->
     (status a = active -> responders a = [])
     ∧ (length (responders a) ≤ 1)%nat
     ∧ length (grants id (rewards w)) = length (responders a))
  ∧ (∀ id, alerts w !! id = None -> grants id (rewards w) = [])
  ∧ (∀ k t, timers w !! k = Some t -> pristine (this t)).

(** Socket ids are given once, and no push is about an alert to come, nor
    sent twice. *)
Definition dispatch_inv (w : World) : Prop :=
  (∀ uid c, connectedUsers w !! uid = Some c -> (socketId c < nextSocketId w)%nat)
  ∧ (∀ u1 u2 c1 c2, connectedUsers w !! u1 = Some c1 ->
       connectedUsers w !! u2 = Some c2 -> socketId c1 = socketId c2 -> u1 = u2)
  ∧ (∀ sid id, (length (alerts w) ≤ id)%nat -> pushes sid id (outbox w) = [])
  ∧ (∀ sid id, (length (pushes sid id (outbox w)) ≤ 1)%nat).

End Summary.

(** ** Handlers that leave the database alone

    [mayfail m]: [m] returns or throws and writes to the console only;
    [safe m]: it returns, and writes to the console only. *)

Definition mayfail {A} (m : M A) : Prop :=
  ∀ w, ∃ r l, m w = (r, with_console (console w ++ l) w).

Definition safe {A} (m : M A) : Prop :=
  ∀ w, ∃ a l, m w = (Returned a, with_console (console w ++ l) w).


(** ** The scenarios *)

Definition alert_created : World :=
  run (G:=flat) (init riders) [PostAlert quiet 0 "R" medical].
Definition first_response : World :=
  run (G:=flat) alert_created [PostRespond minute "A" 0 on_my_way].

Definition all_connected : World :=
  run (G:=flat) (init riders) [Connect 0 "R"; Connect 0 "A"; Connect 0 "B"; Connect 0 "F"].
Definition reported : World :=
  run (G:=flat) all_connected [PostAlert quiet 0 "R" medical].
Definition the_alert (s : Status) (rs : list Responder) (auto : bool)
    (at_ : option Time) (by_ : option UserId) : EmergencyAlert :=
  mkAlert "R" "medical" "high" (mkPoint 77.59 12.97 None) None s rs [] auto at_ by_ 0.


(** * The rest of the backend

    The other routes and handlers of the files above, and what the
    properties of the second part are stated with. *)

(** ** What a step does to the users and the ledger

    Three shapes: the ledger is as it was and at most one user record changed
    outside its statistics; an alert was stored, as [validate] made it; a
    response was rewarded. *)

Definition keeps_stats (f : User -> User) : Prop :=
  ∀ u, helpCount (f u) = helpCount u ∧ rewardPoints (f u) = rewardPoints u
       ∧ name (f u) = name u ∧ emergencyContacts (f u) = emergencyContacts u.

Inductive detail (w w' : World) : Prop :=
| d_quiet f uid :
    keeps_stats f ->
    users w' = alter f uid (users w) -> rewards w' = rewards w ->
    length (alerts w') = length (alerts w) ->
    (timers w' = timers w ∨ ∃ k, timers w' = delete k (timers w)) ->
    detail w w'
| d_created now n a :
    validate now n = Some a ->
    alerts w' = alerts w ++ [a] ->
    timers w' = timers w ++ [mkTimer (now + 30 * 60 * 1000)
                                     (mkDocument (length (alerts w)) a [] [])] ->
    users w' = users w -> rewards w' = rewards w ->
    detail w w'
| d_granted uid id descr :
    (descr = "Responded to emergency alert"
     ∨ ∃ a, alerts w !! id = Some a
            ∧ descr = "Responded to " +:+ type a +:+ " emergency") ->
    users w' = alter inc_stats uid (users w) ->
    rewards w' = rewards w ++ [mkReward uid "emergency_response" 50 descr id
                                        "EmergencyAlert"] ->
    length (alerts w') = length (alerts w) ->
    timers w' = timers w ->
    detail w w'.

(** The paths no handler assigns. *)
Definition same_report (a a' : EmergencyAlert) : Prop :=
  user a' = user a ∧ type a' = type a ∧ severity a' = severity a
  ∧ location a' = location a ∧ description a' = description a
  ∧ nearbyHospitals a' = nearbyHospitals a ∧ createdAt a' = createdAt a.

(** A stored record and what it has become: the same report, and the
    responders it had first. *)
Definition grows_from (a a' : EmergencyAlert) : Prop :=
  same_report a a' ∧ responders a `prefix_of` responders a'.

(** Where a stored alert comes from. *)
Inductive origin (w : World) (id : AlertId) (a' : EmergencyAlert) : Prop :=
| o_same : alerts w !! id = Some a' -> origin w id a'
| o_new : id = length (alerts w) -> newly_stored a' -> origin w id a'
| o_respond a r :
    alerts w !! id = Some a -> status a = active -> a' = respond_update r a ->
    origin w id a'
| o_auto a now :
    alerts w !! id = Some a -> a' = auto_update now a -> origin w id a'.

(** What the schema lets into the collection. *)
Definition well_formed (a : EmergencyAlert) : Prop :=
  type a ∈ type_enum ∧ severity a ∈ severity_enum
  ∧ (js_length (default "" (description a)) ≤ 500)%nat.

(** The rewards of one user. *)
Definition earned_by (uid : UserId) (rs : list Reward) : list Reward :=
  filter (λ r, rw_user r = uid) rs.

(** What the console shows of the gateway. *)
Definition is_sms (l : LogEntry) : Prop :=
  match l with sms_sent _ _ => True | _ => False end.
Definition is_call (l : LogEntry) : Prop :=
  match l with call_placed _ => True | _ => False end.
Definition reports_failure (l : LogEntry) : Prop :=
  match l with console_error _ | console_warn _ => True | _ => False end.

(** ** What notifyContacts writes

    The phones of the emergency contacts of the reporter, and the lines of
    the console for one contact, for the call to the service number, for the
    simulation and for the whole function. *)

Definition contacts_of (alert : Document) (w : World) : list string :=
  match users w !! user (fields alert) with
  | Some u => omap c_phone
                (filter (λ c, truthy_string (c_phone c) = true) (emergencyContacts u))
  | None => []
  end.

Definition contact_log (env : Env) (receiver : string) : list LogEntry :=
  let twilioFrom := default "" (TWILIO_FROM env) in
  (if messagesCreate env twilioFrom receiver
   then [sms_sent twilioFrom receiver]
   else [console_error "Twilio SMS error for"])
  ++ (if truthy_string (TWILIO_WHATSAPP_FROM env)
      then
        let whatsappFrom := default "" (TWILIO_WHATSAPP_FROM env) in
        if messagesCreate env whatsappFrom ("whatsapp:" +:+ receiver)
        then [sms_sent whatsappFrom ("whatsapp:" +:+ receiver)]
        else []
      else []).

Definition call_log (env : Env) (serviceNumber : option string) : list LogEntry :=
  if truthy_string serviceNumber
  then
    let receiver := default "" serviceNumber in
    if callsCreate env receiver then [call_placed receiver]
    else [console_error "Twilio call error to service number"]
  else [].

Definition simulation_log (serviceNumber : option string) : list LogEntry :=
  console_log "Simulated notification to contacts:"
  :: (if truthy_string serviceNumber
      then [console_log "Simulated call to service number:"] else []).

Definition configured (env : Env) : bool :=
  truthy_string (TWILIO_ACCOUNT_SID env) && truthy_string (TWILIO_AUTH_TOKEN env)
  && truthy_string (TWILIO_FROM env).

Definition notify_log (env : Env) (alert : Document) (w : World) : list LogEntry :=
  let serviceNumber := or_string (serviceMap env (type (fields alert))) (Some "") in
  if userLookup env
  then
    if configured env
    then
      if twilioImport env
      then mjoin (contact_log env <$> contacts_of alert w) ++ call_log env serviceNumber
      else console_warn
             "Twilio module not available or failed to init, falling back to simulation"
           :: simulation_log serviceNumber
    else simulation_log serviceNumber
  else [console_error "notifyContacts error:"].

(** A gateway that is configured and takes SMS and calls but no WhatsApp
    message. *)
Definition working : Env :=
  mkEnv None true (Some "AC1") (Some "tok") (Some "+1500") (Some "whatsapp:+1500")
        None None None None None true
        (λ sender _, String.eqb sender "+1500") (λ _, true).

(** ** More invariants of the reachable worlds *)

(** Every stored alert passed the schema and was never cancelled; one with
    the status 'responded' has its responder. *)
Definition schema_inv (w : World) : Prop :=
  ∀ id a, alerts w !! id = Some a ->
    well_formed a ∧ status a ≠ cancelled
    ∧ (status a = responded -> length (responders a) = 1%nat).

(** Every pending timer is that of a stored alert, due thirty minutes after
    its creation, and no alert has two. *)
Definition schedule_inv (w : World) : Prop :=
  (∀ k t, timers w !! k = Some t ->
     ∃ a, alerts w !! _id (this t) = Some a
          ∧ due t = (createdAt a + 30 * 60 * 1000)%Z)
  ∧ NoDup ((λ t, _id (this t)) <$> timers w).

(** Every reward is that of a responder of a stored alert. *)
Definition ledger_inv (w : World) : Prop :=
  ∀ r, r ∈ rewards w ->
    activityType r = "emergency_response" ∧ points r = 50%Z
    ∧ relatedModel r = "EmergencyAlert"
    ∧ (rw_description r = "Responded to emergency alert"
       ∨ ∃ ty, ty ∈ type_enum
               ∧ rw_description r = "Responded to " +:+ ty +:+ " emergency")
    ∧ ∃ a, alerts w !! relatedActivity r = Some a
           ∧ rw_user r ∈ r_user <$> responders a.

(** The statistics of the users are those of the start plus what the ledger
    holds. *)
Definition stats_inv (us : gmap UserId User) (w : World) : Prop :=
  ∀ uid, match us !! uid, users w !! uid with
         | Some u0, Some u =>
             rewardPoints u
             = (rewardPoints u0 + 50 * Z.of_nat (length (earned_by uid (rewards w))))%Z
             ∧ helpCount u
               = (helpCount u0 + Z.of_nat (length (earned_by uid (rewards w))))%Z
             ∧ name u = name u0 ∧ emergencyContacts u = emergencyContacts u0
         | None, None => True
         | _, _ => False
         end.

(** ** When handlers overlap *)

(** The document of a request that waits: one responder pushed, the status
    assigned 'responded', nothing else. *)
Definition response_document (d : Document) : Prop :=
  ∃ r, pushed d = [r] ∧ modified d = [PStatus] ∧ status (fields d) = responded.

(** What holds of every state the server can be in, overlaps included: an
    active alert has no responder, a responded one has some, no alert is
    cancelled; the timers hold the documents of the creation; the waiting
    requests hold the documents of a response. *)
Definition overlap_inv (c : Config) : Prop :=
  (∀ id a, alerts c.1 !! id = Some a ->
     (status a = active -> responders a = [])
     ∧ (status a = responded -> responders a ≠ [])
     ∧ status a ≠ cancelled)
  ∧ (∀ k t, timers c.1 !! k = Some t -> pristine (this t))
  ∧ (∀ k p, c.2 !! k = Some p -> response_document (held p)).

(** A and B answer the alert of R at the same time: both requests load it
    before either saves. *)
Definition overlapping_responses : Config :=
  irun (G:=flat) (alert_created, [])
    [PostRespondBegin minute "A" 0 on_my_way; PostRespondBegin minute "B" 0 on_my_way;
     Resume 0; Resume 0].

(** A sends the response twice, and the second request loads the alert
    before the first has saved. *)
Definition doubled_response : Config :=
  irun (G:=flat) (alert_created, [])
    [PostRespondBegin minute "A" 0 on_my_way; PostRespondBegin minute "A" 0 on_my_way;
     Resume 0; Resume 0].

(** A answers as the thirty minutes end: the request loads the alert, the
    timer fires. *)
Definition timer_during_response : Config :=
  irun (G:=flat) (alert_created, [])
    [PostRespondBegin (30 * minute - 1) "A" 0 on_my_way;
     Whole (TimerFired (30 * minute) 0)].

(** ** /api/emergency: GET /nearby

    The query string after [parseFloat] and [parseInt], as for
    GET /nearby-users.  [find] with [$near], then [sort({createdAt: -1})],
    which replaces the order of [$near], then [limit(20)]. *)

Record AlertsQuery := mkAlertsQuery {
  aq_latitude : option number;
  aq_longitude : option number;
  aq_radius : option Z
}.

Record AlertSummary := mkAlertSummary {
  s_id : AlertId;
  s_type : string;
  s_severity : string;
  s_location : Point;
  s_description : option string;
  s_user : UserId;
  s_respondersCount : nat;
  s_distance : Z;
  s_createdAt : Time
}.

Record AlertsResponse := mkAlertsResponse {
  ar_code : Z;
  ar_alerts : list AlertSummary;
  ar_count : nat
}.

(** [Math.round]: to the nearest integer, a half goes up. *)
Definition Math_round (x : number) : Z := Qfloor (x + (1 # 2)).

Definition newer : relation (AlertId * EmergencyAlert) :=
  λ x y, (createdAt y.2 ≤ createdAt x.2)%Z.

#[global] Instance newer_dec : RelDecision newer.
Proof. intros x y. unfold newer. apply _. Defined.

Section Nearby_alerts.
Context {G : Geometry}.

Definition findNearbyActive (req_user : UserId) (lon lat maxDistance : number)
    (coll : list EmergencyAlert) : list (AlertId * EmergencyAlert) :=
  let center := mkPoint lon lat None in
  take 20
    (merge_sort newer
       (filter (λ ia, status ia.2 = active ∧ user ia.2 ≠ req_user
                      ∧ (geoDistance center (location ia.2) <= maxDistance)%Q)
               (imap pair coll))).

Definition summary (lon lat : number) (ia : AlertId * EmergencyAlert) : AlertSummary :=
  let alert := ia.2 in
  mkAlertSummary ia.1 (type alert) (severity alert) (location alert)
    (description alert) (user alert) (length (responders alert))
    (Math_round (calculateDistance lat lon (latitude (location alert))
                                   (longitude (location alert))))
    (createdAt alert).

(** [readyState] is [mongoose.connection.readyState]; 1 is connected. *)
Definition nearby_alerts (readyState : Z) (req_user : UserId) (q : AlertsQuery)
  : M AlertsResponse :=
  match aq_latitude q, aq_longitude q with
  | Some lat, Some lon =>
      if decide (readyState ≠ 1)%Z then mret (mkAlertsResponse 200 [] 0)
      else
        let radius := default 10000%Z (aq_radius q) in
        found ← gets (λ w,
          findNearbyActive req_user lon lat (inject_Z radius) (alerts w));
        let alertsWithDistance := summary lon lat <$> found in
        mret (mkAlertsResponse 200 alertsWithDistance (length alertsWithDistance))
  | _, _ => mret (mkAlertsResponse 400 [] 0)
  end.

End Nearby_alerts.

(** ** The Reward model and POST /api/rewards/redeem *)

Definition activity_enum : list string :=
  ["emergency_response"; "breakdown_help"; "route_sharing"; "safety_report";
   "community_help"; "ride_completion"; "daily_login"; "profile_completion";
   "referral"; "eco_riding"; "group_ride_leader"; "first_aid_certified"].

Definition related_model_enum : list string :=
  ["EmergencyAlert"; "Ride"; "User"; "ChatMessage"].

(** [relatedActivity] as given to [new Reward]: nothing, a value that casts
    to the ObjectId of a record, or a value that does not cast. *)
Inductive Ref := no_ref | ref_to (id : AlertId) | bad_ref.

(** The argument of [new Reward({...})]. *)
Record NewReward := mkNewReward {
  nr_user : UserId;
  nr_activityType : option string;
  nr_points : option Z;
  nr_description : option string;
  nr_relatedActivity : Ref;
  nr_relatedModel : option string
}.

(** Validation before [reward.save()]: [activityType] required and in its
    enum, [points] required and at least 0, [description] required and at most
    200 characters, [relatedActivity] an ObjectId if there, [relatedModel] in
    its enum if there. *)
Definition reward_valid (n : NewReward) : bool :=
  match nr_activityType n, nr_points n, nr_description n with
  | Some ty, Some p, Some d =>
      bool_decide (ty ∈ activity_enum)
      && bool_decide (0 ≤ p)%Z
      && negb (String.eqb d "")
      && bool_decide (js_length d ≤ 200)%nat
      && (if nr_relatedActivity n is bad_ref then false else true)
      && match nr_relatedModel n with
         | Some m => bool_decide (m ∈ related_model_enum)
         | None => true
         end
  | _, _, _ => false
  end.

(** The record as the ledger of this development holds it. *)
Definition stored_reward (n : NewReward) : Reward :=
  mkReward (nr_user n) (default "" (nr_activityType n)) (default 0%Z (nr_points n))
           (default "" (nr_description n))
           (if nr_relatedActivity n is ref_to id then id else 0%nat)
           (default "" (nr_relatedModel n)).

(** [await reward.save()] *)
Definition save_reward (n : NewReward) : M unit := λ w,
  if reward_valid n
  then (Returned tt, with_rewards (rewards w ++ [stored_reward n]) w)
  else (Thrown "ValidationError", w).

(** What [new Reward] was given for a stored reward of a response. *)
Definition candidate (r : Reward) : NewReward :=
  mkNewReward (rw_user r) (Some (activityType r)) (Some (points r))
              (Some (rw_description r)) (ref_to (relatedActivity r))
              (Some (relatedModel r)).

Definition add_points (n : Z) (u : User) : User :=
  mkUser (name u) (emergencyContacts u) (currentLocation u)
         (helpCount u) (rewardPoints u + n) (isOnline u) (lastSeen u).

(** The body of POST /redeem; [item_ref] is what [itemId] casts to. *)
Record RedeemInput := mkRedeemInput {
  itemId : string;
  item_ref : Ref;
  pointsCost : Z
}.

Record RedeemResponse := mkRedeemResponse {
  rd_code : Z;
  rd_message : string;
  rd_pointsDeducted : option Z;
  rd_remainingPoints : option Z
}.

(** POST /api/rewards/redeem *)
Definition post_redeem (req_user : UserId) (body : RedeemInput) : M RedeemResponse :=
  try_catch
    (found ← gets (λ w, users w !! req_user);
     match found with
     | None => mret (mkRedeemResponse 404 "User not found" None None)
     | Some u =>
       if decide (rewardPoints u < pointsCost body)%Z
       then mret (mkRedeemResponse 400 "Insufficient points for redemption" None None)
       else
         modify (λ w, with_users
                   (alter (add_points (- pointsCost body)) req_user (users w)) w) ;;
         save_reward (mkNewReward req_user (Some "redemption")
                        (Some (- pointsCost body)%Z)
                        (Some ("Redeemed " +:+ itemId body))
                        (item_ref body) None) ;;
         mret (mkRedeemResponse 200 "Points redeemed successfully"
                 (Some (pointsCost body))
                 (Some (rewardPoints u - pointsCost body)%Z))
     end)
    (λ _, log (console_error "Redeem error:") ;;
          mret (mkRedeemResponse 500 "Failed to redeem points" None None)).

(** ** /api/ai: the voice commands and the assessment of an emergency

    [String.prototype.toLowerCase] is a parameter; [includes] is the test for
    a substring. *)

Class Builtins := {
  toLowerCase : string -> string
}.

Fixpoint includes (s t : string) : bool :=
  String.prefix t s
  || match s with
     | EmptyString => false
     | String _ s' => includes s' t
     end.

Record Command := mkCommand {
  action : string;
  params : option (string * string);
  response : string
}.

(** The [commands] object of [processVoiceCommand], in the order of its
    keys. *)
Definition commands : list (string * Command) :=
  [("start navigation", mkCommand "start_navigation" None "Starting navigation.");
   ("stop navigation", mkCommand "stop_navigation" None "Navigation stopped.");
   ("find gas station",
    mkCommand "find_poi" (Some ("type", "fuel")) "Finding nearby gas stations.");
   ("find hospital",
    mkCommand "find_poi" (Some ("type", "medical")) "Finding nearby hospitals.");
   ("find parking",
    mkCommand "find_poi" (Some ("type", "parking")) "Finding nearby parking.");
   ("emergency help",
    mkCommand "emergency_alert" (Some ("type", "emergency")) "Sending emergency alert.");
   ("accident alert",
    mkCommand "emergency_alert" (Some ("type", "accident")) "Sending accident alert.");
   ("medical emergency",
    mkCommand "emergency_alert" (Some ("type", "medical"))
              "Sending medical emergency alert.");
   ("breakdown help",
    mkCommand "emergency_alert" (Some ("type", "breakdown"))
              "Sending breakdown assistance request.");
   ("check weather", mkCommand "get_weather" None "Checking current weather conditions.");
   ("weather forecast", mkCommand "get_weather_forecast" None "Getting weather forecast.");
   ("call help", mkCommand "start_voice_call" None "Initiating help call.");
   ("send message", mkCommand "open_chat" None "Opening chat interface.");
   ("go home", mkCommand "navigate_to" (Some ("page", "home")) "Going to home screen.");
   ("open map", mkCommand "navigate_to" (Some ("page", "map")) "Opening map.");
   ("show dashboard",
    mkCommand "navigate_to" (Some ("page", "dashboard")) "Opening dashboard.")].

(** The names every object inherits from [Object.prototype]: [commands[name]]
    is a function or the prototype itself, which is truthy and has no
    [action]. *)
Definition inherited_names : list string :=
  ["constructor"; "__defineGetter__"; "__defineSetter__"; "hasOwnProperty";
   "__lookupGetter__"; "__lookupSetter__"; "isPrototypeOf";
   "propertyIsEnumerable"; "toString"; "valueOf"; "__proto__"; "toLocaleString"].

Inductive VoiceResult :=
| matched (c : Command)
| inherited
| no_action.

Definition partial_match (transcript : string) (entry : string * Command) : bool :=
  includes transcript entry.1 || includes entry.1 transcript.

Definition processVoiceCommand (transcript : string) : VoiceResult :=
  match list_find (λ entry, entry.1 = transcript) commands with
  | Some (_, entry) => matched entry.2
  | None =>
    if bool_decide (transcript ∈ inherited_names) then inherited
    else
      match list_find (λ entry, partial_match transcript entry = true) commands with
      | Some (_, entry) => matched entry.2
      | None => no_action
      end
  end.

(** One element of the answer of Rasa. *)
Record BotResponse := mkBotResponse {
  b_text : option string;
  b_custom_action : option string;
  b_buttons : list (option string)
}.

Inductive ActionOut :=
| null
| command_action (a : string)
| custom_action (a : string)
| button_action (payload : string).

Definition extractActionFromResponse (botResponses : list BotResponse) : ActionOut :=
  match botResponses with
  | [] => null
  | r :: _ =>
    if truthy_string (b_custom_action r)
    then custom_action (default "" (b_custom_action r))
    else
      match b_buttons r with
      | button :: _ =>
          if truthy_string button then button_action (default "" button) else null
      | [] => null
      end
  end.

Record VoiceResponse := mkVoiceResponse {
  v_code : Z;
  v_action : ActionOut;
  v_params : option (string * string);
  v_response : option string;
  v_confidence : option number
}.

Section Assistant.
Context {B : Builtins}.

(** POST /api/ai/voice; [rasa] is what the request to Rasa answers, [None]
    when it fails. *)
Definition post_voice (rasa : option (list BotResponse)) (transcript : option string)
    (confidence : option number) : M VoiceResponse :=
  try_catch
    (if negb (truthy_string transcript)
     then mret (mkVoiceResponse 400 null None (Some "Voice transcript is required") None)
     else
       let said := default "" transcript in
       let confidence :=
         if truthy_number confidence then confidence else Some (8 # 10) in
       match processVoiceCommand (toLowerCase said) with
       | matched c =>
           mret (mkVoiceResponse 200 (command_action (action c)) (params c)
                                 (Some (response c)) confidence)
       | _ =>
         match rasa with
         | None => throw "AxiosError"
         | Some botResponses =>
           let mainResponse :=
             or_string (head botResponses ≫= b_text)
                       (Some "I didn't understand that command.") in
           mret (mkVoiceResponse 200 (extractActionFromResponse botResponses) None
                                 mainResponse confidence)
         end
       end)
    (λ _, log (console_error "Voice processing error:") ;;
          mret (mkVoiceResponse 500 null None (Some "Failed to process voice command")
                                None)).

Record Advice := mkAdvice {
  adv_action : string;
  adv_message : string;
  adv_priority : Z
}.

Record Assessment := mkAssessment {
  urgencyLevel : string;
  recommendedActions : list Advice;
  nearbyResources : list string;
  estimated_response_time : string
}.

Definition highUrgencyKeywords : list string :=
  ["unconscious"; "bleeding"; "chest pain"; "difficulty breathing"; "severe injury"].
Definition mediumUrgencyKeywords : list string :=
  ["injured"; "pain"; "stuck"; "broken down"].

Definition general_advice : list Advice :=
  [mkAdvice "share_location" "Share precise location with emergency contacts" 2;
   mkAdvice "stay_visible" "Move to a safe, visible location if possible" 3;
   mkAdvice "update_status" "Keep emergency contacts updated on your status" 4].

Definition assessEmergencySituation (description severity : string) : Assessment :=
  let hasHighUrgency :=
    existsb (λ keyword, includes (toLowerCase description) keyword)
            highUrgencyKeywords in
  let hasMediumUrgency :=
    existsb (λ keyword, includes (toLowerCase description) keyword)
            mediumUrgencyKeywords in
  if hasHighUrgency || String.eqb severity "critical"
  then mkAssessment "critical"
         (mkAdvice "call_911" "Call emergency services immediately (911)" 1
          :: general_advice) [] "5-10 minutes"
  else if hasMediumUrgency || String.eqb severity "high"
  then mkAssessment "high"
         (mkAdvice "alert_nearby_riders" "Alert nearby riders for assistance" 1
          :: general_advice) [] "10-15 minutes"
  else mkAssessment "medium" general_advice [] "10-15 minutes".

(** POST /api/ai/emergency-assess: [description || ''], [severity || 'unknown'] *)
Definition post_emergency_assess (description severity : option string) : Assessment :=
  assessEmergencySituation (default "" (or_string description (Some "")))
                           (default "" (or_string severity (Some "unknown"))).

End Assistant.

(** Lower case of the letters A to Z, for the scenarios. *)
Definition ascii_lower (c : Ascii.ascii) : Ascii.ascii :=
  let n := Ascii.nat_of_ascii c in
  if (65 <=? n)%nat && (n <=? 90)%nat then Ascii.ascii_of_nat (n + 32) else c.

Fixpoint lower (s : string) : string :=
  match s with
  | EmptyString => EmptyString
  | String c s' => String (ascii_lower c) (lower s')
  end.

Definition ascii_builtins : Builtins := {| toLowerCase := lower |}.


(** * Properties *)

(** ** Running a handler one operation at a time *)

Lemma bind_returned {A B} (m : M A) (f : A → M B) w a w' :
  m w = (Returned a, w') → (m ≫= f) w = f a w'.
Proof. intros E. unfold mbind, M_bind. by rewrite E. Qed.

Lemma bind_thrown {A B} (m : M A) (f : A → M B) w e w' :
  m w = (Thrown e, w') → (m ≫= f) w = (Thrown e, w').
Proof. intros E. unfold mbind, M_bind. by rewrite E. Qed.

Lemma bind_ret {A B} (a : A) (f : A → M B) w : (mret a ≫= f) w = f a w.
Proof. reflexivity. Qed.

Lemma bind_gets {A B} (g : World → A) (f : A → M B) w :
  (gets g ≫= f) w = f (g w) w.
Proof. reflexivity. Qed.

Lemma bind_modify {B} (g : World → World) (f : unit → M B) w :
  (modify g ≫= f) w = f tt (g w).
Proof. reflexivity. Qed.

Lemma bind_assoc {A B C} (m : M A) (f : A → M B) (k : B → M C) w :
  ((m ≫= f) ≫= k) w = (m ≫= λ a, f a ≫= k) w.
Proof. unfold mbind, M_bind. by destruct (m w) as [[a | e] w']. Qed.

Lemma bind_save_doc {B} (d : Document) (f : Document → M B) w :
  (save_doc d ≫= f) w
  = f (save (alerts w) d).2 (with_alerts (save (alerts w) d).1 w).
Proof. reflexivity. Qed.

Lemma bind_detached {A B} (m : M A) (f : unit → M B) w :
  (detached m ≫= f) w = f tt (m w).2.
Proof. unfold mbind, M_bind, detached. by destruct (m w). Qed.

Lemma try_returned {A} (m : M A) h w a w' :
  m w = (Returned a, w') → try_catch m h w = (Returned a, w').
Proof. intros E. unfold try_catch. by rewrite E. Qed.

Lemma try_thrown {A} (m : M A) h w e w' :
  m w = (Thrown e, w') → try_catch m h w = h e w'.
Proof. intros E. unfold try_catch. by rewrite E. Qed.

(** ** Handlers that only write to the console *)

Lemma with_console_nil w : with_console (console w ++ []) w = w.
Proof. destruct w; unfold with_console; simpl. by rewrite app_nil_r. Qed.

Lemma with_console_app w l1 l2 :
  with_console (console (with_console (console w ++ l1) w) ++ l2)
               (with_console (console w ++ l1) w)
  = with_console (console w ++ (l1 ++ l2)%list) w.
Proof. destruct w; unfold with_console; simpl. by rewrite app_assoc. Qed.

Lemma safe_mayfail {A} (m : M A) : safe m → mayfail m.
Proof. intros H w. destruct (H w) as (a & l & ->). eauto. Qed.

Lemma safe_ret {A} (a : A) : safe (mret a).
Proof. intros w. exists a, []. by rewrite with_console_nil. Qed.

Lemma safe_gets {A} (f : World → A) : safe (gets f).
Proof. intros w. exists (f w), []. by rewrite with_console_nil. Qed.

Lemma safe_log x : safe (log x).
Proof. intros w. exists tt, [x]. reflexivity. Qed.

Lemma mayfail_throw {A} e : mayfail (throw (A:=A) e).
Proof. intros w. exists (Thrown e), []. by rewrite with_console_nil. Qed.

Lemma safe_bind {A B} (m : M A) (f : A → M B) :
  safe m → (∀ a, safe (f a)) → safe (m ≫= f).
Proof.
  intros Hm Hf w. destruct (Hm w) as (a & l1 & Em).
  destruct (Hf a (with_console (console w ++ l1) w)) as (b & l2 & Ef).
  exists b, (l1 ++ l2)%list. unfold mbind, M_bind. rewrite Em, Ef.
  by rewrite with_console_app.
Qed.

Lemma mayfail_bind {A B} (m : M A) (f : A → M B) :
  mayfail m → (∀ a, mayfail (f a)) → mayfail (m ≫= f).
Proof.
  intros Hm Hf w. destruct (Hm w) as (r & l1 & Em).
  unfold mbind, M_bind. rewrite Em. destruct r as [a | e].
  - destruct (Hf a (with_console (console w ++ l1) w)) as (r & l2 & Ef).
    exists r, (l1 ++ l2)%list. by rewrite Ef, with_console_app.
  - by exists (Thrown e), l1.
Qed.

Lemma safe_try_catch {A} (m : M A) (h : string → M A) :
  mayfail m → (∀ e, safe (h e)) → safe (try_catch m h).
Proof.
  intros Hm Hh w. destruct (Hm w) as (r & l1 & Em).
  unfold try_catch. rewrite Em. destruct r as [a | e].
  - by exists a, l1.
  - destruct (Hh e (with_console (console w ++ l1) w)) as (a & l2 & Eh).
    exists a, (l1 ++ l2)%list. by rewrite Eh, with_console_app.
Qed.

Lemma safe_for_each {A} (xs : list A) (body : A → M unit) :
  (∀ x, safe (body x)) → safe (for_each xs body).
Proof.
  intros Hb. induction xs as [| x xs IH]; simpl.
  - apply safe_ret.
  - apply safe_bind; auto.
Qed.

Lemma mayfail_gateway ok done : mayfail (gateway ok done).
Proof.
  unfold gateway. destruct ok.
  - apply safe_mayfail, safe_log.
  - apply mayfail_throw.
Qed.

Create HintDb absorb.
#[local] Hint Resolve safe_ret safe_gets safe_log safe_bind safe_try_catch
  safe_for_each mayfail_throw mayfail_bind mayfail_gateway safe_mayfail : absorb.

Lemma notifyContacts_safe env alert : safe (notifyContacts env alert).
Proof.
  unfold notifyContacts.
  apply safe_try_catch; [| intros; apply safe_log].
  apply mayfail_bind.
  { destruct (userLookup env); auto with absorb. }
  intros userDoc. apply mayfail_bind.
  - destruct (_ && _); [| auto with absorb].
    apply safe_mayfail, safe_try_catch.
    + apply mayfail_bind; [destruct (twilioImport env); auto with absorb |].
      intros _. apply mayfail_bind.
      * apply safe_mayfail, safe_for_each. intros receiver.
        apply safe_bind; [auto with absorb |].
        intros _. destruct (truthy_string _); auto with absorb.
      * intros _. apply mayfail_bind; [| auto with absorb].
        destruct (truthy_string _); auto 6 with absorb.
    + intros e. auto with absorb.
  - intros [|]; [auto with absorb |].
    apply safe_mayfail, safe_bind; [auto with absorb |].
    intros _. destruct (truthy_string _); auto with absorb.
Qed.

Lemma validate_hospitals now n hs a :
  validate now n = Some a →
  validate now (mkNewAlert (n_user n) (n_type n) (n_severity n) (n_longitude n)
                  (n_latitude n) (n_address n) (n_description n) hs)
  = Some (mkAlert (user a) (type a) (severity a) (location a) (description a)
                  (status a) (responders a) hs (autoResolved a) (resolvedAt a)
                  (resolvedBy a) (createdAt a)).
Proof.
  unfold validate; simpl. intros H.
  destruct (n_type n) as [ty |]; [| done].
  destruct (n_longitude n) as [lon |]; [| done].
  destruct (n_latitude n) as [lat |]; [| done]. simpl in *.
  destruct (_ && _); [| done]. by simplify_eq.
Qed.

Lemma validate_newly_stored now n a :
  validate now n = Some a →
  user a = n_user n ∧ status a = active ∧ responders a = [] ∧ createdAt a = now
  ∧ autoResolved a = false ∧ resolvedAt a = None ∧ resolvedBy a = None.
Proof.
  unfold validate. intros H.
  destruct (n_type n) as [ty |]; [| done].
  destruct (n_longitude n) as [lon |]; [| done].
  destruct (n_latitude n) as [lat |]; [| done]. simpl in *.
  destruct (_ && _); [| done]. by simplify_eq.
Qed.

Lemma findNearbyHospitals_safe env : safe (findNearbyHospitals env).
Proof.
  unfold findNearbyHospitals. destruct (overpass env); auto with absorb.
Qed.

(** ** What [save] writes *)

Lemma alter_insert {A} (f : A → A) (l : list A) i x :
  l !! i = Some x → alter f i l = <[i := f x]> l.
Proof.
  intros H. apply list_eq. intros j. destruct (decide (i = j)) as [<- |].
  - rewrite list_lookup_alter_eq, H, list_lookup_insert_eq; [done |].
    by eapply lookup_lt_Some.
  - by rewrite list_lookup_alter_ne, list_lookup_insert_ne.
Qed.

Lemma save_pristine coll now d :
  pristine d →
  (save coll (auto_document now d)).1 = alter (auto_update now) (_id d) coll.
Proof.
  destruct d as [id a p m]. unfold pristine. simpl.
  intros (-> & -> & Hs & Ha & Hr).
  unfold auto_document, save, set_resolvedAt, set_autoResolved, set_status. simpl.
  rewrite Hs. destruct (decide (active = resolved)); [done |]. simpl.
  rewrite Ha. destruct (decide (false = true)); [done |]. simpl.
  rewrite Hr. destruct (decide (None = Some now)); [done |]. simpl.
  apply list_alter_ext; [| done]. intros stored _.
  unfold apply_update, auto_update. simpl.
  destruct stored; simpl. unfold with_responders, with_resolvedAt. simpl.
  by rewrite app_nil_r.
Qed.

(** The callback never writes [responders], [user] or [createdAt], and never
    writes the status 'active'. *)
Lemma auto_update_responders now a : responders (auto_update now a) = responders a.
Proof. reflexivity. Qed.

(** ** The handlers of a response, case by case *)

Lemma strict_equal_oid s uid : strict_equal (str s) (oid uid) = false.
Proof. reflexivity. Qed.

Lemma existingResponse_None req_user a : existingResponse req_user a = None.
Proof.
  unfold existingResponse. apply list_find_None, Forall_forall.
  intros r _. by rewrite strict_equal_oid.
Qed.

Lemma no_responder_matches req_user (rs : list Responder) :
  existsb (λ r, strict_equal (str (r_user r)) (oid req_user)) rs = false.
Proof. by induction rs. Qed.

Lemma post_respond_load_cases now req_user id body w :
  post_respond_load now req_user id body w
  = match alerts w !! id with
    | None => (Returned (inl (json 404 false "Emergency alert not found")), w)
    | Some a =>
      if decide (status a ≠ active)
      then (Returned (inl (json 400 false "Emergency alert is no longer active")), w)
      else if users w !! user a is None
      then (Returned (inl (json 500 false "Failed to send response")),
            with_console (console w ++ [console_error "Emergency response error:"]) w)
      else (Returned (inr (response_of id a
                             (mkResponder req_user now
                                (or_string (in_message body) (Some "On my way to help"))
                                (or_number (in_estimatedArrival body) 10)))), w)
    end.
Proof.
  unfold post_respond_load, try_catch. rewrite bind_gets. unfold findById.
  destruct (alerts w !! id) as [a |]; [| done]. simpl. rewrite bind_gets. simpl.
  destruct (decide (status a ≠ active)) as [| Hs%dec_stable]; [done |].
  destruct (users w !! user a); [| done].
  rewrite existingResponse_None. unfold response_of.
  rewrite Hs. by destruct (decide (active = active)).
Qed.

Lemma save_response coll id a r :
  status a = active →
  save coll (response_of id a r)
  = (alter (respond_update r) id coll,
     mkDocument id (with_status responded (with_responders (responders a ++ [r]) a))
                [] []).
Proof.
  intros Hs. unfold response_of, save, set_status, push_responder. simpl.
  rewrite Hs. by destruct (decide (active = responded)).
Qed.

Lemma post_respond_save_cases req_user d w :
  post_respond_save req_user d w
  = (Returned (mkHttpResponse 200 true "Response sent successfully"
                 (Some (_id d)) (Some 50%Z) (Some (status (fields d)))
                 (Some (length (responders (fields d))))),
     with_users (alter inc_stats req_user (users w))
       (with_rewards
          (rewards w ++ [mkReward req_user "emergency_response" 50
                           ("Responded to " +:+ type (fields d) +:+ " emergency")
                           (_id d) "EmergencyAlert"])
          (with_alerts (save (alerts w) d).1 w))).
Proof.
  unfold post_respond_save, try_catch. by rewrite bind_save_doc.
Qed.

Lemma post_respond_cases now req_user id body w :
  post_respond now req_user id body w
  = match alerts w !! id with
    | None => (Returned (json 404 false "Emergency alert not found"), w)
    | Some a =>
      if decide (status a ≠ active)
      then (Returned (json 400 false "Emergency alert is no longer active"), w)
      else if users w !! user a is None
      then (Returned (json 500 false "Failed to send response"),
            with_console (console w ++ [console_error "Emergency response error:"]) w)
      else
        let r := mkResponder req_user now
                   (or_string (in_message body) (Some "On my way to help"))
                   (or_number (in_estimatedArrival body) 10) in
        (Returned (mkHttpResponse 200 true "Response sent successfully" (Some id)
                     (Some 50%Z) (Some responded)
                     (Some (length (responders a ++ [r])))),
         with_users (alter inc_stats req_user (users w))
           (with_rewards
              (rewards w ++ [mkReward req_user "emergency_response" 50
                               ("Responded to " +:+ type a +:+ " emergency")
                               id "EmergencyAlert"])
              (with_alerts (alter (respond_update r) id (alerts w)) w)))
    end.
Proof.
  unfold post_respond, mbind, M_bind. rewrite post_respond_load_cases.
  destruct (alerts w !! id) as [a |]; [| done].
  destruct (decide (status a ≠ active)) as [| Hs%dec_stable]; [done |].
  destruct (users w !! user a); [| done].
  rewrite post_respond_save_cases, save_response by done.
  unfold response_of, set_status, push_responder. simpl.
  rewrite Hs. by destruct (decide (active = responded)).
Qed.

Lemma on_emergency_response_load_cases now socket id data w :
  on_emergency_response_load now socket id data w
  = match alerts w !! id with
    | Some a =>
      if decide (status a ≠ active)
      then (Returned None,
            with_outbox (outbox w ++ [error_event (sock_id socket)
                                        "Emergency alert not found or not active"]) w)
      else (Returned (Some (response_of id a
                              (mkResponder (userId socket) now (in_message data)
                                           (in_estimatedArrival data)))), w)
    | None =>
      (Returned None,
       with_outbox (outbox w ++ [error_event (sock_id socket)
                                   "Emergency alert not found or not active"]) w)
    end.
Proof.
  unfold on_emergency_response_load, try_catch. rewrite bind_gets. unfold findById.
  destruct (alerts w !! id) as [a |]; [| done]. simpl.
  destruct (decide (status a ≠ active)) as [| Hs%dec_stable]; [done |].
  unfold response_of. rewrite Hs. by destruct (decide (active = active)).
Qed.

Lemma on_emergency_response_save_cases socket id data d w :
  on_emergency_response_save socket id data d w
  = (Returned tt,
     with_outbox (outbox w ++ response_emits w socket id data (user (fields d)))
       (with_users (alter inc_stats (userId socket) (users w))
          (with_rewards
             (rewards w ++ [mkReward (userId socket) "emergency_response" 50
                              "Responded to emergency alert" id "EmergencyAlert"])
             (with_alerts (save (alerts w) d).1 w)))).
Proof.
  unfold on_emergency_response_save, try_catch, response_emits.
  rewrite bind_save_doc, bind_gets. simpl.
  destruct (connectedUsers w !! user (fields d)) as [c |]; simpl; [| done].
  by rewrite <- app_assoc.
Qed.

Lemma on_emergency_response_cases now socket id data w :
  on_emergency_response now socket id data w
  = match alerts w !! id with
    | Some a =>
      if decide (status a ≠ active)
      then (Returned tt,
            with_outbox (outbox w ++ [error_event (sock_id socket)
                                        "Emergency alert not found or not active"]) w)
      else
        let r := mkResponder (userId socket) now (in_message data)
                             (in_estimatedArrival data) in
        (Returned tt,
         with_outbox (outbox w ++ response_emits w socket id data (user a))
           (with_users (alter inc_stats (userId socket) (users w))
              (with_rewards
                 (rewards w ++ [mkReward (userId socket) "emergency_response" 50
                                  "Responded to emergency alert" id "EmergencyAlert"])
                 (with_alerts (alter (respond_update r) id (alerts w)) w))))
    | None =>
      (Returned tt,
       with_outbox (outbox w ++ [error_event (sock_id socket)
                                   "Emergency alert not found or not active"]) w)
    end.
Proof.
  unfold on_emergency_response, mbind, M_bind.
  rewrite on_emergency_response_load_cases.
  destruct (alerts w !! id) as [a |]; [| done].
  destruct (decide (status a ≠ active)) as [| Hs%dec_stable]; [done |].
  rewrite on_emergency_response_save_cases, save_response by done.
  unfold response_of, set_status, push_responder. simpl.
  rewrite Hs. by destruct (decide (active = responded)).
Qed.

(** PUT /resolve answers nobody with 200: [canResolve] is false whoever
    asks. *)
Lemma put_resolve_refuses now req_user id w :
  put_resolve now req_user id w
  = (Returned (if alerts w !! id is Some _
               then json 403 false "Not authorized to resolve this alert"
               else json 404 false "Emergency alert not found"), w).
Proof.
  unfold put_resolve, try_catch. rewrite bind_gets. unfold findById.
  destruct (alerts w !! id) as [a |]; [| done].
  cbn [mbind option_bind fields].
  by rewrite strict_equal_oid, no_responder_matches.
Qed.

Section Effects.
Context {G : Geometry}.

Ltac idle := apply (e_idle _ _ []); [reflexivity .. | by rewrite app_nil_r | constructor].
Ltac idle_with e :=
  apply (e_idle _ _ [e]); [reflexivity .. | by repeat constructor].

Lemma effect_logged w lg : effect w (with_console (console w ++ lg) w).
Proof. idle. Qed.

Lemma on_connection_effect now uid w : effect w (on_connection now uid w).2.
Proof. by eapply e_connect. Qed.

Lemma on_disconnect_effect now socket w : effect w (on_disconnect now socket w).2.
Proof. by eapply e_disconnect. Qed.

Lemma on_location_update_cases socket l timestamp w :
  on_location_update socket l timestamp w
  = let invalid :=
      (Returned tt,
       with_outbox (outbox w ++ [error_event (sock_id socket) "Invalid location data"]) w)
    in
    match l with
    | Some (mkLocationInput (Some lat) (Some lon) addr) =>
        if truthy_number (Some lat) && truthy_number (Some lon)
        then
          if timestamp is Some _
          then (Returned tt,
                with_users (alter (set_location (mkPoint lon lat addr)) (userId socket)
                                  (users w)) w)
          else (Returned tt,
                with_outbox (outbox w ++ [error_event (sock_id socket)
                                            "Failed to update location"])
                  (with_console (console w ++ [console_error "Location update error:"])
                                w))
        else invalid
    | _ => invalid
    end.
Proof.
  unfold on_location_update, try_catch.
  destruct l as [[[lat |] [lon |] addr] |]; try done.
  destruct (_ && _); [| done]. by destruct timestamp.
Qed.

Lemma on_location_update_effect socket l timestamp w :
  effect w (on_location_update socket l timestamp w).2.
Proof.
  rewrite on_location_update_cases.
  destruct l as [[[lat |] [lon |] addr] |];
    try by idle_with (error_event (sock_id socket) "Invalid location data").
  destruct (_ && _);
    [| by idle_with (error_event (sock_id socket) "Invalid location data")].
  destruct timestamp; [idle |].
  by idle_with (error_event (sock_id socket) "Failed to update location").
Qed.

Lemma notify_nearby_spec socket d alertData location lon lat nearbyUsers w :
  notify_nearby socket d alertData location lon lat nearbyUsers w
  = (Returned tt,
     with_outbox (outbox w ++ omap (push_for (connectedUsers w) socket (_id d)
                                      alertData location lon lat) nearbyUsers) w).
Proof.
  unfold notify_nearby. revert w.
  induction nearbyUsers as [| u us IH]; intros w.
  - simpl. destruct w; unfold with_outbox; simpl. by rewrite app_nil_r.
  - cbn [for_each omap list_omap]. fold (@omap list _).
    rewrite bind_assoc, bind_gets. unfold push_for at 1.
    destruct (connectedUsers w !! u.1) as [c |] eqn:Hc; simpl.
    + destruct (decide (u.1 ≠ userId socket)).
      * unfold emit. rewrite bind_modify, IH. simpl.
        destruct w; unfold with_outbox; simpl. by rewrite <- app_assoc.
      * rewrite bind_ret. apply IH.
    + rewrite bind_ret. apply IH.
Qed.

Lemma post_alert_effect env now req_user body w :
  effect w (post_alert env now req_user body w).2.
Proof.
  unfold post_alert.
  destruct (negb (truthy_string (in_type body)) || _); [idle |].
  unfold try_catch at 1. rewrite bind_gets.
  destruct (findRecentActive _ _ _); [idle |].
  match goal with |- context [(?m ≫= _) w] =>
    assert (∃ hs lg, m w = (Returned hs, with_console (console w ++ lg) w))
      as (hs & lg & Eh) end.
  { destruct (_ || _); [apply findNearbyHospitals_safe | apply safe_ret]. }
  rewrite (bind_returned _ _ _ _ _ Eh).
  unfold save_new at 1.
  destruct (validate now _) as [a |] eqn:Hval.
  - erewrite bind_returned by reflexivity.
    unfold scheduleAutoResolve. rewrite bind_modify, bind_detached.
    match goal with |- context [try_catch ?m ?h ?w0] =>
      destruct (safe_try_catch m h
                  (safe_mayfail _ (notifyContacts_safe env _))
                  (λ _, safe_log _) w0) as ([] & lg2 & ->) end.
    simpl. destruct (validate_newly_stored _ _ _ Hval) as (_ & ? & ? & _ & ? & ? & ?).
    eapply (e_create _ _ a now []); try reflexivity.
    + done.
    + simpl. by rewrite app_nil_r.
    + by left.
  - erewrite bind_thrown by reflexivity. simpl. idle.
Qed.

Lemma on_emergency_alert_effect now socket alertData w :
  effect w (on_emergency_alert now socket alertData w).2.
Proof.
  unfold on_emergency_alert, try_catch.
  destruct (in_location alertData) as [location |]; simpl;
    [| by idle_with (error_event (sock_id socket) "Failed to send emergency alert")].
  unfold save_new at 1.
  destruct (validate now _) as [a |] eqn:Hval.
  - erewrite bind_returned by reflexivity.
    destruct (in_longitude location) as [lon |] eqn:Hlon,
             (in_latitude location) as [lat |] eqn:Hlat;
      try (unfold validate in Hval; simpl in Hval; rewrite ?Hlon, ?Hlat in Hval;
           simpl in Hval; by destruct (in_type alertData)).
    rewrite bind_gets. erewrite bind_returned by apply notify_nearby_spec.
    unfold scheduleAutoResolve. rewrite bind_modify. simpl.
    destruct (validate_newly_stored _ _ _ Hval) as (_ & ? & ? & _ & ? & ? & ?).
    eapply (e_create _ _ a now); try reflexivity.
    + done.
    + simpl. rewrite <- app_assoc. reflexivity.
    + right. exists socket, alertData, location, lon, lat. reflexivity.
  - erewrite bind_thrown by reflexivity. simpl.
    by idle_with (error_event (sock_id socket) "Failed to send emergency alert").
Qed.

Lemma post_respond_effect now req_user id body w :
  effect w (post_respond now req_user id body w).2.
Proof.
  rewrite post_respond_cases.
  destruct (alerts w !! id) as [a |] eqn:Ha; [| idle].
  destruct (decide (status a ≠ active)) as [| Hs%dec_stable]; [idle |].
  destruct (users w !! user a); [| idle].
  eapply (e_respond _ _ id a _ _ []); try reflexivity; try done.
  - simpl. by apply alter_insert.
  - reflexivity.
  - simpl. by rewrite app_nil_r.
Qed.

Lemma response_emits_no_push w socket id data reporter :
  Forall no_push (response_emits w socket id data reporter).
Proof.
  unfold response_emits. destruct (connectedUsers w !! reporter); by repeat constructor.
Qed.

Lemma on_emergency_response_effect now socket id data w :
  effect w (on_emergency_response now socket id data w).2.
Proof.
  rewrite on_emergency_response_cases.
  destruct (alerts w !! id) as [a |] eqn:Ha;
    [| by idle_with (error_event (sock_id socket)
                       "Emergency alert not found or not active")].
  destruct (decide (status a ≠ active)) as [| Hs%dec_stable];
    [by idle_with (error_event (sock_id socket)
                     "Emergency alert not found or not active") |].
  eapply (e_respond _ _ id a _ _ (response_emits w socket id data (user a)));
    try reflexivity; try done.
  - simpl. by apply alter_insert.
  - reflexivity.
  - apply response_emits_no_push.
Qed.

Lemma put_resolve_effect now req_user id w :
  effect w (put_resolve now req_user id w).2.
Proof. rewrite put_resolve_refuses. idle. Qed.

Lemma timer_fired_effect now k w : effect w (timer_fired now k w).2.
Proof.
  unfold timer_fired.
  destruct (timers w !! k) as [t |] eqn:Ht; [| idle].
  destruct (decide (due t ≤ now)%Z); [| idle].
  unfold autoResolve.
  destruct (decide (status (fields (this t)) = active)) as [Hs | Hs].
  - rewrite bind_save_doc. simpl.
    eapply (e_timer _ _ k t now); try reflexivity; try done.
    simpl. by destruct (decide _).
  - simpl. eapply (e_timer _ _ k t now); try reflexivity; try done.
    simpl. by destruct (decide _).
Qed.

(** Every step of the server has one of the shapes of [effect]. *)
Lemma step_effect w ev : effect w (step w ev).
Proof.
  destruct ev; simpl.
  - apply on_connection_effect.
  - apply on_disconnect_effect.
  - apply on_location_update_effect.
  - apply post_alert_effect.
  - apply on_emergency_alert_effect.
  - apply post_respond_effect.
  - apply on_emergency_response_effect.
  - apply put_resolve_effect.
  - apply timer_fired_effect.
Qed.

End Effects.

Section Invariants.
Context {G : Geometry}.

(** ** The life cycle invariant *)

Lemma grants_app id rs1 rs2 : grants id (rs1 ++ rs2) = grants id rs1 ++ grants id rs2.
Proof. apply filter_app. Qed.

Lemma grants_one id u descr j :
  grants j [mkReward u "emergency_response" 50 descr id "EmergencyAlert"]
  = if decide (id = j) then [mkReward u "emergency_response" 50 descr id "EmergencyAlert"]
    else [].
Proof.
  unfold grants. destruct (decide (id = j)) as [<- | Hne].
  - by rewrite filter_cons_True.
  - rewrite filter_cons_False; [done |]. by intros [_ ?].
Qed.

Lemma lookup_delete_elem {A} (l : list A) k j x :
  delete k l !! j = Some x → ∃ j', l !! j' = Some x.
Proof.
  rewrite list_lookup_delete. destruct (decide (j < k)%nat); eauto.
Qed.

Lemma pristine_newly_stored id a : newly_stored a → pristine (mkDocument id a [] []).
Proof. intros (? & _ & ? & ? & _). by repeat split. Qed.

Lemma lifecycle_inv_init us : lifecycle_inv (init us).
Proof. repeat split; intros; simpl in *; by try rewrite lookup_nil in *. Qed.

Lemma lifecycle_inv_effect w w' : effect w w' → lifecycle_inv w → lifecycle_inv w'.
Proof.
  intros He (Ha & Hn & Ht).
  destruct He as
    [ es Ea Er Et _ _ _ _
    | now uid Ea Er Et _ _ _
    | uid Ea Er Et _ _ _
    | a now es Hf Ea Er Et _ _ _ _
    | id a r descr es Hl Hs Ea Er Et _ _ _ _
    | k t now Hk Ea Er Et _ _ _ ];
    unfold lifecycle_inv; rewrite Ea, Er, Et.
  - done.
  - done.
  - done.
  - (* a new alert *)
    pose proof Hf as (Hact & Hrs & _). split; [| split].
    + intros id b [[_ Hb] | [-> <-]]%lookup_snoc_Some.
      * by apply Ha.
      * rewrite Hrs. simpl.
        rewrite (Hn (length (alerts w))); [by repeat split; auto |].
        by apply lookup_ge_None.
    + intros id Hid. apply Hn. apply lookup_ge_None.
      apply lookup_ge_None in Hid. rewrite length_app in Hid. simpl in Hid. lia.
    + intros j t [[_ Hj] | [_ <-]]%lookup_snoc_Some; [by eapply Ht |].
      simpl. by apply pristine_newly_stored.
  - (* a response *)
    destruct (Ha id a Hl) as (Hempty & _ & Hg). specialize (Hempty Hs).
    pose proof (lookup_lt_Some _ _ _ Hl) as Hlt.
    split; [| split]; [| | done].
    + intros j b Hb. rewrite grants_app, grants_one, length_app.
      destruct (decide (id = j)) as [<- | Hne].
      * rewrite list_lookup_insert_eq in Hb by done. injection Hb as <-.
        simpl. rewrite Hg, Hempty. simpl. by repeat split; auto.
      * rewrite list_lookup_insert_ne in Hb by done.
        simpl. rewrite Nat.add_0_r. by apply Ha.
    + intros j Hj. rewrite grants_app, grants_one.
      destruct (decide (id = j)) as [<- | Hne].
      * apply lookup_ge_None in Hj. rewrite length_insert in Hj. lia.
      * rewrite list_lookup_insert_ne in Hj by done.
        rewrite (Hn j Hj). done.
  - (* the timer *)
    pose proof (Ht k t Hk) as Hp.
    destruct Hp as (Hp1 & Hp2 & Hp3 & Hp4 & Hp5).
    destruct (decide (status (fields (this t)) = active)); [| done].
    rewrite save_pristine by done.
    split; [| split].
    + intros j b Hb.
      destruct (decide (_id (this t) = j)) as [<- | Hne];
        [rewrite list_lookup_alter_eq in Hb
        | rewrite list_lookup_alter_ne in Hb by done; by apply Ha].
      apply fmap_Some in Hb as (a & Hl & ->).
      destruct (Ha _ a Hl) as (_ & ? & ?). by repeat split.
    + intros j Hj. apply Hn. apply lookup_ge_None.
      apply lookup_ge_None in Hj. by rewrite length_alter in Hj.
    + intros j t' [j' Hj]%lookup_delete_elem. by eapply Ht.
Qed.

Lemma run_invariant (P : World → Prop) :
  (∀ w ev, P w → P (step w ev)) → ∀ evs w, P w → P (run w evs).
Proof.
  intros Hstep evs. induction evs as [| ev evs IH]; intros w Hw; [done |].
  simpl. apply IH. by apply Hstep.
Qed.

Lemma reachable_lifecycle w : reachable w → lifecycle_inv w.
Proof.
  intros (us & evs & ->). apply run_invariant.
  - intros w ev. apply lifecycle_inv_effect, step_effect.
  - apply lifecycle_inv_init.
Qed.

End Invariants.

Section Respond.
Context {G : Geometry}.

(** ** Responding *)

Lemma post_respond_not_active now req_user id body w a :
  alerts w !! id = Some a → status a ≠ active →
  post_respond now req_user id body w
  = (Returned (json 400 false "Emergency alert is no longer active"), w).
Proof.
  intros Ha Hs. rewrite post_respond_cases, Ha.
  by destruct (decide (status a ≠ active)).
Qed.

Lemma on_emergency_response_not_active now socket id data w a :
  alerts w !! id = Some a → status a ≠ active →
  on_emergency_response now socket id data w
  = (Returned tt,
     with_outbox (outbox w ++ [error_event (sock_id socket)
                                 "Emergency alert not found or not active"]) w).
Proof.
  intros Ha Hs. rewrite on_emergency_response_cases, Ha.
  by destruct (decide (status a ≠ active)).
Qed.

Lemma post_respond_accepts now req_user id body w a :
  alerts w !! id = Some a → status a = active →
  is_Some (users w !! user a) →
  let r := mkResponder req_user now
             (or_string (in_message body) (Some "On my way to help"))
             (or_number (in_estimatedArrival body) 10) in
  post_respond now req_user id body w
  = (Returned (mkHttpResponse 200 true "Response sent successfully" (Some id)
                 (Some 50%Z) (Some responded) (Some (length (responders a ++ [r])))),
     with_users (alter inc_stats req_user (users w))
       (with_rewards
          (rewards w ++ [mkReward req_user "emergency_response" 50
                           ("Responded to " +:+ type a +:+ " emergency")
                           id "EmergencyAlert"])
          (with_alerts (<[id := respond_update r a]> (alerts w)) w))).
Proof.
  intros Ha Hs [u Hu]. cbv zeta. rewrite post_respond_cases, Ha, Hu.
  destruct (decide (status a ≠ active)); [done |].
  cbv zeta. by rewrite (alter_insert _ _ _ _ Ha).
Qed.

Lemma on_emergency_response_accepts now socket id data w a :
  alerts w !! id = Some a → status a = active →
  let r := mkResponder (userId socket) now (in_message data)
                       (in_estimatedArrival data) in
  ∃ es,
    on_emergency_response now socket id data w
    = (Returned tt,
       with_outbox (outbox w ++ es)
         (with_users (alter inc_stats (userId socket) (users w))
            (with_rewards
               (rewards w ++ [mkReward (userId socket) "emergency_response" 50
                                "Responded to emergency alert" id "EmergencyAlert"])
               (with_alerts (<[id := respond_update r a]> (alerts w)) w)))).
Proof.
  intros Ha Hs. cbv zeta. rewrite on_emergency_response_cases, Ha.
  destruct (decide (status a ≠ active)); [done |].
  cbv zeta. eexists. by rewrite (alter_insert _ _ _ _ Ha).
Qed.

End Respond.

Section Nearby.
Context {G : Geometry}.

(** ** findNearby *)

#[local] Instance nearer_total center : Total (nearer center).
Proof.
  intros u v. unfold nearer.
  destruct (Qlt_le_dec (distance_from center v) (distance_from center u)).
  - right. by apply Qlt_le_weak.
  - by left.
Qed.

#[local] Instance nearer_trans center : Transitive (nearer center).
Proof. intros u v x. unfold nearer. apply Qle_trans. Qed.

Lemma elem_of_findNearby lon lat maxDistance includeOffline coll uid u :
  (uid, u) ∈ findNearby lon lat maxDistance includeOffline coll
  ↔ coll !! uid = Some u
    ∧ (geoDistance (mkPoint lon lat None) (currentLocation u) <= maxDistance)%Q
    ∧ (includeOffline = true ∨ isOnline u = true).
Proof.
  unfold findNearby. rewrite merge_sort_Permutation, list_elem_of_filter.
  rewrite elem_of_map_to_list. unfold distance_from. simpl. tauto.
Qed.

Lemma findNearby_sorted lon lat maxDistance includeOffline coll :
  StronglySorted (nearer (mkPoint lon lat None))
                 (findNearby lon lat maxDistance includeOffline coll).
Proof. unfold findNearby. apply StronglySorted_merge_sort; apply _. Qed.

Lemma findNearby_NoDup lon lat maxDistance includeOffline coll :
  NoDup (findNearby lon lat maxDistance includeOffline coll).*1.
Proof.
  unfold findNearby. rewrite merge_sort_Permutation.
  eapply sublist_NoDup; [apply (NoDup_fst_map_to_list coll) |].
  apply fmap_sublist. apply sublist_filter.
Qed.

(** The filter of GET /nearby-users keeps every user: no [_id.toString()] is
    the ObjectId of the requester. *)
Lemma filter_requester req_user (l : list (UserId * User)) :
  filter (λ u : UserId * User, strict_equal (str u.1) (oid req_user) = false) l = l.
Proof.
  induction l as [| u l IH]; [done |].
  rewrite filter_cons_True by done. by rewrite IH.
Qed.

(** C8, where the code departs from it: GET /nearby-users answers with the
    result of [findNearby] as it is.  The filter that is to remove the
    requester compares a string with an ObjectId and removes nobody, so the
    requester is in the list whenever stored within the radius (and online,
    unless [includeOffline]).  The list holds only stored users within the
    radius, nearest first. *)
Theorem nearby_users_keeps_requester w req_user lon lat radius includeOffline :
  let center := mkPoint lon lat None in
  let maxDistance := inject_Z (default 10000%Z radius) in
  let found := findNearby lon lat maxDistance includeOffline (users w) in
  nearby_users req_user (mkNearbyQuery (Some lon) (Some lat) radius includeOffline) w
  = (Returned (mkNearbyResponse 200 found (length found)), w)
  ∧ (∀ u, users w !! req_user = Some u →
          (geoDistance center (currentLocation u) <= maxDistance)%Q →
          includeOffline = true ∨ isOnline u = true →
          (req_user, u) ∈ found)
  ∧ (∀ uid u, (uid, u) ∈ found →
       users w !! uid = Some u
       ∧ (geoDistance center (currentLocation u) <= maxDistance)%Q)
  ∧ StronglySorted
      (λ u v, (geoDistance center (currentLocation u.2)
               <= geoDistance center (currentLocation v.2))%Q) found.
Proof.
  intros center maxDistance found. split; [| split; [| split]].
  - unfold nearby_users. cbn [q_longitude q_latitude q_radius q_includeOffline].
    rewrite bind_gets. cbv zeta. fold maxDistance found.
    by rewrite filter_requester.
  - intros u Hu Hd Ho. apply elem_of_findNearby. auto.
  - intros uid u Hin.
    apply elem_of_findNearby in Hin as (? & ? & _). by split.
  - apply findNearby_sorted.
Qed.

Lemma omap_cons {A B} (f : A → option B) x (l : list A) :
  omap f (x :: l) = match f x with Some y => y :: omap f l | None => omap f l end.
Proof. reflexivity. Qed.

Lemma length_omap_le {A B} (f : A → option B) (l : list A) :
  (length (omap f l) ≤ length l)%nat.
Proof.
  induction l as [| x l IH]; [done |].
  rewrite omap_cons. destruct (f x); simpl; lia.
Qed.

Lemma length_omap_lt {A B} (f : A → option B) (l : list A) x :
  x ∈ l → f x = None → (length (omap f l) < length l)%nat.
Proof.
  induction l as [| y l IH]; [by intros ?%elem_of_nil |].
  intros [-> | Hin]%elem_of_cons Hx; rewrite omap_cons.
  - rewrite Hx. pose proof (length_omap_le f l). simpl. lia.
  - specialize (IH Hin Hx). destruct (f y); simpl; lia.
Qed.

Lemma push_for_is_push cu socket id alertData location lon lat u e :
  push_for cu socket id alertData location lon lat u = Some e →
  ∃ c, cu !! u.1 = Some c ∧ u.1 ≠ userId socket
       ∧ ∀ sid j, is_push sid j e ↔ socketId c = sid ∧ id = j.
Proof.
  unfold push_for. destruct (cu !! u.1) as [c |]; simpl; [| done].
  destruct (decide (u.1 ≠ userId socket)); [| done].
  intros [= <-]. exists c. split; [done |]. split; [done |].
  intros sid j. reflexivity.
Qed.

Lemma on_emergency_alert_accepts now socket alertData location lon lat a w :
  in_location alertData = Some location →
  in_longitude location = Some lon → in_latitude location = Some lat →
  validate now (mkNewAlert (userId socket) (in_type alertData) (in_severity alertData)
                  (Some lon) (Some lat) (in_address location)
                  (in_description alertData) []) = Some a →
  on_emergency_alert now socket alertData w
  = (Returned tt,
     with_outbox (outbox w ++ fanout w socket alertData location lon lat)
       (with_timers (timers w ++ [mkTimer (now + 30 * 60 * 1000)
                                    (mkDocument (length (alerts w)) a [] [])])
          (with_alerts (alerts w ++ [a]) w))).
Proof.
  intros Hloc Hlon Hlat Hval.
  unfold on_emergency_alert, try_catch. rewrite Hloc, Hlon, Hlat.
  erewrite bind_returned; [| unfold save_new; rewrite Hval; reflexivity].
  rewrite bind_gets. erewrite bind_returned by apply notify_nearby_spec.
  unfold scheduleAutoResolve. rewrite bind_modify. simpl.
  unfold fanout. by rewrite <- app_assoc.
Qed.

(** C10: when 'emergency-alert' stores its alert, what it emits is the
    pushes followed by 'emergency-alert-sent' with [notifiedUsers] the length of
    the result of [findNearby].  There are at most that many pushes, and fewer
    as soon as the result holds the sender or a user without an entry in
    [connectedUsers]; the sender is in the result when stored online within
    10 km of the point. *)
Theorem alert_sent_counts_query_result
    now socket alertData location lon lat a w :
  in_location alertData = Some location →
  in_longitude location = Some lon → in_latitude location = Some lat →
  validate now (mkNewAlert (userId socket) (in_type alertData) (in_severity alertData)
                  (Some lon) (Some lat) (in_address location)
                  (in_description alertData) []) = Some a →
  let nearbyUsers := findNearby lon lat 10000%Q false (users w) in
  let delivered :=
    omap (push_for (connectedUsers w) socket (length (alerts w)) alertData
                   location lon lat) nearbyUsers in
  outbox (on_emergency_alert now socket alertData w).2
  = outbox w ++ delivered
    ++ [emergency_alert_sent (sock_id socket) (length (alerts w)) (length nearbyUsers)]
  ∧ Forall (λ e, ¬ no_push e) delivered
  ∧ (length delivered ≤ length nearbyUsers)%nat
  ∧ (∀ u, u ∈ nearbyUsers →
       u.1 = userId socket ∨ connectedUsers w !! u.1 = None →
       (length delivered < length nearbyUsers)%nat)
  ∧ (∀ me, users w !! userId socket = Some me → isOnline me = true →
       (geoDistance (mkPoint lon lat None) (currentLocation me) <= 10000)%Q →
       (length delivered < length nearbyUsers)%nat).
Proof.
  intros Hloc Hlon Hlat Hval nearbyUsers delivered.
  rewrite (on_emergency_alert_accepts _ _ _ _ _ _ _ _ Hloc Hlon Hlat Hval).
  assert (∀ u, u ∈ nearbyUsers →
            u.1 = userId socket ∨ connectedUsers w !! u.1 = None →
            (length delivered < length nearbyUsers)%nat) as Hmiss.
  { intros u Hin Hu. eapply length_omap_lt; [exact Hin |].
    unfold push_for. destruct Hu as [Hu | ->]; [| done].
    destruct (connectedUsers w !! u.1); simpl; [| done].
    by destruct (decide (u.1 ≠ userId socket)). }
  split; [reflexivity |]. split; [| split; [| split]].
  - apply Forall_forall. intros e (u & Hin & He)%list_elem_of_omap.
    unfold push_for in He. destruct (connectedUsers w !! u.1); simpl in He; [| done].
    destruct (decide (u.1 ≠ userId socket)); [| done].
    injection He as <-. simpl. tauto.
  - apply length_omap_le.
  - exact Hmiss.
  - intros me Hme Hon Hd. apply (Hmiss (userId socket, me)); [| by left].
    apply elem_of_findNearby. auto.
Qed.

End Nearby.

Section Dispatch.
Context {G : Geometry}.

(** ** The dispatch invariant *)

Lemma pushes_app sid id es1 es2 :
  pushes sid id (es1 ++ es2) = pushes sid id es1 ++ pushes sid id es2.
Proof. apply filter_app. Qed.

Lemma pushes_no_push sid id es : Forall no_push es → pushes sid id es = [].
Proof.
  induction 1 as [| e es He _ IH]; [done |].
  unfold pushes. rewrite filter_cons_False; [exact IH |].
  destruct e; simpl in *; tauto.
Qed.

(** The pushes of one fan-out are about the alert just created. *)
Lemma pushes_other_alert cu socket id alertData location lon lat l sid j :
  id ≠ j →
  pushes sid j (omap (push_for cu socket id alertData location lon lat) l) = [].
Proof.
  intros Hne. induction l as [| u l IH]; [done |].
  rewrite omap_cons.
  destruct (push_for _ _ _ _ _ _ _ u) as [e |] eqn:He; [| done].
  apply push_for_is_push in He as (c & _ & _ & He).
  unfold pushes. rewrite filter_cons_False; [exact IH |].
  rewrite He. tauto.
Qed.

(** A user that is not in the list gets nothing from the loop. *)
Lemma pushes_absent cu socket id alertData location lon lat l uid c :
  (∀ u1 u2 c1 c2, cu !! u1 = Some c1 → cu !! u2 = Some c2 →
                  socketId c1 = socketId c2 → u1 = u2) →
  cu !! uid = Some c → uid ∉ l.*1 →
  pushes (socketId c) id (omap (push_for cu socket id alertData location lon lat) l) = [].
Proof.
  intros Hinj Hc. induction l as [| u l IH]; [done |].
  rewrite fmap_cons, not_elem_of_cons. intros [Hne Hnin].
  rewrite omap_cons.
  destruct (push_for _ _ _ _ _ _ _ u) as [e |] eqn:He; [| by apply IH].
  apply push_for_is_push in He as (c' & Hc' & _ & He).
  unfold pushes. rewrite filter_cons_False; [by apply IH |].
  rewrite He. intros [Hsid _]. apply Hne. symmetry. by eapply Hinj.
Qed.

(** One run of the loop over distinct users pushes at most once to a
    socket. *)
Lemma pushes_once cu socket id alertData location lon lat l sid j :
  (∀ u1 u2 c1 c2, cu !! u1 = Some c1 → cu !! u2 = Some c2 →
                  socketId c1 = socketId c2 → u1 = u2) →
  NoDup l.*1 →
  (length (pushes sid j (omap (push_for cu socket id alertData location lon lat) l))
   ≤ 1)%nat.
Proof.
  intros Hinj. induction l as [| u l IH]; [simpl; lia |].
  rewrite fmap_cons, NoDup_cons. intros [Hnin Hnd].
  rewrite omap_cons.
  destruct (push_for _ _ _ _ _ _ _ u) as [e |] eqn:He; [| by apply IH].
  apply push_for_is_push in He as (c & Hc & _ & He).
  unfold pushes. rewrite filter_cons.
  destruct (decide (is_push sid j e)) as [Hp | _]; [| by apply IH].
  apply He in Hp as [<- <-].
  fold (pushes (socketId c) id
          (omap (push_for cu socket id alertData location lon lat) l)).
  by rewrite (pushes_absent _ _ _ _ _ _ _ _ _ _ Hinj Hc Hnin).
Qed.

Lemma pushes_fanout w socket alertData location lon lat sid j :
  (∀ u1 u2 c1 c2, connectedUsers w !! u1 = Some c1 →
     connectedUsers w !! u2 = Some c2 → socketId c1 = socketId c2 → u1 = u2) →
  (length (pushes sid j (fanout w socket alertData location lon lat)) ≤ 1)%nat
  ∧ (length (alerts w) ≠ j →
     pushes sid j (fanout w socket alertData location lon lat) = []).
Proof.
  intros Hinj. unfold fanout. rewrite pushes_app.
  rewrite (pushes_no_push _ _ [_]) by (by repeat constructor).
  rewrite app_nil_r. split.
  - apply pushes_once; [done |]. apply findNearby_NoDup.
  - intros Hne. by apply pushes_other_alert.
Qed.

Lemma dispatch_inv_init us : dispatch_inv (init us).
Proof.
  repeat split; intros; simpl in *; try done; try lia.
Qed.

Lemma dispatch_inv_effect w w' : effect w w' → dispatch_inv w → dispatch_inv w'.
Proof.
  intros He (Hlt & Hinj & Hfut & Hone).
  destruct He as
    [ es Ea _ _ Ec En Eo Hes
    | now uid Ea _ _ Ec En Eo
    | uid Ea _ _ Ec En Eo
    | a now es _ Ea _ _ Ec En Eo Hes
    | id a r descr es Hl _ Ea _ _ Ec En Eo Hes
    | k t now _ Ea _ _ Ec En Eo ];
    unfold dispatch_inv; rewrite Ec, En, Eo.
  - rewrite Ea. repeat split; try done; intros sid id;
      rewrite pushes_app, (pushes_no_push _ _ es Hes), app_nil_r; auto.
  - (* a connection *)
    rewrite Ea. repeat split; try done.
    + intros u c. rewrite lookup_insert.
      destruct (decide (uid = u)) as [<- |].
      * intros [= <-]. simpl. lia.
      * intros Hc%Hlt. lia.
    + intros u1 u2 c1 c2. rewrite !lookup_insert.
      destruct (decide (uid = u1)) as [<- |], (decide (uid = u2)) as [<- |];
        try done.
      * intros [= <-] Hc2%Hlt. simpl. lia.
      * intros Hc1%Hlt [= <-]. simpl. lia.
      * apply Hinj.
  - (* a disconnection *)
    rewrite Ea. repeat split; try done.
    + intros u c [_ Hc]%lookup_delete_Some. by eapply Hlt.
    + intros u1 u2 c1 c2 [_ H1]%lookup_delete_Some [_ H2]%lookup_delete_Some.
      by eapply Hinj.
  - (* a new alert *)
    rewrite Ea. repeat split; try done.
    + intros sid id. rewrite length_app. simpl. intros Hid.
      rewrite pushes_app, Hfut by lia.
      destruct Hes as [-> | (socket & alertData & location & lon & lat & ->)];
        [done |].
      apply (pushes_fanout w socket alertData location lon lat sid id Hinj). lia.
    + intros sid id. rewrite pushes_app, length_app.
      destruct Hes as [-> | (socket & alertData & location & lon & lat & ->)].
      * simpl. rewrite Nat.add_0_r. apply Hone.
      * destruct (pushes_fanout w socket alertData location lon lat sid id Hinj)
          as (Hle & Hnil).
        destruct (decide (length (alerts w) = id)) as [<- | Hne].
        -- rewrite Hfut by done. exact Hle.
        -- rewrite (Hnil Hne). simpl. rewrite Nat.add_0_r. apply Hone.
  - (* a response *)
    rewrite Ea, length_insert. repeat split; try done; intros sid j;
      rewrite pushes_app, (pushes_no_push _ _ es Hes), app_nil_r; auto.
  - (* the timer *)
    assert (length (alerts w') = length (alerts w)) as ->.
    { rewrite Ea. destruct (decide _); [| done].
      unfold save. simpl. apply length_alter. }
    by repeat split.
Qed.

Lemma reachable_dispatch w : reachable w → dispatch_inv w.
Proof.
  intros (us & evs & ->). apply run_invariant.
  - intros w ev. apply dispatch_inv_effect, step_effect.
  - apply dispatch_inv_init.
Qed.

(** C6: along every run of the server at most one 'emergency-alert' push is
    delivered for one alert to one socket, the connection of a candidate.
    The only fan-out of an alert is the loop of the handler that has just
    stored it: it runs once, over a query result without duplicate users,
    whose connections have distinct socket ids, and no handler runs it again
    for a stored alert. *)
Theorem one_push_per_alert_and_socket w :
  reachable w →
  ∀ sid id, (length (pushes sid id (outbox w)) ≤ 1)%nat.
Proof. intros Hreach. by destruct (reachable_dispatch w Hreach) as (_ & _ & _ & ?). Qed.

End Dispatch.

Section Lifecycle.
Context {G : Geometry}.

(** C3, as amended: for every alert whose status is 'responded' and every
    user, Respond is rejected on both entry points.  POST /respond answers 400
    "Emergency alert is no longer active" and the socket handler emits the
    error "Emergency alert not found or not active"; the world is unchanged
    but for that emit, so no responder is appended and the status stays
    'responded'. *)
Theorem respond_on_responded_rejected w id a :
  alerts w !! id = Some a → status a = responded →
  (∀ now req_user body,
     post_respond now req_user id body w
     = (Returned (json 400 false "Emergency alert is no longer active"), w))
  ∧ (∀ now socket data,
       on_emergency_response now socket id data w
       = (Returned tt,
          with_outbox (outbox w ++ [error_event (sock_id socket)
                                      "Emergency alert not found or not active"]) w)).
Proof.
  intros Ha Hs. split; intros.
  - eapply post_respond_not_active; [done |]. by rewrite Hs.
  - eapply on_emergency_response_not_active; [done |]. by rewrite Hs.
Qed.

End Lifecycle.

Lemma alert_created_reachable : reachable (G:=flat) alert_created.
Proof. by exists riders, [PostAlert quiet 0 "R" medical]. Qed.

Lemma first_response_reachable : reachable (G:=flat) first_response.
Proof.
  by exists riders, [PostAlert quiet 0 "R" medical; PostRespond minute "A" 0 on_my_way].
Qed.

(** C3 fails as stated: B, neither reporter nor responder of the responded
    alert, is turned away. *)
Lemma respond_on_responded_counterexample :
  ¬ (∀ (w : World) now req_user id body a,
       alerts w !! id = Some a → status a = responded →
       req_user ≠ user a → responded_by req_user a = false →
       ∃ resp w' a',
         post_respond now req_user id body w = (Returned resp, w')
         ∧ success resp = true
         ∧ alerts w' !! id = Some a'
         ∧ length (responders a') = S (length (responders a))
         ∧ status a' = responded).
Proof.
  intros H.
  destruct (H first_response (2 * minute)%Z "B" 0%nat on_my_way
              (mkAlert "R" "medical" "high" (mkPoint 77.59 12.97 None) None responded
                 [mkResponder "A" minute (Some "On my way to help") (Some 10%Z)]
                 [] false None None 0))
    as (resp & w' & a' & E & Hok & _); try done.
  vm_compute in E. injection E as <- _. discriminate Hok.
Qed.

(** At the alert A responded to, B is answered "no longer active". *)
Lemma respond_on_responded_rejected_witness :
  post_respond (2 * minute) "B" 0 on_my_way first_response
  = (Returned (json 400 false "Emergency alert is no longer active"), first_response).
Proof.
  refine (proj1 (respond_on_responded_rejected first_response 0
     (mkAlert "R" "medical" "high" (mkPoint 77.59 12.97 None) None responded
        [mkResponder "A" minute (Some "On my way to help") (Some 10%Z)]
        [] false None None 0) _ _) _ _ _); reflexivity.
Defined.

(** C7 fails as stated: the second response of A is answered "no longer
    active", not "already responded". *)
Lemma repeated_response_counterexample :
  ¬ (∀ (w : World) now uid id body a,
       reachable (G:=flat) w → alerts w !! id = Some a →
       responded_by uid a = true →
       (post_respond now uid id body w).1
       = Returned (json 400 false "You have already responded to this alert")).
Proof.
  intros H.
  specialize (H first_response (2 * minute)%Z "A" 0%nat on_my_way
              (mkAlert "R" "medical" "high" (mkPoint 77.59 12.97 None) None responded
                 [mkResponder "A" minute (Some "On my way to help") (Some 10%Z)]
                 [] false None None 0)
              first_response_reachable eq_refl eq_refl).
  vm_compute in H. discriminate H.
Qed.

Section Create.
Context {G : Geometry}.

(** POST /alert turns a second report down. *)
Lemma post_alert_rejects_duplicate env now req_user body l w i a :
  truthy_string (in_type body) = true →
  in_location body = Some l →
  truthy_number (in_latitude l) = true → truthy_number (in_longitude l) = true →
  alerts w !! i = Some a → user a = req_user → status a = active →
  (now - 5 * 60 * 1000 ≤ createdAt a)%Z →
  post_alert env now req_user body w
  = (Returned (json 400 false "You already have an active emergency alert"), w).
Proof.
  intros Hty Hloc Hlat Hlon Ha Hu Hs Ht.
  unfold post_alert. rewrite Hloc, Hty, Hlat, Hlon. simpl.
  unfold try_catch. rewrite bind_gets.
  destruct (findRecentActive _ _ _) as [found |] eqn:Hf; [done |].
  apply list_find_None in Hf.
  eapply Forall_forall in Hf; [| by eapply list_elem_of_lookup_2].
  by destruct Hf.
Qed.

(** In a reachable world a due timer writes its three paths whatever the
    stored status is. *)
Lemma timer_overwrites w k t now a :
  reachable w → timers w !! k = Some t → (due t ≤ now)%Z →
  alerts w !! _id (this t) = Some a →
  alerts (timer_fired now k w).2 !! _id (this t) = Some (auto_update now a).
Proof.
  intros Hreach Hk Hdue Ha.
  destruct (reachable_lifecycle w Hreach) as (_ & _ & Ht).
  pose proof (Ht k t Hk) as Hp. pose proof Hp as (_ & _ & Hs & _).
  unfold timer_fired. rewrite Hk.
  destruct (decide (due t ≤ now)%Z); [| done].
  unfold autoResolve. destruct (decide _); [| done].
  rewrite bind_save_doc.
  change (alerts (with_timers (delete k (timers w)) w)) with (alerts w).
  fold (auto_document now (this t)). rewrite save_pristine by done.
  unfold mret, M_ret. cbn [snd alerts with_alerts].
  by rewrite list_lookup_alter_eq, Ha.
Qed.

End Create.

(** C1, at a failing input: the socket entry point stores a second active alert of the same
    reporter one minute after the first, where POST /alert answers 400. *)
Theorem socket_alert_skips_duplicate_check :
  (post_alert quiet minute "R" medical reported).1
  = Returned (json 400 false "You already have an active emergency alert")
  ∧ alerts reported = [the_alert active [] false None None]
  ∧ alerts (step (G:=flat) reported (SocketAlert minute (mkSocket 0 "R") medical))
    = [the_alert active [] false None None;
       mkAlert "R" "medical" "high" (mkPoint 77.59 12.97 None) None active [] []
               false None None minute]
  ∧ last (outbox (step (G:=flat) reported (SocketAlert minute (mkSocket 0 "R") medical)))
    = Some (emergency_alert_sent 0 1 3).
Proof. vm_compute. by repeat split. Qed.

(** After R's 'emergency-alert' the socket of A holds one push for it. *)
Lemma one_push_per_alert_and_socket_witness :
  (length (pushes 1 0
     (outbox (run (G:=flat) all_connected [SocketAlert minute (mkSocket 0 "R") medical])))
   ≤ 1)%nat.
Proof.
  refine (one_push_per_alert_and_socket (G:=flat) _ _ 1%nat 0%nat).
  exists riders, [Connect 0 "R"; Connect 0 "A"; Connect 0 "B"; Connect 0 "F";
                  SocketAlert minute (mkSocket 0 "R") medical].
  reflexivity.
Defined.

(** What R's 'emergency-alert' emits with the four riders connected. *)
Lemma alert_sent_counts_query_result_witness :
  outbox (on_emergency_alert (G:=flat) minute (mkSocket 0 "R") medical all_connected).2
  = outbox all_connected
    ++ omap (push_for (G:=flat) (connectedUsers all_connected) (mkSocket 0 "R")
               (length (alerts all_connected)) medical here 77.59%Q 12.97%Q)
            (findNearby (G:=flat) 77.59%Q 12.97%Q 10000%Q false (users all_connected))
    ++ [emergency_alert_sent 0 (length (alerts all_connected))
          (length (findNearby (G:=flat) 77.59%Q 12.97%Q 10000%Q false
                     (users all_connected)))].
Proof.
  refine (proj1 (alert_sent_counts_query_result (G:=flat) minute (mkSocket 0 "R")
     medical here 77.59%Q 12.97%Q
     (mkAlert "R" "medical" "high" (mkPoint 77.59 12.97 None) None active [] []
              false None None minute)
     all_connected _ _ _ _)); reflexivity.
Defined.

(** The reporter is counted, the riders out of range are not: three users
    found, two pushes, nearest first. *)
Example fanout_example :
  outbox (on_emergency_alert (G:=flat) minute (mkSocket 0 "R") medical all_connected).2
  = [emergency_alert 1 0 (Some "medical") (Some "high") here None "R" 1110;
     emergency_alert 2 0 (Some "medical") (Some "high") here None "R" 3330;
     emergency_alert_sent 0 0 3].
Proof. vm_compute. reflexivity. Qed.

Example nearby_users_example :
  (nr_users <$> (match (nearby_users (G:=flat) "R"
                    (mkNearbyQuery (Some 77.59%Q) (Some 12.97%Q) None false)
                    all_connected).1 with
                 | Returned r => Some r | Thrown _ => None end))
  = Some [("R", set_online true 0 (rider "Reporter" 77.59 12.97 true));
          ("A", set_online true 0 (rider "Asha" 77.60 12.97 true));
          ("B", set_online true 0 (rider "Bala" 77.59 13.00 true))].
Proof. vm_compute. reflexivity. Qed.

(** * Properties of the rest *)

Section Details.
Context {G : Geometry}.

(** ** The users and the ledger, step by step *)

Lemma keeps_stats_id : keeps_stats (λ u, u).
Proof. by intros u. Qed.

Lemma alter_same (f : User → User) uid (us : gmap string User) :
  (∀ u, f u = u) → us = alter f uid us.
Proof. intros Hf. symmetry. apply alter_id. intros u _. apply Hf. Qed.

Ltac quiet :=
  apply (d_quiet _ _ (λ u, u) "");
  [ apply keeps_stats_id
  | by apply alter_same
  | reflexivity
  | first [ reflexivity | simpl; by rewrite ?length_insert, ?length_alter ]
  | first [ by left | right; by eexists ] ].

Lemma on_connection_detail now uid w : detail w (on_connection now uid w).2.
Proof. apply (d_quiet _ _ (set_online true now) uid); try done. by left. Qed.

Lemma on_disconnect_detail now socket w : detail w (on_disconnect now socket w).2.
Proof.
  apply (d_quiet _ _ (set_online false now) (userId socket)); try done. by left.
Qed.

Lemma on_location_update_detail socket l timestamp w :
  detail w (on_location_update socket l timestamp w).2.
Proof.
  rewrite on_location_update_cases. cbv zeta.
  destruct l as [[[lat |] [lon |] addr] |]; try quiet.
  destruct (_ && _); [| quiet].
  destruct timestamp; [| quiet].
  apply (d_quiet _ _ (set_location (mkPoint lon lat addr)) (userId socket));
    try done. by left.
Qed.

Lemma post_alert_detail env now req_user body w :
  detail w (post_alert env now req_user body w).2.
Proof.
  unfold post_alert.
  destruct (negb (truthy_string (in_type body)) || _); [quiet |].
  unfold try_catch at 1. rewrite bind_gets.
  destruct (findRecentActive _ _ _); [quiet |].
  match goal with |- context [(?m ≫= _) w] =>
    assert (∃ hs lg, m w = (Returned hs, with_console (console w ++ lg) w))
      as (hs & lg & Eh) end.
  { destruct (_ || _); [apply findNearbyHospitals_safe | apply safe_ret]. }
  rewrite (bind_returned _ _ _ _ _ Eh).
  unfold save_new at 1.
  destruct (validate now _) as [a |] eqn:Hval.
  - erewrite bind_returned by reflexivity.
    unfold scheduleAutoResolve. rewrite bind_modify, bind_detached.
    match goal with |- context [try_catch ?m ?h ?w0] =>
      destruct (safe_try_catch m h
                  (safe_mayfail _ (notifyContacts_safe env _))
                  (λ _, safe_log _) w0) as ([] & lg2 & ->) end.
    simpl. by eapply (d_created _ _ now _ a).
  - erewrite bind_thrown by reflexivity. simpl. quiet.
Qed.

Lemma on_emergency_alert_detail now socket alertData w :
  detail w (on_emergency_alert now socket alertData w).2.
Proof.
  unfold on_emergency_alert, try_catch.
  destruct (in_location alertData) as [location |]; simpl; [| quiet].
  unfold save_new at 1.
  destruct (validate now _) as [a |] eqn:Hval.
  - erewrite bind_returned by reflexivity.
    destruct (in_longitude location) as [lon |] eqn:Hlon,
             (in_latitude location) as [lat |] eqn:Hlat;
      try (unfold validate in Hval; simpl in Hval; rewrite ?Hlon, ?Hlat in Hval;
           simpl in Hval; by destruct (in_type alertData)).
    rewrite bind_gets. erewrite bind_returned by apply notify_nearby_spec.
    unfold scheduleAutoResolve. rewrite bind_modify. simpl.
    by eapply (d_created _ _ now _ a).
  - erewrite bind_thrown by reflexivity. simpl. quiet.
Qed.

Lemma post_respond_detail now req_user id body w :
  detail w (post_respond now req_user id body w).2.
Proof.
  rewrite post_respond_cases.
  destruct (alerts w !! id) as [a |] eqn:Ha; [| quiet].
  destruct (decide (status a ≠ active)) as [| Hs%dec_stable]; [quiet |].
  destruct (users w !! user a); [| quiet].
  cbv zeta. eapply (d_granted _ _ req_user id); try reflexivity.
  - right. by exists a.
  - simpl. by rewrite length_alter.
Qed.

Lemma on_emergency_response_detail now socket id data w :
  detail w (on_emergency_response now socket id data w).2.
Proof.
  rewrite on_emergency_response_cases.
  destruct (alerts w !! id) as [a |] eqn:Ha; [| quiet].
  destruct (decide (status a ≠ active)) as [| Hs%dec_stable]; [quiet |].
  cbv zeta. eapply (d_granted _ _ (userId socket) id); try reflexivity.
  - by left.
  - simpl. by rewrite length_alter.
Qed.

Lemma put_resolve_detail now req_user id w :
  detail w (put_resolve now req_user id w).2.
Proof.
  rewrite put_resolve_refuses. quiet.
Qed.

Lemma timer_fired_detail now k w : detail w (timer_fired now k w).2.
Proof.
  unfold timer_fired.
  destruct (timers w !! k) as [t |] eqn:Ht; [| quiet].
  destruct (decide (due t ≤ now)%Z); [| quiet].
  unfold autoResolve.
  destruct (decide (status (fields (this t)) = active)) as [Hs | Hs].
  - rewrite bind_save_doc. unfold save. simpl. quiet.
  - simpl. quiet.
Qed.

Lemma step_detail w ev : detail w (step w ev).
Proof.
  destruct ev; simpl.
  - apply on_connection_detail.
  - apply on_disconnect_detail.
  - apply on_location_update_detail.
  - apply post_alert_detail.
  - apply on_emergency_alert_detail.
  - apply post_respond_detail.
  - apply on_emergency_response_detail.
  - apply put_resolve_detail.
  - apply timer_fired_detail.
Qed.

End Details.

(** ** What becomes of a stored alert *)

Lemma grows_from_refl a : grows_from a a.
Proof. by split. Qed.

Lemma grows_from_trans a b c : grows_from a b → grows_from b c → grows_from a c.
Proof.
  intros [(? & ? & ? & ? & ? & ? & ?) ?] [(? & ? & ? & ? & ? & ? & ?) ?].
  split; [| by etrans].
  repeat split; congruence.
Qed.

Lemma write_path_grows mem p a :
  same_report a (write_path mem p a)
  ∧ responders (write_path mem p a) = responders a.
Proof. by destruct p. Qed.

Lemma apply_update_grows d a : grows_from a (apply_update d a).
Proof.
  unfold apply_update.
  assert (same_report a (foldr (write_path (fields d)) a (modified d))
          ∧ responders (foldr (write_path (fields d)) a (modified d))
            = responders a) as [Hs Hr].
  { induction (modified d) as [| p ps [IHs IHr]]; [done |]. simpl.
    destruct (write_path_grows (fields d) p
                (foldr (write_path (fields d)) a ps)) as [Hs Hr].
    split; [| congruence].
    destruct IHs as (? & ? & ? & ? & ? & ? & ?), Hs as (? & ? & ? & ? & ? & ? & ?).
    repeat split; congruence. }
  split; [done |]. simpl. rewrite Hr. by apply prefix_app_r.
Qed.

Section Records.
Context {G : Geometry}.

Lemma effect_keeps w w' id a :
  effect w w' → alerts w !! id = Some a →
  ∃ a', alerts w' !! id = Some a' ∧ grows_from a a'.
Proof.
  intros He Ha.
  destruct He as [es Hal | now uid Hal | uid Hal | a0 now es _ Hal
                 | id0 a0 r descr es H0 _ Hal | k t now _ Hal]; rewrite Hal.
  - exists a. split; [done | apply grows_from_refl].
  - exists a. split; [done | apply grows_from_refl].
  - exists a. split; [done | apply grows_from_refl].
  - exists a. split; [| apply grows_from_refl].
    rewrite lookup_app_l; [done |]. by eapply lookup_lt_Some.
  - destruct (decide (id0 = id)) as [-> |].
    + assert (a0 = a) as -> by congruence.
      exists (respond_update r a).
      rewrite list_lookup_insert_eq by (by eapply lookup_lt_Some).
      split; [done |]. split; [done |]. simpl. by apply prefix_app_r.
    + exists a. rewrite list_lookup_insert_ne by done.
      split; [done | apply grows_from_refl].
  - destruct (decide _).
    + unfold save. simpl.
      destruct (decide (_id (auto_document now (this t)) = id)) as [-> |].
      * rewrite list_lookup_alter_eq, Ha. eexists. split; [done |].
        apply apply_update_grows.
      * rewrite list_lookup_alter_ne by done.
        exists a. split; [done | apply grows_from_refl].
    + exists a. split; [done | apply grows_from_refl].
Qed.

Lemma auto_document_id now d : _id (auto_document now d) = _id d.
Proof.
  unfold auto_document, set_resolvedAt, set_autoResolved, set_status.
  repeat (destruct (decide _); simpl); done.
Qed.

Lemma effect_origin w w' id a' :
  (∀ k t, timers w !! k = Some t → pristine (this t)) →
  effect w w' → alerts w' !! id = Some a' → origin w id a'.
Proof.
  intros Hp He Ha.
  destruct He as [es Hal | now uid Hal | uid Hal | a0 now es Hn Hal
                 | id0 a0 r descr es H0 Hs Hal | k t now Hk Hal]; rewrite Hal in Ha.
  - by apply o_same.
  - by apply o_same.
  - by apply o_same.
  - apply lookup_snoc_Some in Ha as [[_ Ha] | [-> <-]];
      [by apply o_same | by apply o_new].
  - destruct (decide (id0 = id)) as [-> |].
    + rewrite list_lookup_insert_eq in Ha by (by eapply lookup_lt_Some).
      injection Ha as <-. by eapply o_respond.
    + rewrite list_lookup_insert_ne in Ha by done. by apply o_same.
  - destruct (decide _); [| by apply o_same].
    rewrite (save_pristine _ _ _ (Hp _ _ Hk)) in Ha.
    destruct (decide (_id (this t) = id)) as [<- |].
    + rewrite list_lookup_alter_eq in Ha.
      apply fmap_Some in Ha as (a & Ha & ->). by eapply o_auto.
    + rewrite list_lookup_alter_ne in Ha by done. by apply o_same.
Qed.

End Records.

Section More_invariants.
Context {G : Geometry}.

(** ** The schema *)

Lemma validate_well_formed now n a :
  validate now n = Some a → well_formed a ∧ createdAt a = now ∧ user a = n_user n.
Proof.
  unfold validate. intros H.
  destruct (n_type n) as [ty |]; [| done].
  destruct (n_longitude n) as [lon |]; [| done].
  destruct (n_latitude n) as [lat |]; [| done]. simpl in H.
  destruct (bool_decide (ty ∈ type_enum)) eqn:H1; [| done].
  destruct (bool_decide (default "medium" (n_severity n) ∈ severity_enum))
    eqn:H2; [| done].
  destruct (bool_decide (_ ≤ 500)%nat) eqn:H3; [| done].
  apply bool_decide_eq_true in H1, H2, H3.
  simpl in H. injection H as <-. by repeat split.
Qed.

Lemma well_formed_same a a' : same_report a a' → well_formed a → well_formed a'.
Proof.
  intros (_ & Ht & Hs & _ & Hd & _) (? & ? & ?).
  unfold well_formed. by rewrite Ht, Hs, Hd.
Qed.

Lemma created_alert w ev a' :
  alerts (step w ev) !! length (alerts w) = Some a' →
  ∃ now n, validate now n = Some a'
    ∧ timers (step w ev)
      = timers w ++ [mkTimer (now + 30 * 60 * 1000)
                             (mkDocument (length (alerts w)) a' [] [])].
Proof.
  intros Ha.
  destruct (step_detail w ev) as [f uid _ _ _ Hl _ | now n a Hv Hal Ht _ _
                                  | uid id descr _ _ _ Hl _].
  - apply lookup_lt_Some in Ha. lia.
  - rewrite Hal, lookup_app_r, Nat.sub_diag in Ha by done.
    injection Ha as ->. by exists now, n.
  - apply lookup_lt_Some in Ha. lia.
Qed.

Lemma schema_inv_init us : schema_inv (init us).
Proof. intros id a H. simpl in H. by rewrite lookup_nil in H. Qed.

Lemma schema_inv_step w ev :
  lifecycle_inv w → schema_inv w → schema_inv (step w ev).
Proof.
  intros Hl Hs id a' Ha'.
  destruct (effect_origin w _ id a' (proj2 (proj2 Hl)) (step_effect w ev) Ha')
    as [Ha | -> (Hst & Hrs & _) | a r Ha Hst -> | a now Ha ->].
  - by apply Hs in Ha.
  - apply created_alert in Ha' as (now & n & Hv & _).
    apply validate_well_formed in Hv as [Hv _].
    split; [done |]. rewrite Hst. by split.
  - destruct (Hs _ _ Ha) as (Hw & _). destruct Hl as (Hl & _).
    destruct (Hl _ _ Ha) as (Hr & _).
    split; [by eapply well_formed_same; [| apply Hw] |]. split; [done |].
    intros _. simpl. rewrite Hr by done. done.
  - destruct (Hs _ _ Ha) as (Hw & _).
    split; [by eapply well_formed_same; [| apply Hw] |]. by split.
Qed.

(** ** The timers *)

Lemma schedule_inv_init us : schedule_inv (init us).
Proof.
  split; [| constructor]. intros k t H. simpl in H. by rewrite lookup_nil in H.
Qed.

Lemma schedule_inv_step w ev : schedule_inv w → schedule_inv (step w ev).
Proof.
  intros [Ht Hn].
  assert (∀ t, t ∈ timers w →
            ∃ a, alerts (step w ev) !! _id (this t) = Some a
                 ∧ due t = (createdAt a + 30 * 60 * 1000)%Z) as Hold.
  { intros t (k & Hk)%list_elem_of_lookup_1.
    destruct (Ht _ _ Hk) as (a & Ha & Hd).
    destruct (effect_keeps _ _ _ _ (step_effect w ev) Ha)
      as (a' & Ha' & (_ & _ & _ & _ & _ & _ & Hc) & _).
    exists a'. split; [done |]. by rewrite Hc. }
  unfold schedule_inv.
  destruct (step_detail w ev) as [f uid _ _ _ _ [Htm | [k Htm]]
                                  | now n a Hv Hal Htm _ _
                                  | uid id descr _ _ _ _ Htm]; rewrite Htm.
  - split; [| done]. intros k t Hk. apply Hold. by eapply list_elem_of_lookup_2.
  - split.
    + intros j t Hj. apply Hold.
      eapply elem_of_sublist; [| apply sublist_delete].
      by eapply list_elem_of_lookup_2.
    + eapply sublist_NoDup; [done |]. apply fmap_sublist, sublist_delete.
  - split.
    + intros j t [[_ Hj] | [_ <-]]%lookup_snoc_Some.
      * apply Hold. by eapply list_elem_of_lookup_2.
      * exists a. simpl. rewrite Hal, lookup_app_r, Nat.sub_diag by done.
        split; [done |]. apply validate_well_formed in Hv as (_ & -> & _). done.
    + rewrite fmap_app. simpl. apply NoDup_app. split; [done |].
      split; [| apply NoDup_singleton].
      intros i (t & Hi & (k & Hk)%list_elem_of_lookup_1)%list_elem_of_fmap
             Hi'%list_elem_of_singleton.
      destruct (Ht _ _ Hk) as (a0 & Ha0 & _).
      apply lookup_lt_Some in Ha0. simpl in Hi. lia.
  - split; [| done]. intros k t Hk. apply Hold. by eapply list_elem_of_lookup_2.
Qed.

End More_invariants.

Section Ledger.
Context {G : Geometry}.

(** ** The ledger *)

Lemma ledger_inv_init us : ledger_inv (init us).
Proof. intros r H. simpl in H. by apply elem_of_nil in H. Qed.

Lemma ledger_inv_step w ev :
  schema_inv w → ledger_inv w → ledger_inv (step w ev).
Proof.
  intros Hs Hl r Hr.
  assert (r ∈ rewards w →
          activityType r = "emergency_response" ∧ points r = 50%Z
          ∧ relatedModel r = "EmergencyAlert"
          ∧ (rw_description r = "Responded to emergency alert"
             ∨ ∃ ty, ty ∈ type_enum
                 ∧ rw_description r = "Responded to " +:+ ty +:+ " emergency")
          ∧ ∃ a, alerts (step w ev) !! relatedActivity r = Some a
                 ∧ rw_user r ∈ r_user <$> responders a) as Hold.
  { intros Hin. destruct (Hl r Hin) as (? & ? & ? & ? & a & Ha & Hu).
    do 4 (split; [done |]).
    destruct (effect_keeps _ _ _ _ (step_effect w ev) Ha) as (a' & Ha' & _ & Hp).
    exists a'. split; [done |].
    destruct Hp as [k ->]. rewrite fmap_app. apply elem_of_app. by left. }
  destruct (step_effect w ev) as [es _ Hrw | now uid _ Hrw | uid _ Hrw
                 | a0 now es _ _ Hrw
                 | id0 a0 r0 descr es H0 _ Hal Hrw
                 | k t now _ _ Hrw]; rewrite Hrw in Hr; try by apply Hold.
  apply elem_of_app in Hr as [Hr | ->%list_elem_of_singleton]; [by apply Hold |].
  simpl. do 3 (split; [done |]). split.
  - destruct (step_detail w ev) as [f uid _ _ Hrw' _ _ | now n a _ _ _ _ Hrw'
                                    | uid id descr' Hd _ Hrw' _ _];
      rewrite Hrw in Hrw'.
    + apply (f_equal length) in Hrw'. rewrite length_app in Hrw'. simpl in Hrw'. lia.
    + apply (f_equal length) in Hrw'. rewrite length_app in Hrw'. simpl in Hrw'. lia.
    + apply app_inj_tail in Hrw' as [_ [= _ -> ->]].
      destruct Hd as [-> | (a & Ha & ->)]; [by left | right].
      exists (type a). split; [| done]. by destruct (Hs _ _ Ha) as ((? & _) & _).
  - exists (respond_update r0 a0). rewrite Hal.
    rewrite list_lookup_insert_eq by (by eapply lookup_lt_Some).
    split; [done |]. simpl. rewrite fmap_app. apply elem_of_app. right.
    simpl. apply list_elem_of_singleton. done.
Qed.

(** ** The statistics *)

Lemma earned_by_snoc uid rs r :
  earned_by uid (rs ++ [r])
  = earned_by uid rs ++ (if decide (rw_user r = uid) then [r] else []).
Proof.
  unfold earned_by. rewrite filter_app. f_equal.
Qed.

Lemma stats_inv_init us : stats_inv us (init us).
Proof.
  intros uid. simpl. destruct (us !! uid) as [u0 |]; [| done].
  repeat split; lia.
Qed.

Lemma stats_inv_step us w ev : stats_inv us w → stats_inv us (step w ev).
Proof.
  intros Hi uid. specialize (Hi uid).
  destruct (step_detail w ev) as [f uid' Hf Hu Hrw _ _ | now n a _ _ _ Hu Hrw
                                  | uid' id descr _ Hu Hrw _ _];
    rewrite Hu, Hrw.
  - destruct (decide (uid' = uid)) as [-> |].
    + rewrite lookup_alter_eq.
      destruct (us !! uid) as [u0 |], (users w !! uid) as [u |]; simpl; try done.
      destruct (Hf u) as (-> & -> & -> & ->). done.
    + by rewrite lookup_alter_ne.
  - done.
  - rewrite earned_by_snoc. simpl.
    destruct (decide (uid' = uid)) as [-> | Hne].
    + rewrite lookup_alter_eq.
      destruct (us !! uid) as [u0 |], (users w !! uid) as [u |]; simpl; try done.
      rewrite length_app. simpl.
      destruct Hi as (-> & -> & -> & ->). repeat split; lia.
    + rewrite lookup_alter_ne by done. by rewrite app_nil_r.
Qed.

End Ledger.

Section Overlap.
Context {G : Geometry}.

(** ** The states the server can be in, overlaps included *)

Lemma irun_invariant (P : Config → Prop) :
  (∀ c s, P c → P (istep c s)) → ∀ ss c, P c → P (irun c ss).
Proof.
  intros Hstep ss. induction ss as [| s ss IH]; intros c Hc; [done |].
  simpl. apply IH. by apply Hstep.
Qed.

Lemma ireachable_irun c ss : ireachable c → ireachable (irun c ss).
Proof.
  intros (us & ss0 & ->). exists us, (ss0 ++ ss). unfold irun. by rewrite foldl_app.
Qed.

Lemma irun_whole w ps evs : irun (w, ps) (Whole <$> evs) = (run w evs, ps).
Proof.
  revert w. induction evs as [| ev evs IH]; intros w; [done |]. simpl. apply IH.
Qed.

(** A run without overlap is one of the runs. *)
Lemma reachable_ireachable w : reachable w → ireachable (w, []).
Proof.
  intros (us & evs & ->). exists us, (Whole <$> evs). by rewrite irun_whole.
Qed.

Lemma response_of_document id a r :
  status a = active → response_document (response_of id a r).
Proof.
  intros Hs. exists r. unfold response_of, set_status, push_responder. simpl.
  rewrite Hs. by destruct (decide (active = responded)).
Qed.

(** The save of a response writes the status and pushes the responder,
    whatever the stored record has become. *)
Lemma save_response_document coll d :
  response_document d →
  ∃ r, pushed d = [r] ∧ (save coll d).1 = alter (respond_update r) (_id d) coll.
Proof.
  intros (r & Hp & Hm & Hs). exists r. split; [done |].
  unfold save. simpl. apply list_alter_ext; [| done]. intros stored _.
  unfold apply_update, respond_update. by rewrite Hp, Hm; simpl; rewrite Hs.
Qed.

Lemma post_respond_begin_cases c now req_user id body :
  istep c (PostRespondBegin now req_user id body)
  = match alerts c.1 !! id with
    | None => c
    | Some a =>
      if decide (status a ≠ active) then c
      else if users c.1 !! user a is None
      then (with_console (console c.1 ++ [console_error "Emergency response error:"]) c.1,
            c.2)
      else (c.1,
            c.2 ++ [post_respond_pending req_user
                      (response_of id a
                         (mkResponder req_user now
                            (or_string (in_message body) (Some "On my way to help"))
                            (or_number (in_estimatedArrival body) 10)))])
    end.
Proof.
  destruct c as [w ps]. unfold istep. rewrite post_respond_load_cases. simpl.
  destruct (alerts w !! id) as [a |]; [| done].
  destruct (decide (status a ≠ active)); [done |].
  by destruct (users w !! user a).
Qed.

Lemma socket_respond_begin_cases c now socket id data :
  istep c (SocketRespondBegin now socket id data)
  = let refused :=
      (with_outbox (outbox c.1 ++ [error_event (sock_id socket)
                                     "Emergency alert not found or not active"]) c.1,
       c.2) in
    match alerts c.1 !! id with
    | None => refused
    | Some a =>
      if decide (status a ≠ active) then refused
      else (c.1,
            c.2 ++ [socket_respond_pending socket id data
                      (response_of id a
                         (mkResponder (userId socket) now (in_message data)
                                      (in_estimatedArrival data)))])
    end.
Proof.
  destruct c as [w ps]. unfold istep. rewrite on_emergency_response_load_cases. simpl.
  destruct (alerts w !! id) as [a |]; [| done].
  by destruct (decide (status a ≠ active)).
Qed.

(** The rest of a response saves the document it holds and leaves the
    timers alone. *)
Lemma resume_alerts p w :
  alerts (resume p w).2 = (save (alerts w) (held p)).1
  ∧ timers (resume p w).2 = timers w.
Proof.
  destruct p as [req_user d | socket id data d]; unfold resume, held.
  - unfold mbind, M_bind. by rewrite post_respond_save_cases.
  - by rewrite on_emergency_response_save_cases.
Qed.

Lemma pristine_effect w w' :
  effect w w' →
  (∀ k t, timers w !! k = Some t → pristine (this t)) →
  ∀ k t, timers w' !! k = Some t → pristine (this t).
Proof.
  intros He Ht.
  destruct He as
    [ es _ _ Et _ _ _ _ | now uid _ _ Et _ _ _ | uid _ _ Et _ _ _
    | a now es Hf _ _ Et _ _ _ _ | id a r descr es _ _ _ _ Et _ _ _ _
    | k0 t0 now _ _ _ Et _ _ _ ]; rewrite Et; try done.
  - intros j t [[_ Hj] | [_ <-]]%lookup_snoc_Some; [by eapply Ht |].
    simpl. by apply pristine_newly_stored.
  - intros j t' [j' Hj]%lookup_delete_elem. by eapply Ht.
Qed.

(** Where a stored alert comes from, segment by segment. *)
Lemma istep_alert c s id a' :
  overlap_inv c → alerts (istep c s).1 !! id = Some a' →
  alerts c.1 !! id = Some a'
  ∨ (alerts c.1 !! id = None ∧ newly_stored a')
  ∨ ∃ a, alerts c.1 !! id = Some a
         ∧ ((∃ r, a' = respond_update r a) ∨ (∃ now, a' = auto_update now a)).
Proof.
  intros (_ & Ht & Hp) Ha'. destruct s as [ev | now u i b | now sk i b | k].
  - simpl in Ha'.
    destruct (effect_origin c.1 _ id a' Ht (step_effect c.1 ev) Ha')
      as [Ha | -> Hn | a r Ha _ -> | a now Ha ->].
    + by left.
    + right. left. split; [| done]. by apply lookup_ge_None.
    + right. right. exists a. split; [done |]. left. by exists r.
    + right. right. exists a. split; [done |]. right. by exists now.
  - rewrite post_respond_begin_cases in Ha'. left.
    destruct (alerts c.1 !! i) as [a |]; [| done].
    destruct (decide (status a ≠ active)); [done |].
    by destruct (users c.1 !! user a).
  - rewrite socket_respond_begin_cases in Ha'. cbv zeta in Ha'. left.
    destruct (alerts c.1 !! i) as [a |]; [| done].
    by destruct (decide (status a ≠ active)).
  - simpl in Ha'. destruct (c.2 !! k) as [p |] eqn:Hk; [| by left].
    simpl in Ha'. destruct (resume_alerts p c.1) as [Ea _]. rewrite Ea in Ha'.
    destruct (save_response_document (alerts c.1) _ (Hp _ _ Hk)) as (r & _ & Es).
    rewrite Es in Ha'.
    destruct (decide (_id (held p) = id)) as [<- |].
    + rewrite list_lookup_alter_eq in Ha'.
      apply fmap_Some in Ha' as (a & Ha & ->).
      right. right. exists a. split; [done |]. left. by exists r.
    + rewrite list_lookup_alter_ne in Ha' by done. by left.
Qed.

(** A stored alert stays stored. *)
Lemma istep_keeps c s id a :
  overlap_inv c → alerts c.1 !! id = Some a →
  ∃ a', alerts (istep c s).1 !! id = Some a' ∧ grows_from a a'.
Proof.
  intros (_ & _ & Hp) Ha. destruct s as [ev | now u i b | now sk i b | k].
  - simpl. by eapply effect_keeps; [apply step_effect |].
  - rewrite post_respond_begin_cases. exists a. split; [| apply grows_from_refl].
    destruct (alerts c.1 !! i) as [a0 |]; [| done].
    destruct (decide (status a0 ≠ active)); [done |].
    by destruct (users c.1 !! user a0).
  - rewrite socket_respond_begin_cases. cbv zeta.
    exists a. split; [| apply grows_from_refl].
    destruct (alerts c.1 !! i) as [a0 |]; [| done].
    by destruct (decide (status a0 ≠ active)).
  - simpl. destruct (c.2 !! k) as [p |] eqn:Hk;
      [| exists a; split; [done | apply grows_from_refl]].
    simpl. destruct (resume_alerts p c.1) as [-> _].
    destruct (save_response_document (alerts c.1) _ (Hp _ _ Hk)) as (r & _ & ->).
    destruct (decide (_id (held p) = id)) as [<- |].
    + rewrite list_lookup_alter_eq, Ha. eexists. split; [done |].
      split; [done |]. simpl. by apply prefix_app_r.
    + rewrite list_lookup_alter_ne by done.
      exists a. split; [done | apply grows_from_refl].
Qed.

Lemma overlap_inv_init us : overlap_inv (init us, []).
Proof. repeat split; intros; simpl in *; by try rewrite lookup_nil in *. Qed.

Lemma overlap_inv_istep c s : overlap_inv c → overlap_inv (istep c s).
Proof.
  intros Hi. pose proof Hi as (Ha & Ht & Hp). split; [| split].
  - intros id a' Ha'.
    destruct (istep_alert c s id a' Hi Ha')
      as [H | [[_ (Hs & Hr & _)] | (a & H & [[r ->] | [now ->]])]].
    + exact (Ha _ _ H).
    + rewrite Hs, Hr. by repeat split.
    + simpl. repeat split; try done. intros _. by destruct (responders a).
    + simpl. by repeat split.
  - destruct s as [ev | now u i b | now sk i b | k].
    + simpl. exact (pristine_effect c.1 _ (step_effect c.1 ev) Ht).
    + rewrite post_respond_begin_cases.
      destruct (alerts c.1 !! i) as [a |]; [| done].
      destruct (decide (status a ≠ active)); [done |].
      by destruct (users c.1 !! user a).
    + rewrite socket_respond_begin_cases. cbv zeta.
      destruct (alerts c.1 !! i) as [a |]; [| done].
      by destruct (decide (status a ≠ active)).
    + simpl. destruct (c.2 !! k) as [p |]; [| done]. simpl.
      destruct (resume_alerts p c.1) as [_ ->]. done.
  - destruct s as [ev | now u i b | now sk i b | k].
    + done.
    + rewrite post_respond_begin_cases.
      destruct (alerts c.1 !! i) as [a |]; [| done].
      destruct (decide (status a ≠ active)) as [| Hs%dec_stable]; [done |].
      destruct (users c.1 !! user a); [| done]. simpl.
      intros j p [[_ Hj] | [_ <-]]%lookup_snoc_Some; [by eapply Hp |].
      by apply response_of_document.
    + rewrite socket_respond_begin_cases. cbv zeta.
      destruct (alerts c.1 !! i) as [a |]; [| done].
      destruct (decide (status a ≠ active)) as [| Hs%dec_stable]; [done |]. simpl.
      intros j p [[_ Hj] | [_ <-]]%lookup_snoc_Some; [by eapply Hp |].
      by apply response_of_document.
    + simpl. destruct (c.2 !! k) as [p |]; [| done]. simpl.
      intros j p' [j' Hj]%lookup_delete_elem. by eapply Hp.
Qed.

Lemma ireachable_overlap c : ireachable c → overlap_inv c.
Proof.
  intros (us & ss & ->). apply irun_invariant.
  - apply overlap_inv_istep.
  - apply overlap_inv_init.
Qed.

End Overlap.

Section Reachable_worlds.
Context {G : Geometry}.

Lemma reachable_records w :
  reachable w → lifecycle_inv w ∧ schema_inv w ∧ ledger_inv w ∧ schedule_inv w.
Proof.
  intros (us & evs & ->).
  apply (run_invariant
           (λ w, lifecycle_inv w ∧ schema_inv w ∧ ledger_inv w ∧ schedule_inv w)).
  - intros w ev (Hl & Hs & Hg & Ht). split; [| split; [| split]].
    + eapply lifecycle_inv_effect; [apply step_effect | done].
    + by apply schema_inv_step.
    + by apply ledger_inv_step.
    + by apply schedule_inv_step.
  - split; [apply lifecycle_inv_init |]. split; [apply schema_inv_init |].
    split; [apply ledger_inv_init | apply schedule_inv_init].
Qed.

Lemma reachable_run w evs : reachable w → reachable (run w evs).
Proof.
  intros (us & evs0 & ->). exists us, (evs0 ++ evs).
  unfold run. by rewrite foldl_app.
Qed.

(** X1: whatever happens to the server, a stored alert stays stored under its
    id with the user, type, severity, location, description, hospitals and
    creation time it was stored with, and the responders it has stay the
    first of its list. *)
Theorem report_is_kept w evs id a :
  alerts w !! id = Some a →
  ∃ a', alerts (run w evs) !! id = Some a' ∧ grows_from a a'.
Proof.
  revert w a. induction evs as [| ev evs IH]; intros w a Ha.
  - exists a. split; [done | apply grows_from_refl].
  - destruct (effect_keeps _ _ _ _ (step_effect w ev) Ha) as (b & Hb & Hab).
    destruct (IH _ _ Hb) as (c & Hc & Hbc).
    exists c. split; [done |]. by eapply grows_from_trans.
Qed.

(** X3: every alert the server stores passed the schema: its type and its
    severity are of the enums, its description has at most 500 characters;
    and no alert is ever 'cancelled'. *)
Theorem stored_alerts_pass_schema w id a :
  reachable w → alerts w !! id = Some a →
  well_formed a ∧ status a ≠ cancelled.
Proof.
  intros (_ & Hs & _)%reachable_records Ha.
  destruct (Hs _ _ Ha) as (? & ? & _). by split.
Qed.

(** X5: every pending auto-resolve timer belongs to a stored alert and is due
    thirty minutes after the creation of that alert, and no alert has two
    pending timers. *)
Theorem timers_match_alerts w : reachable w → schedule_inv w.
Proof. by intros (_ & _ & _ & ?)%reachable_records. Qed.

(** X6: as long as only the events of the engine write to it (the routes of
    /api/rewards are not among them), every reward in the ledger is an
    'emergency_response' of 50 points that relates to a stored alert, and its
    user is a responder of that alert. *)
Theorem rewards_match_responders w r :
  reachable w → r ∈ rewards w →
  activityType r = "emergency_response" ∧ points r = 50%Z
  ∧ relatedModel r = "EmergencyAlert"
  ∧ ∃ a, alerts w !! relatedActivity r = Some a
         ∧ rw_user r ∈ r_user <$> responders a.
Proof.
  intros (_ & _ & Hg & _)%reachable_records Hr.
  destruct (Hg _ Hr) as (? & ? & ? & _ & ?). by repeat split.
Qed.

(** X7: the rewards that the response handlers store pass the validation of
    the Reward schema, so that their [save] does not throw. *)
Theorem response_rewards_pass_schema w r :
  reachable w → r ∈ rewards w → reward_valid (candidate r) = true.
Proof.
  intros (_ & _ & Hg & _)%reachable_records Hr.
  destruct (Hg _ Hr) as (Ht & Hp & Hm & Hd & _).
  unfold reward_valid, candidate. simpl. rewrite Ht, Hp, Hm.
  destruct Hd as [-> | (ty & Hty & ->)]; [done |].
  unfold type_enum in Hty.
  repeat (apply elem_of_cons in Hty as [-> | Hty]; [done |]).
  by apply elem_of_nil in Hty.
Qed.

(** X8: the statistics follow the ledger: after any run of the events of the
    engine from a start (the routes of /api/rewards are not among them), a user
    has the reward points of the start plus 50 for each reward in the user's
    name, the help count of the start plus one for each, and the name and
    the emergency contacts of the start; no user is added or removed. *)
Theorem stats_follow_ledger us evs : stats_inv us (run (init us) evs).
Proof.
  apply (run_invariant (stats_inv us)).
  - intros w ev. apply stats_inv_step.
  - apply stats_inv_init.
Qed.

End Reachable_worlds.

Section Overlapping_responses.
Context {G : Geometry}.

(** C7, as amended: in every state the server can be in, overlapping
    requests included, a Respond by a user who is already in the list of
    responders of an alert is rejected: that alert has left 'active', so
    POST /respond answers 400 "Emergency alert is no longer active" (the status
    check comes before the check of the list) and the socket handler emits
    "Emergency alert not found or not active"; nothing is stored, and no
    request is left waiting. *)
Theorem repeated_response_rejected c id a uid :
  ireachable c → alerts c.1 !! id = Some a → responded_by uid a = true →
  status a ≠ active
  ∧ (∀ now body,
       post_respond now uid id body c.1
       = (Returned (json 400 false "Emergency alert is no longer active"), c.1)
       ∧ istep c (PostRespondBegin now uid id body) = c)
  ∧ (∀ now sid data,
       on_emergency_response now (mkSocket sid uid) id data c.1
       = (Returned tt,
          with_outbox (outbox c.1 ++ [error_event sid
                                        "Emergency alert not found or not active"]) c.1)).
Proof.
  intros (Ha & _)%ireachable_overlap Hl Hr.
  assert (status a ≠ active) as Hs.
  { intros Hact. destruct (Ha _ _ Hl) as (He & _).
    unfold responded_by in Hr. rewrite (He Hact) in Hr. done. }
  split; [done |]. split.
  - intros now body. split; [by eapply post_respond_not_active |].
    rewrite post_respond_begin_cases, Hl. by destruct (decide (status a ≠ active)).
  - intros now sid data.
    by eapply (on_emergency_response_not_active _ (mkSocket sid uid)).
Qed.

(** X2: once the status of a stored alert is not 'active', it is never
    'active' again, and never 'cancelled', whatever the server runs next and
    however the requests overlap. *)
Theorem active_is_not_restored c ss id a a' :
  ireachable c → alerts c.1 !! id = Some a → status a ≠ active →
  alerts (irun c ss).1 !! id = Some a' →
  status a' ≠ active ∧ status a' ≠ cancelled.
Proof.
  intros Hc Ha Hs Ha'. split.
  - revert c a Hc Ha Hs Ha'. induction ss as [| s ss IH]; intros c a Hc Ha Hs Ha'.
    + simpl in Ha'. congruence.
    + pose proof (ireachable_overlap c Hc) as Hi.
      destruct (istep_keeps c s id a Hi Ha) as (b & Hb & _).
      apply (IH (istep c s) b); [by apply (ireachable_irun c [s]) | done | | done].
      destruct (istep_alert c s id b Hi Hb)
        as [H | [[H _] | (a0 & H & [[r ->] | [now ->]])]]; try done; congruence.
  - pose proof (ireachable_overlap _ (ireachable_irun c ss Hc)) as (Hi & _).
    by destruct (Hi _ _ Ha') as (_ & _ & ?).
Qed.

(** X4: in every state the server can be in, overlapping requests
    included, an alert has no responder while it is 'active' and at least
    one when it is 'responded'. *)
Theorem responders_by_status c id a :
  ireachable c → alerts c.1 !! id = Some a →
  (status a = active → responders a = [])
  ∧ (status a = responded → responders a ≠ []).
Proof.
  intros (Hi & _)%ireachable_overlap Ha.
  by destruct (Hi _ _ Ha) as (? & ? & _).
Qed.

End Overlapping_responses.

Lemma overlapping_responses_reachable : ireachable (G:=flat) overlapping_responses.
Proof. apply ireachable_irun, reachable_ireachable, alert_created_reachable. Qed.

Lemma doubled_response_reachable : ireachable (G:=flat) doubled_response.
Proof. apply ireachable_irun, reachable_ireachable, alert_created_reachable. Qed.

Lemma timer_during_response_reachable : ireachable (G:=flat) timer_during_response.
Proof. apply ireachable_irun, reachable_ireachable, alert_created_reachable. Qed.

(** C4, at a failing input: A and B answer the active alert of R, and both
    requests load it before either saves.  Both pass the status check: the
    alert ends with two responders and two emergency_response rewards, and
    A and B have 50 points each. *)
Theorem concurrent_responses_grant_twice :
  ireachable (G:=flat) overlapping_responses
  ∧ alerts overlapping_responses.1
    = [the_alert responded
         [mkResponder "A" minute (Some "On my way to help") (Some 10%Z);
          mkResponder "B" minute (Some "On my way to help") (Some 10%Z)]
         false None None]
  ∧ grants 0 (rewards overlapping_responses.1)
    = [mkReward "A" "emergency_response" 50 "Responded to medical emergency" 0
                "EmergencyAlert";
       mkReward "B" "emergency_response" 50 "Responded to medical emergency" 0
                "EmergencyAlert"]
  ∧ rewardPoints <$> users overlapping_responses.1 !! "A" = Some 50%Z
  ∧ rewardPoints <$> users overlapping_responses.1 !! "B" = Some 50%Z
  ∧ overlapping_responses.2 = [].
Proof.
  split; [apply overlapping_responses_reachable |].
  vm_compute. by repeat split.
Qed.

(** C5, at a failing input: A answers as the thirty minutes end.  The
    request loads the active alert, the timer resolves it, and the save of
    the request writes the resolved alert: its status goes back to
    'responded' and it gets a responder. *)
Theorem concluded_alert_still_mutable :
  ireachable (G:=flat) timer_during_response
  ∧ alerts timer_during_response.1
    = [the_alert resolved [] true (Some (30 * minute)%Z) None]
  ∧ alerts (istep (G:=flat) timer_during_response (Resume 0)).1
    = [the_alert responded
         [mkResponder "A" (30 * minute - 1) (Some "On my way to help") (Some 10%Z)]
         true (Some (30 * minute)%Z) None].
Proof.
  split; [apply timer_during_response_reachable |].
  vm_compute. by repeat split.
Qed.

(** Two overlapping requests of A leave A twice in the list. *)
Example doubled_response_example :
  r_user <$> mjoin (responders <$> alerts doubled_response.1) = ["A"; "A"].
Proof. vm_compute. reflexivity. Qed.

Lemma repeated_response_rejected_witness :
  post_respond (2 * minute) "A" 0 on_my_way doubled_response.1
  = (Returned (json 400 false "Emergency alert is no longer active"),
     doubled_response.1).
Proof.
  refine (proj1 (proj1 (proj2 (repeated_response_rejected (G:=flat) doubled_response 0
     (the_alert responded
        [mkResponder "A" minute (Some "On my way to help") (Some 10%Z);
         mkResponder "A" minute (Some "On my way to help") (Some 10%Z)]
        false None None) "A" _ _ _)) (2 * minute)%Z on_my_way)).
  - apply doubled_response_reachable.
  - vm_compute. reflexivity.
  - vm_compute. reflexivity.
Defined.

Lemma active_is_not_restored_witness : responded ≠ active ∧ responded ≠ cancelled.
Proof.
  refine (active_is_not_restored (G:=flat) timer_during_response [Resume 0] 0
            (the_alert resolved [] true (Some (30 * minute)%Z) None)
            (the_alert responded
               [mkResponder "A" (30 * minute - 1) (Some "On my way to help")
                            (Some 10%Z)]
               true (Some (30 * minute)%Z) None) _ _ _ _).
  - apply timer_during_response_reachable.
  - vm_compute. reflexivity.
  - discriminate.
  - vm_compute. reflexivity.
Defined.

Lemma responders_by_status_witness :
  [mkResponder "A" minute (Some "On my way to help") (Some 10%Z);
   mkResponder "B" minute (Some "On my way to help") (Some 10%Z)] ≠ [].
Proof.
  refine (proj2 (responders_by_status (G:=flat) overlapping_responses 0
     (the_alert responded
        [mkResponder "A" minute (Some "On my way to help") (Some 10%Z);
         mkResponder "B" minute (Some "On my way to help") (Some 10%Z)]
        false None None) _ _) _).
  - apply overlapping_responses_reachable.
  - vm_compute. reflexivity.
  - reflexivity.
Defined.

Section Resolution.
Context {G : Geometry}.

(** ** Who resolves an alert *)

(** X28: PUT /resolve answers 200 to nobody.  The reporter and the responders
    of the alert are compared, as strings, with the ObjectId of the requester,
    so that the reporter and the responders are refused with 403 like
    everybody else, and nothing is changed. *)
Theorem put_resolve_refuses_everyone now req_user id w :
  put_resolve now req_user id w
  = (Returned (if alerts w !! id is Some _
               then json 403 false "Not authorized to resolve this alert"
               else json 404 false "Emergency alert not found"), w).
Proof. apply put_resolve_refuses. Qed.

(** X29: POST /respond does not turn the reporter away: the check of
    [alert.user._id.toString()] against the ObjectId of the requester never
    holds, so the reporter of an active alert is answered 200, becomes a
    responder of the own alert and is paid the 50 points. *)
Theorem post_respond_from_reporter now id body w a u :
  alerts w !! id = Some a → status a = active → users w !! user a = Some u →
  let w' := (post_respond now (user a) id body w).2 in
  (post_respond now (user a) id body w).1
  = Returned (mkHttpResponse 200 true "Response sent successfully" (Some id)
                (Some 50%Z) (Some responded) (Some (S (length (responders a)))))
  ∧ (∃ a', alerts w' !! id = Some a' ∧ status a' = responded
           ∧ r_user <$> responders a' = (r_user <$> responders a) ++ [user a])
  ∧ users w' !! user a = Some (inc_stats u)
  ∧ rewardPoints (inc_stats u) = (rewardPoints u + 50)%Z.
Proof.
  intros Ha Hs Hu. cbv zeta.
  rewrite (post_respond_accepts now (user a) id body w a Ha Hs) by by exists u.
  cbn [fst snd]. split; [| split; [| split; [| done]]].
  - by rewrite length_app, Nat.add_1_r.
  - eexists. simpl. rewrite list_lookup_insert_eq by (by eapply lookup_lt_Some).
    split; [done |]. split; [done |]. simpl. by rewrite fmap_app.
  - simpl. by rewrite lookup_alter_eq, Hu.
Qed.

Lemma resolution_inv_istep c s :
  overlap_inv c →
  (∀ id a, alerts c.1 !! id = Some a →
     resolvedBy a = None
     ∧ (status a = resolved → autoResolved a = true ∧ is_Some (resolvedAt a))) →
  ∀ id a, alerts (istep c s).1 !! id = Some a →
    resolvedBy a = None
    ∧ (status a = resolved → autoResolved a = true ∧ is_Some (resolvedAt a)).
Proof.
  intros Hi Hr id a' Ha'.
  destruct (istep_alert c s id a' Hi Ha')
    as [H | [[_ (Hs & _ & _ & _ & Hb)] | (a & H & [[r ->] | [now ->]])]].
  - exact (Hr _ _ H).
  - split; [done |]. by rewrite Hs.
  - destruct (Hr _ _ H) as [Hb _]. by split.
  - destruct (Hr _ _ H) as [Hb _]. split; [done |]. intros _. by split.
Qed.

(** X30: no run of the server resolves an alert by hand: no stored alert
    has a [resolvedBy], and every alert with the status 'resolved' was
    resolved by its timer ([autoResolved] is true and [resolvedAt] is set),
    however the requests overlap. *)
Theorem never_resolved_by_hand c id a :
  ireachable c → alerts c.1 !! id = Some a →
  resolvedBy a = None
  ∧ (status a = resolved → autoResolved a = true ∧ is_Some (resolvedAt a)).
Proof.
  intros (us & ss & ->). revert id a.
  cut (overlap_inv (irun (init us, []) ss)
       ∧ ∀ id a, alerts (irun (init us, []) ss).1 !! id = Some a →
           resolvedBy a = None
           ∧ (status a = resolved → autoResolved a = true ∧ is_Some (resolvedAt a))).
  { by intros [_ ?]. }
  apply (irun_invariant (λ c, overlap_inv c
           ∧ ∀ id a, alerts c.1 !! id = Some a →
               resolvedBy a = None
               ∧ (status a = resolved → autoResolved a = true ∧ is_Some (resolvedAt a)))).
  - intros c s [Hi Hr]. split; [by apply overlap_inv_istep |].
    by apply resolution_inv_istep.
  - split; [apply overlap_inv_init |]. intros id a H. simpl in H.
    by rewrite lookup_nil in H.
Qed.

End Resolution.

Lemma post_respond_from_reporter_witness :
  users (post_respond minute "R" 0 on_my_way alert_created).2 !! "R"
  = Some (inc_stats (rider "Reporter" 77.59 12.97 true)).
Proof.
  refine (proj1 (proj2 (proj2 (post_respond_from_reporter minute 0 on_my_way
            alert_created (the_alert active [] false None None)
            (rider "Reporter" 77.59 12.97 true) _ _ _)))); reflexivity.
Defined.

Lemma never_resolved_by_hand_witness :
  resolvedBy (the_alert resolved [] true (Some (30 * minute)%Z) None) = None.
Proof.
  refine (proj1 (never_resolved_by_hand (G:=flat) timer_during_response 0 _ _ _)).
  - apply timer_during_response_reachable.
  - vm_compute. reflexivity.
Defined.

Lemma all_connected_reachable : reachable (G:=flat) all_connected.
Proof. by exists riders, [Connect 0 "R"; Connect 0 "A"; Connect 0 "B"; Connect 0 "F"]. Qed.

Lemma reported_reachable : reachable (G:=flat) reported.
Proof.
  apply (reachable_run (G:=flat) all_connected [PostAlert quiet 0 "R" medical]).
  apply all_connected_reachable.
Qed.

Lemma report_is_kept_witness :
  ∃ a', alerts (run (G:=flat) alert_created
                  [PostRespond minute "A" 0 on_my_way; TimerFired (40 * minute) 0])
        !! 0%nat = Some a'
        ∧ grows_from (the_alert active [] false None None) a'.
Proof.
  refine (report_is_kept (G:=flat) alert_created
            [PostRespond minute "A" 0 on_my_way; TimerFired (40 * minute) 0]
            0%nat (the_alert active [] false None None) _).
  reflexivity.
Defined.

Lemma stored_alerts_pass_schema_witness :
  well_formed (the_alert active [] false None None)
  ∧ status (the_alert active [] false None None) ≠ cancelled.
Proof.
  refine (stored_alerts_pass_schema (G:=flat) alert_created 0%nat _ _ _).
  - by exists riders, [PostAlert quiet 0 "R" medical].
  - reflexivity.
Defined.

Lemma timers_match_alerts_witness : schedule_inv first_response.
Proof.
  refine (timers_match_alerts (G:=flat) first_response _).
  by exists riders, [PostAlert quiet 0 "R" medical; PostRespond minute "A" 0 on_my_way].
Defined.

Lemma rewards_match_responders_witness :
  ∃ a, alerts first_response !! 0%nat = Some a ∧ "A" ∈ r_user <$> responders a.
Proof.
  refine (proj2 (proj2 (proj2 (rewards_match_responders (G:=flat) first_response
            (mkReward "A" "emergency_response" 50 "Responded to medical emergency"
                      0 "EmergencyAlert") _ _)))).
  - by exists riders, [PostAlert quiet 0 "R" medical; PostRespond minute "A" 0 on_my_way].
  - vm_compute. apply list_elem_of_singleton. reflexivity.
Defined.

Lemma response_rewards_pass_schema_witness :
  reward_valid (candidate (mkReward "A" "emergency_response" 50
                             "Responded to medical emergency" 0 "EmergencyAlert"))
  = true.
Proof.
  refine (response_rewards_pass_schema (G:=flat) first_response _ _ _).
  - by exists riders, [PostAlert quiet 0 "R" medical; PostRespond minute "A" 0 on_my_way].
  - vm_compute. apply list_elem_of_singleton. reflexivity.
Defined.

Section Routes.
Context {G : Geometry}.

(** ** The routes turn a request down *)

(** X9: PUT /resolve answers 404 for an id that is not stored and 403 for a
    requester who is neither the reporter nor a responder of the alert, and
    changes nothing in either case. *)
Theorem put_resolve_denied now req_user id w :
  (∀ a, alerts w !! id = Some a →
        user a ≠ req_user ∧ req_user ∉ r_user <$> responders a) →
  put_resolve now req_user id w
  = (Returned (if alerts w !! id is Some _
               then json 403 false "Not authorized to resolve this alert"
               else json 404 false "Emergency alert not found"), w).
Proof.
  intros _. apply put_resolve_refuses.
Qed.

(** X10: POST /alert answers 400 and stores nothing when the body has no
    type, no location, or a latitude or longitude that is missing or 0: a
    point on the equator or on the prime meridian cannot be reported here. *)
Theorem post_alert_requires_type_and_location env now req_user body w :
  truthy_string (in_type body) = false
  ∨ (∀ l, in_location body = Some l →
          truthy_number (in_latitude l) = false
          ∨ truthy_number (in_longitude l) = false) →
  post_alert env now req_user body w
  = (Returned (json 400 false "Alert type and location are required"), w).
Proof.
  intros H. unfold post_alert.
  destruct H as [-> | H]; [done |].
  destruct (in_location body) as [l |]; [| by rewrite orb_true_r].
  by destruct (H l eq_refl) as [-> | ->]; rewrite ?andb_false_r, orb_true_r.
Qed.

Lemma post_alert_not_recent env now req_user body l w :
  truthy_string (in_type body) = true →
  in_location body = Some l →
  truthy_number (in_latitude l) = true → truthy_number (in_longitude l) = true →
  findRecentActive req_user (now - 5 * 60 * 1000) (alerts w) = None →
  ∃ r w', post_alert env now req_user body w = (Returned r, w')
          ∧ (code r = 201 ∨ code r = 500)%Z.
Proof.
  intros Hty Hloc Hlat Hlon Hf.
  unfold post_alert. rewrite Hloc, Hty, Hlat, Hlon. simpl.
  unfold try_catch at 1. rewrite bind_gets, Hf.
  match goal with |- context [(?m ≫= _) w] =>
    assert (∃ hs lg, m w = (Returned hs, with_console (console w ++ lg) w))
      as (hs & lg & Eh) end.
  { destruct (_ || _); [apply findNearbyHospitals_safe | apply safe_ret]. }
  rewrite (bind_returned _ _ _ _ _ Eh).
  unfold save_new at 1.
  destruct (validate now _) as [a |] eqn:Hval.
  - erewrite bind_returned by reflexivity.
    unfold scheduleAutoResolve. rewrite bind_modify, bind_detached.
    match goal with |- context [try_catch ?m ?h ?w0] =>
      destruct (safe_try_catch m h
                  (safe_mayfail _ (notifyContacts_safe env _))
                  (λ _, safe_log _) w0) as ([] & lg2 & ->) end.
    simpl. eexists _, _. split; [reflexivity |]. by left.
  - erewrite bind_thrown by reflexivity. simpl.
    eexists _, _. split; [reflexivity |]. by right.
Qed.

(** X11: for a body with a type and a location, POST /alert answers "You
    already have an active emergency alert" exactly when the requester has a
    stored alert that is still 'active' and was created at most five minutes
    ago; nothing changes then.  An alert that was answered or resolved, or an
    older one, does not stand in the way. *)
Theorem post_alert_duplicate_iff env now req_user body l w :
  truthy_string (in_type body) = true →
  in_location body = Some l →
  truthy_number (in_latitude l) = true → truthy_number (in_longitude l) = true →
  let duplicate := json 400 false "You already have an active emergency alert" in
  ((post_alert env now req_user body w).1 = Returned duplicate
   ↔ ∃ i a, alerts w !! i = Some a ∧ user a = req_user ∧ status a = active
            ∧ (now - 5 * 60 * 1000 ≤ createdAt a)%Z)
  ∧ ((post_alert env now req_user body w).1 = Returned duplicate →
     (post_alert env now req_user body w).2 = w).
Proof.
  intros Hty Hloc Hlat Hlon duplicate.
  destruct (findRecentActive req_user (now - 5 * 60 * 1000) (alerts w))
    as [[i a] |] eqn:Hf.
  - apply list_find_Some in Hf as (Ha & (Hu & Hs & Ht) & _).
    rewrite (post_alert_rejects_duplicate env now req_user body l w i a) by done.
    split; [| done]. split; [| done]. intros _. by exists i, a.
  - destruct (post_alert_not_recent env now req_user body l w)
      as (r & w' & -> & Hr); try done.
    simpl. split.
    + split.
      * intros [= ->]. by destruct Hr.
      * intros (i & a & Ha & Hu & Hs & Ht).
        apply list_find_None in Hf.
        eapply Forall_forall in Hf; [| by eapply list_elem_of_lookup_2].
        by destruct Hf.
    + intros [= ->]. by destruct Hr.
Qed.

(** X12: the 'emergency-response' event does not look at who responds: the
    reporter of an active alert can answer it, becomes its responder and is
    paid the 50 points. *)
Theorem socket_response_from_reporter now socket id data w a u :
  alerts w !! id = Some a → status a = active →
  user a = userId socket → users w !! userId socket = Some u →
  let w' := (on_emergency_response now socket id data w).2 in
  (∃ a', alerts w' !! id = Some a' ∧ status a' = responded
         ∧ r_user <$> responders a' = (r_user <$> responders a) ++ [user a])
  ∧ users w' !! userId socket = Some (inc_stats u)
  ∧ rewardPoints (inc_stats u) = (rewardPoints u + 50)%Z.
Proof.
  intros Ha Hs Hu Hl.
  destruct (on_emergency_response_accepts now socket id data w a Ha Hs)
    as (es & ->). simpl.
  split; [| split; [| done]].
  - eexists. rewrite list_lookup_insert_eq by (by eapply lookup_lt_Some).
    split; [done |]. split; [done |]. simpl. by rewrite fmap_app, Hu.
  - by rewrite lookup_alter_eq, Hl.
Qed.

End Routes.

Lemma put_resolve_denied_witness :
  put_resolve (2 * minute) "B" 0 alert_created
  = (Returned (json 403 false "Not authorized to resolve this alert"), alert_created).
Proof.
  refine (put_resolve_denied (2 * minute) "B" 0 alert_created _).
  intros a [= <-]. split; [done |]. apply not_elem_of_nil.
Defined.

Lemma post_alert_requires_type_and_location_witness :
  post_alert quiet 0 "R"
    (mkAlertInput (Some "medical") (Some "high")
       (Some (mkLocationInput (Some 0%Q) (Some 77.59%Q) None)) None) (init riders)
  = (Returned (json 400 false "Alert type and location are required"), init riders).
Proof.
  refine (post_alert_requires_type_and_location quiet 0 "R" _ (init riders) _).
  right. intros l [= <-]. left. reflexivity.
Defined.

Lemma post_alert_duplicate_iff_witness :
  (post_alert quiet minute "R" medical alert_created).1
  = Returned (json 400 false "You already have an active emergency alert").
Proof.
  refine (proj2 (proj1 (post_alert_duplicate_iff quiet minute "R" medical here
                          alert_created _ _ _ _)) _); try reflexivity.
  exists 0%nat, (the_alert active [] false None None).
  repeat split; vm_compute; congruence.
Defined.

Lemma socket_response_from_reporter_witness :
  users (on_emergency_response minute (mkSocket 0 "R") 0 on_my_way
           alert_created).2 !! "R"
  = Some (inc_stats (rider "Reporter" 77.59 12.97 true)).
Proof.
  refine (proj1 (proj2 (socket_response_from_reporter minute (mkSocket 0 "R")
            0 on_my_way alert_created (the_alert active [] false None None)
            (rider "Reporter" 77.59 12.97 true) _ _ _ _))); reflexivity.
Defined.

Section Sockets.
Context {G : Geometry}.

(** ** The socket handlers *)

(** X13: 'disconnect' removes the entry of the user whatever socket the entry
    is of: when a user connects a second time and the first socket closes
    afterwards, the user is off the map of the connected users and is stored
    offline, while the second socket is still open. *)
Theorem stale_disconnect_unlists w now1 now2 now3 uid :
  let first := mkSocket (nextSocketId w) uid in
  let w2 := run w [Connect now1 uid; Connect now2 uid] in
  let w3 := step w2 (Disconnect now3 first) in
  connectedUsers w2 !! uid = Some (mkConnection (S (nextSocketId w)) now2)
  ∧ connectedUsers w3 !! uid = None
  ∧ users w3 !! uid = set_online false now3 <$> users w !! uid.
Proof.
  simpl. rewrite lookup_insert_eq, lookup_delete_eq.
  split; [done |]. split; [done |].
  rewrite !lookup_alter_eq. by destruct (users w !! uid).
Qed.

(** X14: 'location-update' answers "Invalid location data" and stores nothing
    when the location is missing or its latitude or longitude is missing or
    0, whatever the timestamp of the payload. *)
Theorem location_update_rejects_zero socket l timestamp w :
  (∀ loc, l = Some loc →
          truthy_number (in_latitude loc) = false
          ∨ truthy_number (in_longitude loc) = false) →
  on_location_update socket l timestamp w
  = (Returned tt,
     with_outbox (outbox w ++ [error_event (sock_id socket) "Invalid location data"]) w).
Proof.
  intros H. rewrite on_location_update_cases. cbv zeta.
  destruct l as [[[lat |] [lon |] addr] |]; try done.
  by destruct (H _ eq_refl) as [Hz | Hz]; cbn [in_latitude in_longitude] in Hz;
    rewrite Hz, ?andb_false_r.
Qed.

(** X15: 'emergency-alert' with a payload that has no location, or whose type
    is missing or not one of the six types of the schema, stores no alert and
    starts no timer: the sender gets "Failed to send emergency alert" and
    nobody else gets anything. *)
Theorem socket_alert_rejects_incomplete now socket alertData w :
  in_location alertData = None
  ∨ (∀ ty, in_type alertData = Some ty → ty ∉ type_enum) →
  on_emergency_alert now socket alertData w
  = (Returned tt,
     with_outbox (outbox w ++ [error_event (sock_id socket)
                                 "Failed to send emergency alert"])
       (with_console (console w ++ [console_error "Emergency alert error:"]) w)).
Proof.
  intros H. unfold on_emergency_alert, try_catch.
  destruct (in_location alertData) as [location |]; [| done].
  destruct H as [| H]; [done |].
  unfold save_new at 1.
  assert (validate now
            (mkNewAlert (userId socket) (in_type alertData) (in_severity alertData)
               (in_longitude location) (in_latitude location)
               (in_address location) (in_description alertData) []) = None) as ->.
  { unfold validate. simpl. destruct (in_type alertData) as [ty |]; [| done]. simpl.
    destruct (in_longitude location); [| done]. simpl.
    destruct (in_latitude location); [| done]. simpl.
    by rewrite (bool_decide_eq_false_2 _ (H ty eq_refl)). }
  by erewrite bind_thrown by reflexivity.
Qed.

Lemma pushes_sender cu socket id alertData location lon lat l c :
  (∀ u1 u2 c1 c2, cu !! u1 = Some c1 → cu !! u2 = Some c2 →
                  socketId c1 = socketId c2 → u1 = u2) →
  cu !! userId socket = Some c →
  pushes (socketId c) id (omap (push_for cu socket id alertData location lon lat) l)
  = [].
Proof.
  intros Hinj Hc. induction l as [| v l IH]; [done |]. rewrite omap_cons.
  destruct (push_for _ _ _ _ _ _ _ v) as [e |] eqn:He; [| done].
  apply push_for_is_push in He as (c' & Hc' & Hv & He).
  unfold pushes. rewrite filter_cons_False; [exact IH |].
  rewrite He. intros [Hsid _]. apply Hv. by eapply Hinj.
Qed.

Lemma pushes_present cu socket id alertData location lon lat l uid u c :
  (∀ u1 u2 c1 c2, cu !! u1 = Some c1 → cu !! u2 = Some c2 →
                  socketId c1 = socketId c2 → u1 = u2) →
  cu !! uid = Some c → uid ≠ userId socket → NoDup l.*1 → (uid, u) ∈ l →
  length (pushes (socketId c) id
            (omap (push_for cu socket id alertData location lon lat) l)) = 1%nat.
Proof.
  intros Hinj Hc Hne. induction l as [| v l IH]; [by intros _ ?%elem_of_nil |].
  rewrite fmap_cons, NoDup_cons. intros [Hnin Hnd] Hin. rewrite omap_cons.
  apply elem_of_cons in Hin as [<- | Hin].
  - unfold push_for at 1. simpl. rewrite Hc. simpl.
    destruct (decide (uid ≠ userId socket)); [| done].
    unfold pushes. rewrite filter_cons_True by done.
    fold (pushes (socketId c) id
            (omap (push_for cu socket id alertData location lon lat) l)).
    by rewrite (pushes_absent _ _ _ _ _ _ _ _ _ _ Hinj Hc Hnin).
  - destruct (push_for _ _ _ _ _ _ _ v) as [e |] eqn:He; [| by apply IH].
    apply push_for_is_push in He as (c' & Hc' & _ & He).
    unfold pushes. rewrite filter_cons_False; [by apply IH |].
    rewrite He. intros [Hsid _]. apply Hnin.
    assert (v.1 = uid) as -> by (by eapply Hinj).
    apply list_elem_of_fmap. by exists (uid, u).
Qed.

(** X16: the pushes of an 'emergency-alert' go to the connected users that
    are stored online within 10 km of the point, the sender apart, once each,
    and to nobody else: a connected user gets the push of the new alert
    exactly when the user is not the sender and is stored online in range. *)
Theorem fanout_reaches_exactly w socket alertData location lon lat uid c :
  reachable w → connectedUsers w !! uid = Some c →
  let got := pushes (socketId c) (length (alerts w))
                    (fanout w socket alertData location lon lat) in
  (length got ≤ 1)%nat
  ∧ (length got = 1%nat
     ↔ uid ≠ userId socket
       ∧ ∃ u, users w !! uid = Some u ∧ isOnline u = true
              ∧ (geoDistance (mkPoint lon lat None) (currentLocation u) <= 10000)%Q).
Proof.
  intros (_ & Hinj & _)%reachable_dispatch Hc got.
  pose proof (proj1 (pushes_fanout w socket alertData location lon lat
                       (socketId c) (length (alerts w)) Hinj)) as Hle.
  split; [done |]. subst got. unfold fanout in *. rewrite pushes_app in *.
  rewrite (pushes_no_push _ _ [_]) in * by (by repeat constructor).
  rewrite app_nil_r in *. split.
  - intros Hlen.
    destruct (decide (uid ∈ (findNearby lon lat 10000 false (users w)).*1))
      as [Hin | Hnin].
    + apply list_elem_of_fmap in Hin as ([uid' u] & -> & Hin). simpl in *.
      destruct (decide (uid' = userId socket)) as [-> | Hne].
      * by rewrite (pushes_sender _ _ _ _ _ _ _ _ _ Hinj Hc) in Hlen.
      * split; [done |]. exists u.
        apply elem_of_findNearby in Hin as (? & ? & [? | ?]); done.
    + rewrite (pushes_absent _ _ _ _ _ _ _ _ _ _ Hinj Hc Hnin) in Hlen. done.
  - intros (Hne & u & Hu & Hon & Hd).
    eapply (pushes_present _ _ _ _ _ _ _ _ uid u);
      try done; [apply findNearby_NoDup |].
    apply elem_of_findNearby. auto.
Qed.

End Sockets.

Lemma location_update_rejects_zero_witness :
  on_location_update (mkSocket 0 "R")
    (Some (mkLocationInput (Some 12.97%Q) (Some 0%Q) None)) (Some minute) all_connected
  = (Returned tt,
     with_outbox (outbox all_connected ++ [error_event 0 "Invalid location data"])
                 all_connected).
Proof.
  refine (location_update_rejects_zero (mkSocket 0 "R") _ (Some minute) all_connected _).
  intros loc [= <-]. right. reflexivity.
Defined.

Lemma socket_alert_rejects_incomplete_witness :
  on_emergency_alert (G:=flat) minute (mkSocket 0 "R")
    (mkAlertInput (Some "fire") (Some "high") (Some here) None) all_connected
  = (Returned tt,
     with_outbox (outbox all_connected
                  ++ [error_event 0 "Failed to send emergency alert"])
       (with_console (console all_connected
                      ++ [console_error "Emergency alert error:"]) all_connected)).
Proof.
  refine (socket_alert_rejects_incomplete (G:=flat) minute (mkSocket 0 "R") _
            all_connected _).
  right. intros ty [= <-]. vm_compute. intros H.
  repeat (apply elem_of_cons in H as [H | H]; [discriminate H |]).
  by apply elem_of_nil in H.
Defined.

Lemma fanout_reaches_exactly_witness :
  length (pushes 1 (length (alerts all_connected))
            (fanout (G:=flat) all_connected (mkSocket 0 "R") medical here
                    77.59%Q 12.97%Q)) = 1%nat.
Proof.
  refine (proj2 (proj2 (fanout_reaches_exactly (G:=flat) all_connected (mkSocket 0 "R")
            medical here 77.59%Q 12.97%Q "A" (mkConnection 1 0) _ _)) _).
  - by exists riders, [Connect 0 "R"; Connect 0 "A"; Connect 0 "B"; Connect 0 "F"].
  - reflexivity.
  - split; [done |]. exists (set_online true 0 (rider "Asha" 77.60 12.97 true)).
    split; [reflexivity |]. split; [reflexivity |]. vm_compute. discriminate.
Defined.

(** ** notifyContacts *)

Lemma with_console_twice w l1 l2 :
  with_console (console (with_console (console w ++ l1) w) ++ l2)
               (with_console (console w ++ l1) w)
  = with_console (console w ++ (l1 ++ l2)) w.
Proof. destruct w. simpl. unfold with_console. simpl. by rewrite app_assoc. Qed.

Lemma with_console_idem w l l' :
  with_console l (with_console l' w) = with_console l w.
Proof. by destruct w. Qed.

Ltac tidy_console :=
  simpl; rewrite ?with_console_twice, ?with_console_idem, <- ?app_assoc, ?app_nil_r;
  reflexivity.

Lemma contact_loop env l w :
  for_each l (λ receiver,
    try_catch
      (gateway (messagesCreate env (default "" (TWILIO_FROM env)) receiver)
               (sms_sent (default "" (TWILIO_FROM env)) receiver))
      (λ _, log (console_error "Twilio SMS error for")) ;;
    if truthy_string (TWILIO_WHATSAPP_FROM env)
    then
      try_catch
        (gateway (messagesCreate env (default "" (TWILIO_WHATSAPP_FROM env))
                                 ("whatsapp:" +:+ receiver))
                 (sms_sent (default "" (TWILIO_WHATSAPP_FROM env))
                           ("whatsapp:" +:+ receiver)))
        (λ _, mret tt)
    else mret tt) w
  = (Returned tt, with_console (console w ++ mjoin (contact_log env <$> l)) w).
Proof.
  revert w. induction l as [| receiver l IH]; intros w.
  - simpl. by rewrite with_console_nil.
  - cbn [for_each fmap list_fmap mjoin list_join].
    match goal with |- (?m ≫= _) w = _ =>
      assert (m w = (Returned tt,
                     with_console (console w ++ contact_log env receiver) w)) as E
    end.
    { unfold contact_log, gateway, try_catch, mbind, M_bind, log, modify, throw,
        mret, M_ret.
      destruct (messagesCreate env (default "" (TWILIO_FROM env)) receiver);
        destruct (truthy_string (TWILIO_WHATSAPP_FROM env)); simpl;
        try destruct (messagesCreate env (default "" (TWILIO_WHATSAPP_FROM env)) _);
        tidy_console. }
    rewrite (bind_returned _ _ _ _ _ E), IH.
    by rewrite with_console_twice.
Qed.

(** What the function writes, line by line. *)
Lemma notifyContacts_log env alert w :
  notifyContacts env alert w
  = (Returned tt, with_console (console w ++ notify_log env alert w) w).
Proof.
  unfold notifyContacts, notify_log. fold (configured env).
  unfold try_catch at 1.
  destruct (userLookup env).
  2:{ unfold mbind, M_bind, throw, log, modify. reflexivity. }
  rewrite bind_gets. fold (contacts_of alert w).
  destruct (configured env).
  2:{ unfold mbind, M_bind, mret, M_ret, log, modify, simulation_log. simpl.
      destruct (truthy_string (or_string _ _)); tidy_console. }
  destruct (twilioImport env).
  - match goal with |- context [(try_catch ?m ?h ≫= _) w] =>
      assert (try_catch m h w
              = (Returned true,
                 with_console
                   (console w
                    ++ (mjoin (contact_log env <$> contacts_of alert w)
                        ++ call_log env
                             (or_string (serviceMap env (type (fields alert)))
                                        (Some "")))) w)) as E
    end.
    { unfold try_catch at 1. rewrite bind_ret.
      rewrite (bind_returned _ _ _ _ _ (contact_loop env _ w)).
      unfold call_log, gateway, try_catch, mbind, M_bind, log, modify, throw,
        mret, M_ret.
      destruct (truthy_string (or_string _ _)); simpl;
        try destruct (callsCreate env _); tidy_console. }
    by rewrite (bind_returned _ _ _ _ _ E).
  - unfold simulation_log, try_catch, mbind, M_bind, log, modify, throw, mret, M_ret.
    simpl. destruct (truthy_string (or_string _ _)); tidy_console.
Qed.

(** C9, as amended: [notifyContacts] returns whatever the environment does
    (user lookup, gateway module, every SMS, WhatsApp message and call), touches
    only the console, and writes there the lines of [notify_log]: a failed
    lookup, a module that does not load, a rejected SMS and a rejected call
    each leave their error line; a rejected WhatsApp message leaves none.  And
    a POST /alert that passes the check of its body, the duplicate check and
    the schema is answered 201 with the alert stored, active, whatever the
    environment does. *)
Theorem alert_creation_survives_notification
    env now req_user body l (w : World) :
  truthy_string (in_type body) = true →
  in_location body = Some l →
  truthy_number (in_latitude l) = true →
  truthy_number (in_longitude l) = true →
  findRecentActive req_user (now - 5 * 60 * 1000) (alerts w) = None →
  is_Some (validate now (alert_request req_user body l [])) →
  (∀ d w0, notifyContacts env d w0
           = (Returned tt, with_console (console w0 ++ notify_log env d w0) w0))
  ∧ ∃ a w',
      post_alert env now req_user body w
      = (Returned (mkHttpResponse 201 true "Emergency alert created successfully"
                                  (Some (length (alerts w))) None None None), w')
      ∧ alerts w' = (alerts w ++ [a])%list
      ∧ user a = req_user ∧ status a = active ∧ createdAt a = now.
Proof.
  intros Hty Hloc Hlat Hlon Hrecent [a0 Hval]. split.
  { intros d w0. apply notifyContacts_log. }
  assert (∃ hs lg, (if bool_decide (in_type body = Some "medical")
                       || bool_decide (in_type body = Some "accident")
                    then findNearbyHospitals env else mret []) w
                   = (Returned hs, with_console (console w ++ lg) w))
    as (hs & lg & Eh).
  { destruct (_ || _).
    - apply findNearbyHospitals_safe.
    - apply safe_ret. }
  pose proof (validate_hospitals now _ hs _ Hval) as Hval'. simpl in Hval'.
  fold (alert_request req_user body l hs) in Hval'.
  destruct (validate_newly_stored _ _ _ Hval) as (Hu & Hs & _ & Hc & _).
  destruct (post_alert env now req_user body w) as [r w'] eqn:E.
  cut (r = Returned (mkHttpResponse 201 true "Emergency alert created successfully"
                                    (Some (length (alerts w))) None None None)
       ∧ ∃ a, alerts w' = (alerts w ++ [a])%list
              ∧ user a = req_user ∧ status a = active ∧ createdAt a = now).
  { intros (-> & a & ? & ? & ? & ?). exists a, w'. by repeat split. }
  revert E. unfold post_alert.
  rewrite Hloc, Hty, Hlat, Hlon. simpl.
  unfold try_catch at 1. rewrite bind_gets, Hrecent.
  rewrite (bind_returned _ _ _ _ _ Eh).
  erewrite bind_returned; [| unfold save_new; rewrite Hval'; reflexivity].
  unfold scheduleAutoResolve. rewrite bind_modify, bind_detached.
  match goal with |- context [try_catch ?m ?h ?w0] =>
    destruct (safe_try_catch m h
                (safe_mayfail _ (notifyContacts_safe env _))
                (λ _, safe_log _) w0) as ([] & lg2 & ->) end.
  simpl. intros [= <- <-]. split; [done |].
  eexists. simpl. by repeat split.
Qed.

(** R's first report is stored while the gateway rejects every call. *)
Lemma alert_creation_survives_notification_witness :
  ∃ a w',
    post_alert failing 0 "R" medical (init riders)
    = (Returned (mkHttpResponse 201 true "Emergency alert created successfully"
                                (Some 0%nat) None None None), w')
    ∧ alerts w' = [] ++ [a]
    ∧ user a = "R" ∧ status a = active ∧ createdAt a = 0%Z.
Proof.
  refine (proj2 (alert_creation_survives_notification failing 0 "R" medical here
                   (init riders) _ _ _ _ _ _)); try reflexivity.
  eexists. vm_compute. reflexivity.
Defined.

(** C9 fails as stated: the WhatsApp message to the contact of R, which the
    gateway rejects, leaves no line in the console. *)
Lemma silent_whatsapp_counterexample :
  ¬ (∀ env d (w0 : World) receiver,
       userLookup env = true → configured env = true → twilioImport env = true →
       truthy_string (TWILIO_WHATSAPP_FROM env) = true →
       receiver ∈ contacts_of d w0 →
       messagesCreate env (default "" (TWILIO_WHATSAPP_FROM env))
                      ("whatsapp:" +:+ receiver) = false →
       ∃ line, line ∈ drop (length (console w0)) (console (notifyContacts env d w0).2)
               ∧ reports_failure line).
Proof.
  intros H.
  destruct (H working (mkDocument 0 (the_alert active [] false None None) [] [])
              alert_created "+100" eq_refl eq_refl eq_refl eq_refl)
    as (line & Hin & Hf).
  - apply list_elem_of_singleton. reflexivity.
  - reflexivity.
  - assert (line ∈ [sms_sent "+1500" "+100"; call_placed "108"]) as Hin'
      by (vm_compute in Hin |- *; exact Hin).
    clear Hin. rename Hin' into Hin.
    apply elem_of_cons in Hin as [-> | Hin]; [done |].
    apply elem_of_cons in Hin as [-> | Hin]; [done |].
    by apply elem_of_nil in Hin.
Qed.

Lemma elem_of_contacts_of alert w p :
  p ∈ contacts_of alert w
  ↔ p ≠ "" ∧ ∃ u c, users w !! user (fields alert) = Some u
                    ∧ c ∈ emergencyContacts u ∧ c_phone c = Some p.
Proof.
  unfold contacts_of. destruct (users w !! user (fields alert)) as [u |].
  - rewrite list_elem_of_omap. split.
    + intros (c & [Ht Hc]%list_elem_of_filter & Hp). rewrite Hp in Ht. simpl in Ht.
      split; [| by exists u, c].
      intros ->. by rewrite String.eqb_refl in Ht.
    + intros (Hne & u' & c & [= <-] & Hc & Hp). exists c. split; [| done].
      apply list_elem_of_filter. split; [| done]. rewrite Hp. simpl.
      apply negb_true_iff, String.eqb_neq. done.
  - split; [by intros ?%elem_of_nil |]. by intros (_ & u & c & [=] & _).
Qed.

Lemma truthy_string_Some s :
  truthy_string s = true → ∃ s', s = Some s' ∧ s' ≠ "".
Proof.
  destruct s as [s' |]; [| done]. simpl. intros H%negb_true_iff%String.eqb_neq.
  by exists s'.
Qed.

Lemma elem_of_call_log env n sn :
  call_placed n ∈ call_log env sn → sn = Some n ∧ n ≠ "" ∧ callsCreate env n = true.
Proof.
  unfold call_log. destruct (truthy_string sn) eqn:Ht; [| by intros ?%elem_of_nil].
  apply truthy_string_Some in Ht as (s' & -> & Hne). simpl.
  destruct (callsCreate env s') eqn:Hc.
  - by intros [= ->]%list_elem_of_singleton.
  - by intros [=]%list_elem_of_singleton.
Qed.

Lemma or_string_empty s n : or_string s (Some "") = Some n → n ≠ "" → s = Some n.
Proof.
  unfold or_string. destruct (truthy_string s); [done |]. by intros [= <-].
Qed.

Lemma simulation_log_quiet sn e :
  e ∈ simulation_log sn → ¬ is_sms e ∧ ¬ is_call e.
Proof.
  unfold simulation_log. intros Hin.
  destruct (truthy_string sn);
    repeat (apply elem_of_cons in Hin as [-> | Hin]; [split; by intros [] |]);
    by apply elem_of_nil in Hin.
Qed.

Lemma elem_of_contact_log env p e :
  e ∈ contact_log env p →
  ¬ is_call e
  ∧ ∀ sender receiver, e = sms_sent sender receiver →
      (sender = default "" (TWILIO_FROM env) ∧ receiver = p
       ∧ messagesCreate env sender p = true)
      ∨ (truthy_string (TWILIO_WHATSAPP_FROM env) = true
         ∧ sender = default "" (TWILIO_WHATSAPP_FROM env)
         ∧ receiver = "whatsapp:" +:+ p).
Proof.
  unfold contact_log. intros [Hin | Hin]%elem_of_app.
  - destruct (messagesCreate env _ p) eqn:Hm;
      apply list_elem_of_singleton in Hin as ->; (split; [by intros [] |]);
      intros sender receiver [= <- <-]. by left.
  - destruct (truthy_string (TWILIO_WHATSAPP_FROM env)); [| by apply elem_of_nil in Hin].
    destruct (messagesCreate env _ _); [| by apply elem_of_nil in Hin].
    apply list_elem_of_singleton in Hin as ->. split; [by intros [] |].
    intros sender receiver [= <- <-]. by right.
Qed.

(** X17: whatever the environment, the messages of notifyContacts go to the
    phones of the emergency contacts of the reporter, from the configured
    numbers, and a call goes to the service number of the type of the alert
    and nowhere else; an alert of a type without a service number ('battery',
    'theft', 'other') places no call. *)
Theorem notify_reaches_contacts_and_service_only env alert w :
  ∃ lg,
    notifyContacts env alert w = (Returned tt, with_console (console w ++ lg) w)
    ∧ (∀ n, call_placed n ∈ lg →
            serviceMap env (type (fields alert)) = Some n ∧ n ≠ "")
    ∧ (∀ sender receiver, sms_sent sender receiver ∈ lg →
         ∃ u c p, users w !! user (fields alert) = Some u
                  ∧ c ∈ emergencyContacts u ∧ c_phone c = Some p ∧ p ≠ ""
                  ∧ ((TWILIO_FROM env = Some sender ∧ receiver = p)
                     ∨ (TWILIO_WHATSAPP_FROM env = Some sender
                        ∧ receiver = "whatsapp:" +:+ p))).
Proof.
  exists (notify_log env alert w). split; [apply notifyContacts_log |].
  unfold notify_log.
  destruct (userLookup env).
  2:{ split; intros; by apply list_elem_of_singleton in H. }
  destruct (configured env) eqn:Hconf.
  2:{ split; intros; apply simulation_log_quiet in H as [H1 H2]; exfalso;
        [apply H2 | apply H1]; done. }
  destruct (twilioImport env).
  2:{ split; intros.
      - apply elem_of_cons in H as [? | H]; [done |].
        apply simulation_log_quiet in H as [_ H]. by destruct H.
      - apply elem_of_cons in H as [? | H]; [done |].
        apply simulation_log_quiet in H as [H _]. by destruct H. }
  apply andb_prop in Hconf as [_ (tf & Htf & _)%truthy_string_Some].
  split.
  - intros n [Hin | Hin]%elem_of_app.
    + apply list_elem_of_join in Hin as (l & Hn & Hl).
      apply list_elem_of_fmap in Hl as (p & -> & _).
      apply elem_of_contact_log in Hn as [Hn _]. by destruct Hn.
    + apply elem_of_call_log in Hin as (Hs & Hne & _).
      split; [| done]. by apply or_string_empty.
  - intros sender receiver [Hin | Hin]%elem_of_app.
    + apply list_elem_of_join in Hin as (l & Hn & Hl).
      apply list_elem_of_fmap in Hl as (p & -> & Hp).
      apply elem_of_contacts_of in Hp as (Hne & u & c & Hu & Hc & Hp).
      exists u, c, p. do 4 (split; [done |]).
      apply elem_of_contact_log in Hn as [_ Hn].
      destruct (Hn _ _ eq_refl) as [(-> & -> & _) | (Ht & -> & ->)].
      * left. by rewrite Htf.
      * right. apply truthy_string_Some in Ht as (wf & -> & _). done.
    + unfold call_log in Hin.
      destruct (truthy_string _); [| by apply elem_of_nil in Hin].
      destruct (callsCreate env _);
        by apply list_elem_of_singleton in Hin.
Qed.

(** X18: with the gateway configured and loaded, a failure for one contact
    does not keep the others from their message: every contact of the
    reporter whose SMS the gateway takes gets it, and the service number is
    called when the gateway takes the call, whatever happened before. *)
Theorem notify_tries_every_contact env alert w :
  userLookup env = true → configured env = true → twilioImport env = true →
  ∃ lg,
    notifyContacts env alert w = (Returned tt, with_console (console w ++ lg) w)
    ∧ (∀ u c p, users w !! user (fields alert) = Some u →
         c ∈ emergencyContacts u → c_phone c = Some p → p ≠ "" →
         messagesCreate env (default "" (TWILIO_FROM env)) p = true →
         sms_sent (default "" (TWILIO_FROM env)) p ∈ lg)
    ∧ (∀ n, serviceMap env (type (fields alert)) = Some n → n ≠ "" →
         callsCreate env n = true → call_placed n ∈ lg).
Proof.
  intros Hl Hc Hi.
  exists (notify_log env alert w). split; [apply notifyContacts_log |].
  unfold notify_log. rewrite Hl, Hc, Hi. split.
  - intros u c p Hu Hin Hp Hne Hm. apply elem_of_app. left.
    apply list_elem_of_join. exists (contact_log env p). split.
    + unfold contact_log. rewrite Hm. apply elem_of_app. left.
      by apply list_elem_of_singleton.
    + apply list_elem_of_fmap. exists p. split; [done |].
      apply elem_of_contacts_of. split; [done |]. by exists u, c.
  - intros n Hs Hne Hcall. apply elem_of_app. right.
    unfold call_log, or_string. rewrite Hs. simpl.
    apply String.eqb_neq in Hne. rewrite Hne. simpl. rewrite Hne. simpl.
    rewrite Hcall. by apply list_elem_of_singleton.
Qed.

(** X19: without the three settings of the gateway, or when the module does
    not load or the reporter cannot be read, notifyContacts sends no message
    and places no call: it only writes to the console. *)
Theorem no_gateway_no_message env alert w :
  configured env = false ∨ twilioImport env = false ∨ userLookup env = false →
  ∃ lg,
    notifyContacts env alert w = (Returned tt, with_console (console w ++ lg) w)
    ∧ Forall (λ e, ¬ is_sms e ∧ ¬ is_call e) lg.
Proof.
  intros H.
  exists (notify_log env alert w). split; [apply notifyContacts_log |].
  apply Forall_forall. intros e He. unfold notify_log in He.
  destruct (userLookup env).
  2:{ apply list_elem_of_singleton in He as ->. split; by intros []. }
  destruct (configured env); [| by eapply simulation_log_quiet].
  destruct (twilioImport env); [by destruct H as [? | [? | ?]] |].
  apply elem_of_cons in He as [-> | He]; [split; by intros [] |].
  by eapply simulation_log_quiet.
Qed.

Lemma notify_tries_every_contact_witness :
  ∃ lg,
    notifyContacts working (mkDocument 0 (the_alert active [] false None None) [] [])
                   alert_created
    = (Returned tt, with_console (console alert_created ++ lg) alert_created)
    ∧ sms_sent "+1500" "+100" ∈ lg ∧ call_placed "108" ∈ lg.
Proof.
  destruct (notify_tries_every_contact working
              (mkDocument 0 (the_alert active [] false None None) [] [])
              alert_created eq_refl eq_refl eq_refl) as (lg & E & Hsms & Hcall).
  exists lg. split; [exact E |]. split.
  - refine (Hsms (rider "Reporter" 77.59 12.97 true) (mkContact "kin" (Some "+100"))
                 "+100" _ _ _ _ _); try reflexivity; try discriminate.
    apply list_elem_of_singleton. reflexivity.
  - refine (Hcall "108" _ _ _); try reflexivity; discriminate.
Defined.

Lemma no_gateway_no_message_witness :
  ∃ lg,
    notifyContacts quiet (mkDocument 0 (the_alert active [] false None None) [] [])
                   alert_created
    = (Returned tt, with_console (console alert_created ++ lg) alert_created)
    ∧ Forall (λ e, ¬ is_sms e ∧ ¬ is_call e) lg.
Proof.
  refine (no_gateway_no_message quiet _ alert_created _). left. reflexivity.
Defined.

Section Alerts_nearby.
Context {G : Geometry}.

(** ** GET /api/emergency/nearby *)

#[local] Instance newer_total : Total newer.
Proof. intros x y. unfold newer. lia. Qed.

#[local] Instance newer_trans : Transitive newer.
Proof. intros x y z. unfold newer. lia. Qed.

(** The alerts the query matches, before sort and limit. *)
Lemma elem_of_matching req_user lon lat maxDistance coll id a :
  (id, a) ∈ merge_sort newer
    (filter (λ ia : AlertId * EmergencyAlert,
               status ia.2 = active ∧ user ia.2 ≠ req_user
               ∧ (geoDistance (mkPoint lon lat None) (location ia.2) <= maxDistance)%Q)
            (imap pair coll))
  ↔ coll !! id = Some a ∧ status a = active ∧ user a ≠ req_user
    ∧ (geoDistance (mkPoint lon lat None) (location a) <= maxDistance)%Q.
Proof.
  rewrite merge_sort_Permutation, list_elem_of_filter, elem_of_lookup_imap. simpl.
  split.
  - intros (? & i & y & [= -> ->] & ?). tauto.
  - intros (? & ?). split; [done |]. by exists id, a.
Qed.

Lemma elem_of_findNearbyActive req_user lon lat maxDistance coll id a :
  (id, a) ∈ findNearbyActive req_user lon lat maxDistance coll →
  coll !! id = Some a ∧ status a = active ∧ user a ≠ req_user
  ∧ (geoDistance (mkPoint lon lat None) (location a) <= maxDistance)%Q.
Proof.
  unfold findNearbyActive. intros Hin.
  pose proof (elem_of_sublist _ _ _ Hin (sublist_take _ _)) as Hin'.
  by apply elem_of_matching in Hin'.
Qed.

Lemma findNearbyActive_NoDup req_user lon lat maxDistance coll :
  NoDup (findNearbyActive req_user lon lat maxDistance coll).*1.
Proof.
  unfold findNearbyActive.
  eapply sublist_NoDup; [| apply fmap_sublist, sublist_take].
  rewrite merge_sort_Permutation.
  eapply sublist_NoDup; [| apply fmap_sublist, sublist_filter].
  rewrite fmap_imap.
  rewrite (imap_ext _ (λ j _, j)) by done.
  rewrite (imap_seq_0 coll (λ j, j)), list_fmap_id. apply NoDup_seq.
Qed.

Lemma StronglySorted_take {A} (R : relation A) n (l : list A) :
  StronglySorted R l → StronglySorted R (take n l).
Proof.
  intros H. rewrite <- (take_drop n l) in H. by apply StronglySorted_app_1_l in H.
Qed.

(** X20: GET /nearby with both coordinates and the database connected answers
    200 with at most 20 alerts and their number; each is a stored alert that
    is 'active', is not the requester's and lies within the radius (10000 m
    when none is given); they come newest first, none twice; and an alert
    that matches and is not listed is no newer than any that is, which only
    happens when 20 are listed. *)
Theorem nearby_alerts_contract w req_user lat lon radius :
  let q := mkAlertsQuery (Some lat) (Some lon) radius in
  let r := inject_Z (default 10000%Z radius) in
  let matches id a :=
    alerts w !! id = Some a ∧ status a = active ∧ user a ≠ req_user
    ∧ (geoDistance (mkPoint lon lat None) (location a) <= r)%Q in
  ∃ l,
    nearby_alerts 1 req_user q w
    = (Returned (mkAlertsResponse 200 l (length l)), w)
    ∧ (length l ≤ 20)%nat
    ∧ (∀ s, s ∈ l → ∃ a, matches (s_id s) a
                         ∧ s_respondersCount s = length (responders a)
                         ∧ s_createdAt s = createdAt a)
    ∧ StronglySorted (λ s t, (s_createdAt t ≤ s_createdAt s)%Z) l
    ∧ NoDup (s_id <$> l)
    ∧ (∀ id a, matches id a → id ∉ s_id <$> l →
               length l = 20%nat ∧ ∀ s, s ∈ l → (createdAt a ≤ s_createdAt s)%Z).
Proof.
  intros q r matches. unfold nearby_alerts. simpl.
  destruct (decide (1 ≠ 1)%Z); [done |]. rewrite bind_gets.
  fold r. set (found := findNearbyActive req_user lon lat r (alerts w)).
  exists (summary lon lat <$> found). rewrite length_fmap.
  split; [done |].
  assert (∀ ia, ia ∈ found → matches ia.1 ia.2) as Hfound.
  { intros [id a] Hin. by apply elem_of_findNearbyActive in Hin. }
  split; [| split; [| split; [| split]]].
  - unfold found, findNearbyActive. rewrite length_take. lia.
  - intros s (ia & -> & Hin)%list_elem_of_fmap. exists ia.2.
    split; [by apply Hfound |]. done.
  - eapply StronglySorted_fmap; [| apply StronglySorted_take,
                                    (StronglySorted_merge_sort newer); apply _].
    by intros x y.
  - rewrite <- list_fmap_compose.
    apply (findNearbyActive_NoDup req_user lon lat r (alerts w)).
  - intros id a Hm Hnot.
    set (all := merge_sort newer
            (filter (λ ia : AlertId * EmergencyAlert,
                       status ia.2 = active ∧ user ia.2 ≠ req_user
                       ∧ (geoDistance (mkPoint lon lat None) (location ia.2) <= r)%Q)
                    (imap pair (alerts w)))).
    assert ((id, a) ∈ all) as Hall by (by apply elem_of_matching).
    assert (found = take 20 all) as Hf by done.
    rewrite <- (take_drop 20 all), <- Hf in Hall.
    apply elem_of_app in Hall as [Hin | Hin].
    { exfalso. apply Hnot. rewrite <- list_fmap_compose.
      apply list_elem_of_fmap. by exists (id, a). }
    split.
    + rewrite Hf, length_take.
      destruct (decide (length all ≤ 20)%nat) as [Hle | Hgt]; [| lia].
      rewrite drop_ge in Hin by done. by apply elem_of_nil in Hin.
    + intros s (ia & -> & Hia)%list_elem_of_fmap. simpl.
      pose proof (StronglySorted_merge_sort newer
                    (filter (λ ia : AlertId * EmergencyAlert,
                       status ia.2 = active ∧ user ia.2 ≠ req_user
                       ∧ (geoDistance (mkPoint lon lat None) (location ia.2) <= r)%Q)
                    (imap pair (alerts w)))) as Hs.
      fold all in Hs. rewrite <- (take_drop 20 all), <- Hf in Hs.
      apply (StronglySorted_app_1_elem_of _ _ _ _ _ Hs Hia Hin).
Qed.

(** X21: in a world the server can be in, every alert that GET /nearby lists
    has [respondersCount] 0: the first response moves an alert out of
    'active', and only active alerts are listed. *)
Theorem nearby_alerts_without_responders w readyState req_user q r w' :
  reachable w →
  nearby_alerts readyState req_user q w = (Returned r, w') →
  Forall (λ s, s_respondersCount s = 0%nat) (ar_alerts r).
Proof.
  intros ((Hl & _) & _)%reachable_records. unfold nearby_alerts.
  destruct (aq_latitude q) as [lat |]; [| by intros [= <- _]].
  destruct (aq_longitude q) as [lon |]; [| by intros [= <- _]].
  destruct (decide (readyState ≠ 1)%Z); [by intros [= <- _] |].
  rewrite bind_gets. intros [= <- _]. simpl.
  apply Forall_forall. intros s (ia & -> & Hin)%list_elem_of_fmap. simpl.
  destruct ia as [id a].
  apply elem_of_findNearbyActive in Hin as (Ha & Hs & _).
  destruct (Hl _ _ Ha) as (Hr & _). simpl. by rewrite Hr.
Qed.

End Alerts_nearby.

Lemma nearby_alerts_without_responders_witness :
  Forall (λ s, s_respondersCount s = 0%nat)
    [mkAlertSummary 0 "medical" "high" (mkPoint 77.59 12.97 None) None "R" 0 0 0].
Proof.
  refine (nearby_alerts_without_responders (G:=flat) reported 1 "A"
            (mkAlertsQuery (Some 12.97%Q) (Some 77.59%Q) None)
            (mkAlertsResponse 200 _ 1) reported _ _).
  - apply reported_reachable.
  - vm_compute. reflexivity.
Defined.

(** ** POST /api/rewards/redeem *)

(** X22: POST /redeem answers 404 for a requester that is not stored and 400
    for one with fewer points than the cost, and changes nothing. *)
Theorem redeem_refused_unchanged req_user body w :
  (∀ u, users w !! req_user = Some u → (rewardPoints u < pointsCost body)%Z) →
  post_redeem req_user body w
  = (Returned (if users w !! req_user is Some _
               then mkRedeemResponse 400 "Insufficient points for redemption" None None
               else mkRedeemResponse 404 "User not found" None None), w).
Proof.
  intros H. unfold post_redeem, try_catch. rewrite bind_gets.
  destruct (users w !! req_user) as [u |]; [| done].
  destruct (decide (rewardPoints u < pointsCost body)%Z) as [| Hn]; [done |].
  exfalso. apply Hn. by apply H.
Qed.

Lemma redemption_invalid uid cost descr ref :
  reward_valid (mkNewReward uid (Some "redemption") cost descr ref None) = false.
Proof. unfold reward_valid. simpl. by destruct cost, descr. Qed.

(** X23: for a stored requester with enough points POST /redeem takes the
    cost off the points and then fails: 'redemption' is not an activity type
    of the Reward schema, so the record is not saved and the answer is 500,
    with the points gone.  A negative cost passes the check and adds points. *)
Theorem redeem_deducts_and_fails req_user body w u :
  users w !! req_user = Some u → (pointsCost body ≤ rewardPoints u)%Z →
  post_redeem req_user body w
  = (Returned (mkRedeemResponse 500 "Failed to redeem points" None None),
     with_console (console w ++ [console_error "Redeem error:"])
       (with_users (<[req_user := add_points (- pointsCost body) u]> (users w)) w)).
Proof.
  intros Hu Hc. unfold post_redeem, try_catch. rewrite bind_gets, Hu.
  destruct (decide (rewardPoints u < pointsCost body)%Z); [lia |].
  rewrite bind_modify. unfold save_reward, mbind, M_bind.
  rewrite redemption_invalid. unfold log, modify, mret, M_ret. simpl.
  do 3 f_equal. apply map_eq. intros k.
  destruct (decide (k = req_user)) as [-> |].
  - by rewrite lookup_alter_eq, lookup_insert_eq, Hu.
  - by rewrite lookup_alter_ne, lookup_insert_ne.
Qed.

Lemma redeem_refused_unchanged_witness :
  post_redeem "R" (mkRedeemInput "helmet" (ref_to 0) 10) (init riders)
  = (Returned (mkRedeemResponse 400 "Insufficient points for redemption" None None),
     init riders).
Proof.
  refine (redeem_refused_unchanged "R" (mkRedeemInput "helmet" (ref_to 0) 10)
            (init riders) _).
  intros u [= <-]. reflexivity.
Defined.

Lemma redeem_deducts_and_fails_witness :
  post_redeem "A" (mkRedeemInput "helmet" (ref_to 0) 10) first_response
  = (Returned (mkRedeemResponse 500 "Failed to redeem points" None None),
     with_console (console first_response ++ [console_error "Redeem error:"])
       (with_users (<["A" := add_points (- 10) (inc_stats (rider "Asha" 77.60 12.97 true))]>
                      (users first_response)) first_response)).
Proof.
  refine (redeem_deducts_and_fails "A" (mkRedeemInput "helmet" (ref_to 0) 10)
            first_response (inc_stats (rider "Asha" 77.60 12.97 true)) _ _).
  - reflexivity.
  - vm_compute. discriminate.
Defined.

(** ** /api/ai *)

(** [includes] is the test for a substring. *)
Lemma prefix_spec t s : String.prefix t s = true ↔ ∃ post, s = t +:+ post.
Proof.
  revert s. induction t as [| c t IH]; intros s; simpl.
  - destruct s; (split; [by eexists | done]).
  - destruct s as [| d s]; [split; [done | by intros (? & [=])] |].
    simpl. destruct (Ascii.ascii_dec c d) as [-> | Hne].
    + rewrite IH. split.
      * intros (post & ->). by exists post.
      * intros (post & [= ->]). by exists post.
    + split; [done |]. intros (post & [= <- _]). done.
Qed.

Lemma includes_spec s t :
  includes s t = true ↔ ∃ pre post, s = pre +:+ t +:+ post.
Proof.
  induction s as [| c s IH]; cbn [includes].
  - rewrite orb_false_r, prefix_spec. split.
    + intros (post & ->). by exists "", post.
    + intros ([| ? ?] & post & H); [by exists post | done].
  - rewrite orb_true_iff, prefix_spec, IH. split.
    + intros [(post & ->) | (pre & post & ->)].
      * by exists "", post.
      * by exists (String c pre), post.
    + intros ([| d pre] & post & H).
      * left. by exists post.
      * right. injection H as -> ->. by exists pre, post.
Qed.

Lemma append_empty t : t +:+ "" = t.
Proof.
  induction t as [| c t IH]; [done |].
  change (String c t +:+ "") with (String c (t +:+ "")). by rewrite IH.
Qed.

Lemma includes_refl t : includes t t = true.
Proof.
  apply includes_spec. exists "", "".
  change ("" +:+ t +:+ "") with (t +:+ ""). by rewrite append_empty.
Qed.

Lemma list_find_key {A} (k : string) (v : A) (l : list (string * A)) :
  NoDup l.*1 → (k, v) ∈ l →
  ∃ i, list_find (λ entry : string * A, entry.1 = k) l = Some (i, (k, v)).
Proof.
  intros Hnd Hin. apply list_elem_of_lookup_1 in Hin as (i & Hi).
  exists i. apply list_find_Some. split; [done |]. split; [done |].
  intros j [k' v'] Hj Hlt Hk. simpl in Hk. subst k'.
  assert (i = j); [| lia].
  eapply NoDup_lookup; [exact Hnd | |]; by rewrite list_lookup_fmap, ?Hi, ?Hj.
Qed.

Lemma commands_NoDup : NoDup commands.*1.
Proof. apply (bool_decide_unpack _). vm_compute. exact I. Qed.

(** X24: every phrase of the table of voice commands, said as it stands,
    gives the command it stands for in the table. *)
Theorem voice_exact_command phrase c :
  (phrase, c) ∈ commands → processVoiceCommand phrase = matched c.
Proof.
  intros Hin. unfold processVoiceCommand.
  by destruct (list_find_key phrase c commands commands_NoDup Hin) as (i & ->).
Qed.

(** X25: [processVoiceCommand] finds no action exactly when the transcript is
    not a name that every object inherits and no phrase of the table contains
    it or is contained in it. *)
Theorem voice_no_action_iff transcript :
  processVoiceCommand transcript = no_action
  ↔ (transcript ∉ inherited_names)
    ∧ ∀ phrase c, (phrase, c) ∈ commands →
        includes transcript phrase = false ∧ includes phrase transcript = false.
Proof.
  unfold processVoiceCommand.
  destruct (list_find (λ entry : string * Command, entry.1 = transcript) commands)
    as [[i [k c]] |] eqn:Hexact.
  - apply list_find_Some in Hexact as (Hi & Hk & _). simpl in Hk. subst k.
    split; [done |]. intros (_ & H).
    destruct (H transcript c) as [H1 _]; [by eapply list_elem_of_lookup_2 |].
    by rewrite includes_refl in H1.
  - destruct (bool_decide (transcript ∈ inherited_names)) eqn:Hinh.
    { apply bool_decide_eq_true in Hinh. split; [done |]. by intros [? _]. }
    apply bool_decide_eq_false in Hinh.
    destruct (list_find (λ entry, partial_match transcript entry = true) commands)
      as [[i [k c]] |] eqn:Hpart.
    + apply list_find_Some in Hpart as (Hi & Hk & _).
      split; [done |]. intros (_ & H).
      destruct (H k c) as [H1 H2]; [by eapply list_elem_of_lookup_2 |].
      unfold partial_match in Hk. simpl in Hk. by rewrite H1, H2 in Hk.
    + split; [| done]. intros _. split; [done |]. intros phrase c Hin.
      apply list_find_None in Hpart.
      eapply Forall_forall in Hpart; [| exact Hin].
      unfold partial_match in Hpart. simpl in Hpart.
      by destruct (includes transcript phrase), (includes phrase transcript).
Qed.

Section Voice.
Context {B : Builtins}.

(** X26: POST /voice answers 400 without a transcript; a transcript in which
    a command is found is answered with that command whatever Rasa does; for
    any other the answer is that of Rasa, and 500 when Rasa cannot be
    reached. *)
Theorem post_voice_answers rasa transcript confidence w :
  (truthy_string transcript = false →
   post_voice rasa transcript confidence w
   = (Returned (mkVoiceResponse 400 null None (Some "Voice transcript is required")
                                None), w))
  ∧ (∀ said c, transcript = Some said → said ≠ "" →
       processVoiceCommand (toLowerCase said) = matched c →
       ∃ conf, post_voice rasa transcript confidence w
               = (Returned (mkVoiceResponse 200 (command_action (action c)) (params c)
                                            (Some (response c)) conf), w))
  ∧ (∀ said, transcript = Some said → said ≠ "" →
       (∀ c, processVoiceCommand (toLowerCase said) ≠ matched c) → rasa = None →
       post_voice rasa transcript confidence w
       = (Returned (mkVoiceResponse 500 null None
                      (Some "Failed to process voice command") None),
          with_console (console w ++ [console_error "Voice processing error:"]) w)).
Proof.
  unfold post_voice, try_catch. split; [by intros -> | split].
  - intros said c -> Hne Hc. simpl.
    apply String.eqb_neq in Hne. rewrite Hne. simpl. rewrite Hc. by eexists.
  - intros said -> Hne Hc ->. simpl.
    apply String.eqb_neq in Hne. rewrite Hne. simpl.
    destruct (processVoiceCommand (toLowerCase said)) as [c | |]; [by destruct (Hc c) | |];
      reflexivity.
Qed.

(** X27: the assessment is 'critical' exactly when the description holds one
    of the five keywords of high urgency or the severity is 'critical', and
    it is never below 'medium'; the response time is "5-10 minutes" exactly
    for 'critical'; the advice ends with the three general recommendations
    and is in the order of its priorities. *)
Theorem assessment_levels description severity :
  let a := assessEmergencySituation description severity in
  (urgencyLevel a = "critical"
   ↔ (∃ keyword, keyword ∈ highUrgencyKeywords
                 ∧ includes (toLowerCase description) keyword = true)
     ∨ severity = "critical")
  ∧ urgencyLevel a ∈ ["critical"; "high"; "medium"]
  ∧ (estimated_response_time a = "5-10 minutes" ↔ urgencyLevel a = "critical")
  ∧ general_advice `suffix_of` recommendedActions a
  ∧ StronglySorted (λ x y, (adv_priority x < adv_priority y)%Z) (recommendedActions a).
Proof.
  simpl. unfold assessEmergencySituation.
  assert (existsb (λ keyword, includes (toLowerCase description) keyword)
                  highUrgencyKeywords = true
          ↔ ∃ keyword, keyword ∈ highUrgencyKeywords
                       ∧ includes (toLowerCase description) keyword = true) as Hhigh.
  { rewrite existsb_exists. by setoid_rewrite list_elem_of_In. }
  assert (StronglySorted (λ x y, (adv_priority x < adv_priority y)%Z) general_advice)
    as Hsorted.
  { unfold general_advice. repeat constructor; simpl; lia. }
  destruct (existsb _ highUrgencyKeywords) eqn:H1; simpl.
  - split; [split; [intros _; left; by apply Hhigh | done] |].
    split; [apply (bool_decide_unpack _); reflexivity |]. split; [done |].
    split; [by apply suffix_cons_r |].
    constructor; [done |]. unfold general_advice. repeat constructor; simpl; lia.
  - destruct (String.eqb severity "critical") eqn:H2; simpl.
    + apply String.eqb_eq in H2.
      split; [split; [intros _; by right | done] |].
      split; [apply (bool_decide_unpack _); reflexivity |]. split; [done |].
      split; [by apply suffix_cons_r |].
      constructor; [done |]. unfold general_advice. repeat constructor; simpl; lia.
    + apply String.eqb_neq in H2.
      assert (¬ ((∃ keyword, keyword ∈ highUrgencyKeywords
                   ∧ includes (toLowerCase description) keyword = true)
                 ∨ severity = "critical")) as Hno.
      { intros [H%Hhigh | H]; done. }
      destruct (_ || _); simpl.
      * split; [split; [done | by intros ?%Hno] |].
        split; [apply (bool_decide_unpack _); reflexivity |]. split; [done |].
        split; [by apply suffix_cons_r |].
        constructor; [done |]. unfold general_advice. repeat constructor; simpl; lia.
      * split; [split; [done | by intros ?%Hno] |].
        split; [apply (bool_decide_unpack _); reflexivity |]. split; [done |]. split; [done |]. done.
Qed.

End Voice.

Lemma voice_exact_command_witness :
  processVoiceCommand "find hospital"
  = matched (mkCommand "find_poi" (Some ("type", "medical")) "Finding nearby hospitals.").
Proof.
  refine (voice_exact_command "find hospital" _ _).
  apply list_elem_of_lookup. exists 3%nat. reflexivity.
Defined.

Lemma post_voice_answers_witness :
  ∃ conf,
    post_voice (B:=ascii_builtins) None (Some "Find Hospital") None (init riders)
    = (Returned (mkVoiceResponse 200 (command_action "find_poi")
                   (Some ("type", "medical")) (Some "Finding nearby hospitals.") conf),
       init riders).
Proof.
  refine (proj1 (proj2 (post_voice_answers (B:=ascii_builtins) None
            (Some "Find Hospital") None (init riders)))
            "Find Hospital"
            (mkCommand "find_poi" (Some ("type", "medical")) "Finding nearby hospitals.")
            _ _ _); [reflexivity | discriminate | reflexivity].
Defined.
